(** * Hector: tracked pools, the flux-pool CSV visitor and the R bindings

    A shallow embedding of three source files of the Hector climate model:

    - [src/csv_fluxpool_visitor.cpp]: the visitor that writes the tracking
      report ([CSVFluxPoolVisitor]);
    - [src/rcpp_hector.cpp]: the R-facing wrappers ([gethcore], [shutdown],
      [reset], [run], [getdate], [sendmessage], the biome calls);
    - [misc/main-api.cpp]: the example driver; what it does with the core
      (set-messages, a run to the end date, [reset(0)], the same run again
      and the comparison of the answers) is the scenario of the determinism
      property.

    The engine behind them ([Hector::Core], [fluxpool], [unitval]) is declared
    in headers that are not part of these sources.  The wrappers are embedded
    over an interface of the core ([CoreOps]); the parts of the engine that a
    property depends on are modelled from the written specification and are
    marked as such.

    Numbers that the C++ code holds in a [double] are exact rationals [Q]
    here: there is no rounding and no NaN. *)

From Stdlib Require Import ZArith QArith Qround Lia Lqa List String.
From stdpp Require Import base option list gmap strings fin_maps.

Local Open Scope Q_scope.

(* ===================================================================== *)
(** * Units, unit-checked values, message envelopes, exceptions *)
(* ===================================================================== *)

(** The unit tags that the three source files name. *)
Inductive unit_types : Type :=
  | U_UNDEFINED | U_PGC | U_PGC_YR | U_GG_S | U_TG | U_GG.

#[global] Instance unit_types_eq_dec : EqDecision unit_types.
Proof. solve_decision. Defined.

(** Modelled from the spec: the failure taxonomy of section 7 (the class
    [h_exception] itself is declared in a header outside the sources). *)
Inductive h_exception : Type :=
  | UnitMismatch | UnknownUnit | UnknownCapability | AmbiguousCapability
  | SpinupDivergence | UnsupportedReset | NegativePool.

(** A C++ call that either returns or throws an [h_exception]. *)
Inductive h_result (A : Type) : Type :=
  | Return (a : A)
  | Throw (e : h_exception).
Arguments Return {A} a.
Arguments Throw {A} e.

(** Modelled from the spec: [unitval], a magnitude tagged with a unit
    (section 3); [unitval.hpp] is outside the sources. *)
Record unitval : Type := mk_unitval { uv_magnitude : Q; uv_units : unit_types }.

(** Modelled from the spec: [unitval::value(targetUnit)] returns the magnitude
    and fails with UnitMismatch when the value is not held in that unit
    (section 4.1; the spec names no pair of distinct convertible tags). *)
Definition uv_value (x : unitval) (u : unit_types) : h_result Q :=
  if decide (uv_units x = u) then Return (uv_magnitude x) else Throw UnitMismatch.

(** [message_data(date, value)], as built in [sendmessage] and [main-api]. *)
Record message_data : Type := mk_message_data { md_date : Q; md_value : unitval }.

(** [x < y] on doubles, as a boolean. *)
Definition Qlt_bool (x y : Q) : bool := if Qlt_le_dec x y then true else false.

Lemma Qlt_bool_true (x y : Q) : x < y -> Qlt_bool x y = true.
Proof. intros H. unfold Qlt_bool. destruct (Qlt_le_dec x y); [reflexivity | lra]. Qed.

Lemma Qlt_bool_false (x y : Q) : y <= x -> Qlt_bool x y = false.
Proof. intros H. unfold Qlt_bool. destruct (Qlt_le_dec x y); [lra | reflexivity]. Qed.

(** Sum of a list of rationals. *)
Fixpoint sumQ (l : list Q) : Q :=
  match l with
  | [] => 0
  | x :: r => x + sumQ r
  end.

(* ===================================================================== *)
(** * Tracked pools *)
(* ===================================================================== *)

Module Pool.

(** Modelled from the spec: the tracked pool ([fluxpool]) of sections 3 and
    4.2: a named magnitude with a unit, a tracking flag and the mapping from
    source name to fraction.  [fluxpool.hpp] is outside the sources; the
    visitor reads [name], [tracking], [value], [units], [get_sources] and
    [get_fraction]. *)
Record fluxpool : Type := mk_fluxpool {
  name : string;
  magnitude : Q;
  units : unit_types;
  tracking : bool;
  fractions : gmap string Q
}.

Definition to_unitval (p : fluxpool) : unitval := mk_unitval (magnitude p) (units p).

Definition value (p : fluxpool) (u : unit_types) : h_result Q := uv_value (to_unitval p) u.

(** Modelled from the spec: a pool is created with an initial magnitude and,
    when tracking is enabled, a 100% self-attributed fraction (section 3). *)
Definition create (n : string) (m : Q) (u : unit_types) (t : bool) : fluxpool :=
  {| name := n; magnitude := m; units := u; tracking := t;
     fractions := if t then {[ n := 1 ]} else ∅ |}.

(** Modelled from the spec: [get_fraction] is the source's fraction, or zero
    when the source is absent (section 4.2). *)
Definition get_fraction (p : fluxpool) (s : string) : Q :=
  default 0 (fractions p !! s).

Definition nonzero (kv : string * Q) : bool := negb (Qeq_bool (snd kv) 0).

(** Modelled from the spec: [get_sources] lists the source names with a
    non-zero fraction, in a stable order (section 4.2). *)
Definition get_sources (p : fluxpool) : list string :=
  map fst (List.filter nonzero (map_to_list (fractions p))).

(** The fraction of one source after an inflow:
    (oldFraction * oldMagnitude + incomingFraction * flowMagnitude) / newMagnitude. *)
Definition mix1 (M F N : Q) (a b : option Q) : option Q :=
  match a, b with
  | None, None => None
  | _, _ => Some ((default 0 a * M + default 0 b * F) / N)
  end.

(** ... for every source present in either map. *)
Definition mix (M F N : Q) (old inc : gmap string Q) : gmap string Q :=
  merge (mix1 M F N) old inc.

(** Modelled from the spec: [add(flow, sourceAttribution)] (section 4.2). *)
Definition add (p : fluxpool) (flow : unitval) (sourceAttribution : gmap string Q)
  : h_result fluxpool :=
  if decide (uv_units flow = units p) then
    let n := magnitude p + uv_magnitude flow in
    Return {| name := name p; magnitude := n; units := units p; tracking := tracking p;
              fractions := if tracking p
                           then mix (magnitude p) (uv_magnitude flow) n
                                    (fractions p) sourceAttribution
                           else fractions p |}
  else Throw UnitMismatch.

(** Modelled from the spec: [subtract(flow)] decreases the magnitude and
    fails with NegativePool when the result would be negative; the outgoing
    flow inherits the fraction map, which stays as it is (section 4.2). *)
Definition subtract (p : fluxpool) (flow : unitval)
  : h_result (fluxpool * gmap string Q) :=
  if decide (uv_units flow = units p) then
    let n := magnitude p - uv_magnitude flow in
    if Qlt_le_dec n 0 then Throw NegativePool
    else Return ({| name := name p; magnitude := n; units := units p;
                    tracking := tracking p; fractions := fractions p |},
                 fractions p)
  else Throw UnitMismatch.

(** Modelled from the spec: enabling tracking starts from 100% self
    attribution, disabling it discards the map (section 4.2). *)
Definition enableTracking (p : fluxpool) : fluxpool :=
  {| name := name p; magnitude := magnitude p; units := units p; tracking := true;
     fractions := {[ name p := 1 ]} |}.

Definition disableTracking (p : fluxpool) : fluxpool :=
  {| name := name p; magnitude := magnitude p; units := units p; tracking := false;
     fractions := ∅ |}.

(** One operation on a pool, and a sequence of them. *)
Inductive pool_op : Type :=
  | Add (flow : unitval) (sourceAttribution : gmap string Q)
  | Subtract (flow : unitval)
  | EnableTracking
  | DisableTracking.

Definition apply_op (p : fluxpool) (o : pool_op) : h_result fluxpool :=
  match o with
  | Add f a => add p f a
  | Subtract f =>
      match subtract p f with
      | Return (p', _) => Return p'
      | Throw e => Throw e
      end
  | EnableTracking => Return (enableTracking p)
  | DisableTracking => Return (disableTracking p)
  end.

Fixpoint apply_ops (p : fluxpool) (os : list pool_op) : h_result fluxpool :=
  match os with
  | [] => Return p
  | o :: r =>
      match apply_op p o with
      | Return p' => apply_ops p' r
      | Throw e => Throw e
      end
  end.

(** The sum of all fractions of a map. *)
Definition total (m : gmap string Q) : Q := sumQ (map snd (map_to_list m)).

Definition unit_interval (m : gmap string Q) : Prop :=
  map_Forall (fun _ v => 0 <= v <= 1) m.

(** A source attribution: fractions in [0,1] that sum to 1. *)
Definition is_attribution (a : gmap string Q) : Prop :=
  unit_interval a /\ total a == 1.

(** A flow moves a non-negative amount ([add] increases and [subtract]
    decreases the magnitude); an inflow also carries a source attribution. *)
Definition op_ok (o : pool_op) : Prop :=
  match o with
  | Add f a => 0 <= uv_magnitude f /\ is_attribution a
  | Subtract f => 0 <= uv_magnitude f
  | _ => True
  end.

(** What every pool keeps: a non-negative magnitude, fractions in [0,1], and
    fractions summing to 1 when it is tracked and non-empty. *)
Definition pool_inv (p : fluxpool) : Prop :=
  0 <= magnitude p /\
  unit_interval (fractions p) /\
  (tracking p = true -> 0 < magnitude p -> total (fractions p) == 1).

Definition sum_fractions (p : fluxpool) : Q :=
  sumQ (map (get_fraction p) (get_sources p)).

(** ** Sums of fraction maps *)

Lemma sumQ_perm (l l' : list Q) : l ≡ₚ l' -> sumQ l == sumQ l'.
Proof.
  induction 1 as [|x l l' _ IH|x y l|l l' l'' _ IH1 _ IH2]; simpl.
  - reflexivity.
  - rewrite IH. reflexivity.
  - ring.
  - rewrite IH1. exact IH2.
Qed.

Lemma total_empty : total ∅ = 0.
Proof. unfold total. rewrite map_to_list_empty. reflexivity. Qed.

Lemma total_insert (m : gmap string Q) (i : string) (x : Q) :
  m !! i = None -> total (<[i:=x]> m) == x + total m.
Proof.
  intros Hi. unfold total.
  rewrite (sumQ_perm _ (map snd ((i, x) :: map_to_list m))).
  - reflexivity.
  - apply Permutation_map. apply map_to_list_insert. exact Hi.
Qed.

Lemma total_singleton (i : string) (x : Q) : total {[ i := x ]} == x.
Proof.
  unfold total. rewrite map_to_list_singleton. simpl. ring.
Qed.

Lemma total_split (m : gmap string Q) (i : string) :
  total m == default 0 (m !! i) + total (delete i m).
Proof.
  destruct (m !! i) as [x|] eqn:E; simpl.
  - rewrite <- (insert_delete_id m i x E) at 1.
    apply total_insert. apply lookup_delete_eq.
  - rewrite delete_id by exact E. ring.
Qed.

Lemma total_fmap (g : Q -> Q) (c : Q) (m : gmap string Q) :
  (forall v, g v == c * v) -> total (g <$> m) == c * total m.
Proof.
  intros Hg. induction m as [|i x m Hi IH] using map_ind.
  - rewrite fmap_empty, total_empty. ring.
  - rewrite fmap_insert.
    rewrite !total_insert; [| exact Hi | rewrite lookup_fmap, Hi; reflexivity].
    rewrite IH, Hg. ring.
Qed.

(** ** The fraction map after an inflow *)

Lemma lookup_mix (M F N : Q) (old inc : gmap string Q) (s : string) :
  mix M F N old inc !! s = mix1 M F N (old !! s) (inc !! s).
Proof.
  unfold mix. rewrite lookup_merge.
  destruct (old !! s), (inc !! s); reflexivity.
Qed.

Lemma mix_empty_l (M F N : Q) (inc : gmap string Q) :
  mix M F N ∅ inc = (fun b => (0 * M + b * F) / N) <$> inc.
Proof.
  apply map_eq. intros s.
  rewrite lookup_mix, lookup_fmap, lookup_empty.
  destruct (inc !! s); reflexivity.
Qed.

Lemma mix_insert_l (M F N : Q) (old inc : gmap string Q) (i : string) (x : Q) :
  mix M F N (<[i:=x]> old) inc
  = <[i := (x * M + default 0 (inc !! i) * F) / N]> (mix M F N old (delete i inc)).
Proof.
  apply map_eq. intros s. rewrite lookup_mix.
  destruct (decide (i = s)) as [->|Hne].
  - rewrite !lookup_insert_eq. destruct (inc !! s); reflexivity.
  - rewrite !lookup_insert_ne by exact Hne.
    rewrite lookup_mix, lookup_delete_ne by exact Hne. reflexivity.
Qed.

Lemma total_mix (M F N : Q) (old inc : gmap string Q) :
  total (mix M F N old inc) == (total old * M + total inc * F) / N.
Proof.
  revert inc. induction old as [|i x old Hi IH] using map_ind; intros inc.
  - rewrite mix_empty_l.
    rewrite (total_fmap _ (F / N)).
    + rewrite total_empty. unfold Qdiv. ring.
    + intros v. unfold Qdiv. ring.
  - rewrite mix_insert_l.
    rewrite !total_insert;
      [| exact Hi | rewrite lookup_mix, Hi, lookup_delete_eq; reflexivity].
    rewrite IH. rewrite (total_split inc i). unfold Qdiv. ring.
Qed.

Lemma unit_interval_default (m : gmap string Q) (s : string) :
  unit_interval m -> 0 <= default 0 (m !! s) <= 1.
Proof.
  intros Hm. destruct (m !! s) as [v|] eqn:E; simpl.
  - exact (Hm s v E).
  - lra.
Qed.

Lemma mixed_fraction_bounds (M F N a b : Q) :
  0 <= M -> 0 <= F -> N == M + F -> 0 <= a <= 1 -> 0 <= b <= 1 ->
  0 <= (a * M + b * F) / N <= 1.
Proof.
  intros HM HF HN Ha Hb.
  destruct (Qlt_le_dec 0 N) as [Hpos|Hle].
  - split.
    + apply Qle_shift_div_l; [exact Hpos | nra].
    + apply Qle_shift_div_r; [exact Hpos | nra].
  - assert (HM0 : M == 0) by lra. assert (HF0 : F == 0) by lra.
    assert (E : (a * M + b * F) / N == 0).
    { rewrite HM0, HF0. unfold Qdiv. ring. }
    rewrite E. lra.
Qed.

Lemma unit_interval_mix (M F N : Q) (old inc : gmap string Q) :
  0 <= M -> 0 <= F -> N == M + F ->
  unit_interval old -> unit_interval inc ->
  unit_interval (mix M F N old inc).
Proof.
  intros HM HF HN Hold Hinc s v Hs.
  rewrite lookup_mix in Hs.
  assert (Hv : v = (default 0 (old !! s) * M + default 0 (inc !! s) * F) / N).
  { destruct (old !! s), (inc !! s); simpl in *; congruence. }
  subst v.
  apply mixed_fraction_bounds; auto using unit_interval_default.
Qed.

Lemma unit_interval_singleton (i : string) : unit_interval {[ i := 1 ]}.
Proof.
  intros s v Hs. apply lookup_singleton_Some in Hs as [_ <-]. lra.
Qed.

Lemma unit_interval_empty : unit_interval ∅.
Proof. intros s v Hs. rewrite lookup_empty in Hs. discriminate. Qed.

(** ** The invariant is established by [create] and kept by every operation *)

Lemma pool_inv_create (n : string) (m : Q) (u : unit_types) (t : bool) :
  0 <= m -> pool_inv (create n m u t).
Proof.
  intros Hm. unfold pool_inv, create; simpl. split; [exact Hm | split].
  - destruct t; [apply unit_interval_singleton | apply unit_interval_empty].
  - intros -> _. apply total_singleton.
Qed.

Lemma pool_inv_add (p p' : fluxpool) (f : unitval) (a : gmap string Q) :
  pool_inv p -> 0 <= uv_magnitude f -> is_attribution a ->
  add p f a = Return p' -> pool_inv p'.
Proof.
  intros (Hm & Hu & Ht) Hf [Hau Hat] Hadd. unfold add in Hadd.
  destruct (decide (uv_units f = units p)); [|discriminate].
  injection Hadd as <-. unfold pool_inv; simpl.
  split; [lra | split].
  - destruct (tracking p); [|exact Hu].
    apply unit_interval_mix; auto. reflexivity.
  - intros Htr Hpos. rewrite Htr. rewrite total_mix.
    destruct (Qlt_le_dec 0 (magnitude p)) as [HM|HM].
    + rewrite (Ht Htr HM), Hat. field. lra.
    + assert (HM0 : magnitude p == 0) by lra.
      rewrite Hat. rewrite HM0 in *. field. lra.
Qed.

Lemma pool_inv_subtract (p p' : fluxpool) (f : unitval) (out : gmap string Q) :
  pool_inv p -> 0 <= uv_magnitude f -> subtract p f = Return (p', out) -> pool_inv p'.
Proof.
  intros (Hm & Hu & Ht) Hf Hsub. unfold subtract in Hsub.
  destruct (decide (uv_units f = units p)); [|discriminate].
  destruct (Qlt_le_dec (magnitude p - uv_magnitude f) 0) as [Hneg|Hge];
    [discriminate|].
  injection Hsub as <- _. unfold pool_inv; simpl.
  split; [exact Hge | split; [exact Hu|]].
  intros Htr Hpos. apply Ht; [exact Htr | lra].
Qed.

Lemma pool_inv_enable (p : fluxpool) : pool_inv p -> pool_inv (enableTracking p).
Proof.
  intros (Hm & _ & _). unfold pool_inv; simpl.
  split; [exact Hm | split; [apply unit_interval_singleton|]].
  intros _ _. apply total_singleton.
Qed.

Lemma pool_inv_disable (p : fluxpool) : pool_inv p -> pool_inv (disableTracking p).
Proof.
  intros (Hm & _ & _). unfold pool_inv; simpl.
  split; [exact Hm | split; [apply unit_interval_empty | discriminate]].
Qed.

Lemma pool_inv_apply_op (p p' : fluxpool) (o : pool_op) :
  pool_inv p -> op_ok o -> apply_op p o = Return p' -> pool_inv p'.
Proof.
  intros Hp Ho Hop. destruct o as [f a|f| |]; simpl in *.
  - destruct Ho as [Hf Ha]. eapply pool_inv_add; eauto.
  - destruct (subtract p f) as [[q out]|e] eqn:E; [|discriminate].
    injection Hop as <-. eapply pool_inv_subtract; eauto.
  - injection Hop as <-. apply pool_inv_enable, Hp.
  - injection Hop as <-. apply pool_inv_disable, Hp.
Qed.

Lemma pool_inv_apply_ops (os : list pool_op) (p p' : fluxpool) :
  pool_inv p -> Forall op_ok os -> apply_ops p os = Return p' -> pool_inv p'.
Proof.
  revert p. induction os as [|o os IH]; intros p Hp Hos Hrun; simpl in Hrun.
  - injection Hrun as <-. exact Hp.
  - apply Forall_cons in Hos as [Ho Hos].
    destruct (apply_op p o) as [q|e] eqn:E; [|discriminate].
    apply (IH q); auto. eapply pool_inv_apply_op; eauto.
Qed.

(** ** What the visitor reads: [get_sources] and [get_fraction] *)

Lemma sumQ_filter_nonzero (l : list (string * Q)) :
  sumQ (map snd (List.filter nonzero l)) == sumQ (map snd l).
Proof.
  induction l as [|[k v] l IH]; simpl; [reflexivity|].
  unfold nonzero at 1; simpl.
  destruct (Qeq_bool v 0) eqn:E; simpl.
  - apply Qeq_bool_eq in E. rewrite IH, E. ring.
  - rewrite IH. reflexivity.
Qed.

Lemma get_fraction_listed (p : fluxpool) (l : list (string * Q)) :
  Forall (fun kv => fractions p !! fst kv = Some (snd kv)) l ->
  map (get_fraction p) (map fst l) = map snd l.
Proof.
  induction 1 as [|[k v] l Hkv _ IH]; simpl; [reflexivity|].
  unfold get_fraction at 1. simpl in Hkv. rewrite Hkv. simpl. f_equal. exact IH.
Qed.

Lemma sources_listed (p : fluxpool) :
  Forall (fun kv => fractions p !! fst kv = Some (snd kv))
         (List.filter nonzero (map_to_list (fractions p))).
Proof.
  apply List.Forall_forall. intros [k v] Hin.
  apply List.filter_In in Hin as [Hin _].
  apply list_elem_of_In, elem_of_map_to_list in Hin. exact Hin.
Qed.

Lemma sum_fractions_total (p : fluxpool) :
  sum_fractions p == total (fractions p).
Proof.
  unfold sum_fractions, get_sources, total.
  rewrite (get_fraction_listed p _ (sources_listed p)).
  apply sumQ_filter_nonzero.
Qed.

Lemma get_fraction_bounds (p : fluxpool) (s : string) :
  unit_interval (fractions p) -> 0 <= get_fraction p s <= 1.
Proof. intros Hu. apply unit_interval_default, Hu. Qed.

(** C1 (as amended). A pool that was created with a non-negative magnitude
    and then went through any sequence of add / subtract operations (and
    tracking switches) in which every flow has a non-negative magnitude and
    every inflow comes with a source attribution whose fractions are in [0,1]
    and sum to 1, has, whenever it is tracked and non-empty, every fraction
    reported by [get_fraction] for a name of [get_sources] in [0,1], and those
    fractions sum to 1. *)
Theorem tracked_fractions_sum_to_one
  (n : string) (m : Q) (u : unit_types) (t : bool) (os : list pool_op) (p : fluxpool) :
  0 <= m ->
  Forall op_ok os ->
  apply_ops (create n m u t) os = Return p ->
  tracking p = true ->
  0 < magnitude p ->
  Forall (fun s => 0 <= get_fraction p s <= 1) (get_sources p) /\
  sum_fractions p == 1.
Proof.
  intros Hm Hos Hrun Htr Hpos.
  assert (Hinv : pool_inv p).
  { eapply pool_inv_apply_ops; [apply pool_inv_create, Hm | exact Hos | exact Hrun]. }
  destruct Hinv as (_ & Hu & Ht). split.
  - apply List.Forall_forall. intros s _. apply get_fraction_bounds, Hu.
  - rewrite sum_fractions_total. apply Ht; assumption.
Qed.

(** The scenario of the spec: pool B holds 50 units attributed to "B" and
    receives 50 units attributed to "A". *)
Definition pool_B : fluxpool := create "B" 50 U_PGC true.

Definition inflow_from_A : pool_op := Add (mk_unitval 50 U_PGC) {[ "A" := 1 ]}.

Definition pool_B_after : fluxpool :=
  {| name := "B"; magnitude := 50 + 50; units := U_PGC; tracking := true;
     fractions := mix 50 50 (50 + 50) {[ "B" := 1 ]} {[ "A" := 1 ]} |}.

Example pool_B_after_halves :
  apply_ops pool_B [inflow_from_A] = Return pool_B_after /\
  magnitude pool_B_after == 100 /\
  get_fraction pool_B_after "A" == 1 # 2 /\
  get_fraction pool_B_after "B" == 1 # 2.
Proof. repeat split. Qed.

Lemma tracked_fractions_sum_to_one_witness :
  Forall (fun s => 0 <= get_fraction pool_B_after s <= 1) (get_sources pool_B_after) /\
  sum_fractions pool_B_after == 1.
Proof.
  apply (tracked_fractions_sum_to_one "B" 50 U_PGC true [inflow_from_A] pool_B_after).
  - vm_compute. discriminate.
  - constructor; [|constructor]. split.
    + vm_compute. discriminate.
    + split; [apply unit_interval_singleton | apply total_singleton].
  - reflexivity.
  - reflexivity.
  - reflexivity.
Defined.

(** C1 does not hold for every sequence of add / subtract operations.  The
    50 units taken out of an untracked pool A come with the fraction map of
    A, which is empty; added to the tracked pool B, which holds 50 units,
    they leave B tracked and at 100 units with "B" as its only source, at one
    half.  And an inflow of a negative amount, with a source attribution,
    leaves B with a fraction of 2. *)
Definition pool_A_untracked : fluxpool := create "A" 100 U_PGC false.

Definition pool_B_diluted : fluxpool :=
  {| name := "B"; magnitude := 50 + 50; units := U_PGC; tracking := true;
     fractions := mix 50 50 (50 + 50) {[ "B" := 1 ]} ∅ |}.

Definition pool_B_drained : fluxpool :=
  {| name := "B"; magnitude := 50 + - (25); units := U_PGC; tracking := true;
     fractions := mix 50 (- (25)) (50 + - (25)) {[ "B" := 1 ]} {[ "A" := 1 ]} |}.

Lemma inflow_without_attribution_halves_sum :
  snd <$> (match subtract pool_A_untracked (mk_unitval 50 U_PGC) with
           | Return r => Some r
           | Throw _ => None
           end) = Some ∅ /\
  apply_ops pool_B [Add (mk_unitval 50 U_PGC) ∅] = Return pool_B_diluted /\
  tracking pool_B_diluted = true /\
  magnitude pool_B_diluted == 100 /\
  get_sources pool_B_diluted = ["B"] /\
  get_fraction pool_B_diluted "B" == 1 # 2 /\
  sum_fractions pool_B_diluted == 1 # 2 /\
  apply_ops pool_B [Add (mk_unitval (- (25)) U_PGC) {[ "A" := 1 ]}] = Return pool_B_drained /\
  tracking pool_B_drained = true /\
  magnitude pool_B_drained == 25 /\
  get_fraction pool_B_drained "B" == 2.
Proof. repeat split. Qed.

End Pool.

(* ===================================================================== *)
(** * The flux-pool CSV visitor ([src/csv_fluxpool_visitor.cpp]) *)
(* ===================================================================== *)

Module Visitor.
Import Pool.

(** What is written to the [ostream]: one token per [<<]. *)
Inductive token : Type :=
  | TString (s : string)
  | TDouble (q : Q)
  | TUnits (u : unit_types)
  | DELIMITER
  | endl.

(** What the visitor reads through its [Core*]: [getRun_name()] and
    [outputEnabled(componentName)] ([core.hpp] is outside the sources). *)
Record core_view : Type := mk_core_view {
  getRun_name : string;
  outputEnabled : string -> bool
}.

(** What the visitor reads of the carbon-cycle component: its name and the
    two potentially tracked pools ([simpleNbox.hpp] is outside the sources). *)
Record SimpleNbox : Type := mk_SimpleNbox {
  getComponentName : string;
  atmos_c : fluxpool;
  earth_c : fluxpool
}.

(** The visitor object.  [core] is the stored pointer: [None] until
    [visit(Core* c)] has set it. *)
Record CSVFluxPoolVisitor : Type := mk_visitor {
  csvFile : list token;
  datestring : string;
  run_name : string;
  core : option core_view
}.

Definition set_csvFile (v : CSVFluxPoolVisitor) (os : list token) : CSVFluxPoolVisitor :=
  {| csvFile := os; datestring := datestring v; run_name := run_name v; core := core v |}.

Definition header : list token :=
  [TString "year"; DELIMITER;
   TString "pool_name"; DELIMITER; TString "pool_value"; DELIMITER;
   TString "pool_units"; DELIMITER;
   TString "source_name"; DELIMITER; TString "source_fraction"; endl].

(** [CSVFluxPoolVisitor::CSVFluxPoolVisitor(outputStream, printHeader)] *)
Definition new (outputStream : list token) (printHeader : bool) : CSVFluxPoolVisitor :=
  {| csvFile := if printHeader then outputStream ++ header else outputStream;
     datestring := ""; run_name := ""; core := None |}.

Section WithLexicalCast.

(** [boost::lexical_cast<string>(double)]: the text of a date. *)
Variable lexical_cast : Q -> string.

(** [CSVFluxPoolVisitor::shouldVisit(in_spinup, date)]: records the date's
    text and answers [!in_spinup]. *)
Definition shouldVisit (v : CSVFluxPoolVisitor) (in_spinup : bool) (date : Q)
  : bool * CSVFluxPoolVisitor :=
  (negb in_spinup,
   {| csvFile := csvFile v; datestring := lexical_cast date;
      run_name := run_name v; core := core v |}).

(** [CSVFluxPoolVisitor::visit(Core* c)] *)
Definition visit_Core (v : CSVFluxPoolVisitor) (c : core_view) : CSVFluxPoolVisitor :=
  {| csvFile := csvFile v; datestring := datestring v;
     run_name := getRun_name c; core := Some c |}.

(** The body of the [for (auto &s: sources)] loop. *)
Definition print_source (x : fluxpool) (os : list token) (s : string) : list token :=
  os ++ [DELIMITER; TString s; DELIMITER; TDouble (get_fraction x s)].

(** [CSVFluxPoolVisitor::print_pool(fluxpool x)].  [x.value(U_PGC)] throws for
    a pool that is not held in Pg C; what the stream holds then is not
    modelled. *)
Definition print_pool (v : CSVFluxPoolVisitor) (x : fluxpool) : h_result CSVFluxPoolVisitor :=
  if tracking x then
    match value x U_PGC with
    | Throw e => Throw e
    | Return q =>
        let os := csvFile v ++ [TString (datestring v); DELIMITER; TString (name x); DELIMITER;
                                TDouble q; DELIMITER; TUnits (units x)] in
        let sources := get_sources x in
        let os := fold_left (print_source x) sources os in
        Return (set_csvFile v (os ++ [endl]))
    end
  else Return v.

(** [CSVFluxPoolVisitor::visit(SimpleNbox* c)].  [None]: the [core] pointer
    was never set, and dereferencing it has no defined behaviour. *)
Definition visit_SimpleNbox (v : CSVFluxPoolVisitor) (c : SimpleNbox)
  : option (h_result CSVFluxPoolVisitor) :=
  match core v with
  | None => None
  | Some k =>
      if negb (outputEnabled k (getComponentName c)) then Some (Return v)
      else
        match print_pool v (atmos_c c) with
        | Throw e => Some (Throw e)
        | Return v1 => Some (print_pool v1 (earth_c c))
        end
  end.

(** Modelled from the spec: a visit of the core and then of its carbon-cycle
    component (section 6: [visit(core)], [visit(component)]).  The pointer
    that [visit_SimpleNbox] dereferences has just been set by [visit_Core]. *)
Definition visit_all (k : core_view) (c : SimpleNbox) (v : CSVFluxPoolVisitor)
  : h_result CSVFluxPoolVisitor :=
  match visit_SimpleNbox (visit_Core v k) c with
  | Some r => r
  | None => Return (visit_Core v k)
  end.

(** Modelled from the spec: how the core notifies a visitor at one date
    (sections 4.4 and 6): it calls [shouldVisit], and [visit] only when that
    returned true.  The boolean tells whether [visit] was called. *)
Definition notify (k : core_view) (in_spinup : bool) (date : Q) (c : SimpleNbox)
  (v : CSVFluxPoolVisitor) : h_result (bool * CSVFluxPoolVisitor) :=
  let (go, v1) := shouldVisit v in_spinup date in
  if go then
    match visit_all k c v1 with
    | Throw e => Throw e
    | Return v2 => Return (true, v2)
    end
  else Return (false, v1).

(** One stepped date of the core: in spin-up or not, the date, and the
    component as it stands after the step. *)
Definition step_info : Type := (bool * Q * SimpleNbox)%type.

(** Modelled from the spec: the visitor driven through the dates the core
    steps through, in order; returns the dates at which [visit] was called.
    A visit that throws ends the run. *)
Fixpoint drive (k : core_view) (steps : list step_info) (v : CSVFluxPoolVisitor)
  : list Q * h_result CSVFluxPoolVisitor :=
  match steps with
  | [] => ([], Return v)
  | (sp, d, c) :: r =>
      match notify k sp d c v with
      | Throw e => ([d], Throw e)
      | Return (go, v') =>
          let (ds, res) := drive k r v' in
          ((if go then d :: ds else ds), res)
      end
  end.

End WithLexicalCast.

(** ** Reading the report back *)

(** One record of the tracking report. *)
Record record : Type := mk_record {
  r_date : string;
  r_poolName : string;
  r_value : Q;
  r_unit : unit_types;
  r_sources : list (string * Q)
}.

Fixpoint parse_sources (l : list token) : option (list (string * Q)) :=
  match l with
  | [] => Some []
  | DELIMITER :: TString s :: DELIMITER :: TDouble f :: r =>
      match parse_sources r with
      | Some ps => Some ((s, f) :: ps)
      | None => None
      end
  | _ => None
  end.

Definition parse_line (l : list token) : option record :=
  match l with
  | TString d :: DELIMITER :: TString n :: DELIMITER :: TDouble x :: DELIMITER
      :: TUnits u :: r =>
      match parse_sources r with
      | Some ps => Some (mk_record d n x u ps)
      | None => None
      end
  | _ => None
  end.

(** The lines of a stream: each ends at an [endl]; [cur] is the line being
    read, last token first. *)
Fixpoint split_lines (cur : list token) (l : list token) : list (list token) :=
  match l with
  | [] => match cur with [] => [] | _ => [rev cur] end
  | endl :: r => rev cur :: split_lines [] r
  | t :: r => split_lines (t :: cur) r
  end.

Definition records (l : list token) : list (option record) :=
  map parse_line (split_lines [] l).

(** The record that the report should hold for a pool. *)
Definition record_of (ds : string) (x : fluxpool) : record :=
  mk_record ds (name x) (magnitude x) (units x)
            (map (fun s => (s, get_fraction x s)) (get_sources x)).

(** What [print_pool] writes for a tracked pool, up to the [endl]. *)
Definition pool_line (ds : string) (x : fluxpool) : list token :=
  [TString ds; DELIMITER; TString (name x); DELIMITER;
   TDouble (magnitude x); DELIMITER; TUnits (units x)]
  ++ flat_map (fun s => [DELIMITER; TString s; DELIMITER; TDouble (get_fraction x s)])
              (get_sources x).

Definition pool_output (ds : string) (x : fluxpool) : list token :=
  if tracking x then pool_line ds x ++ [endl] else [].

Definition is_endl (t : token) : bool :=
  match t with endl => true | _ => false end.

Lemma fold_print_source (x : fluxpool) (l : list string) (os : list token) :
  fold_left (print_source x) l os
  = os ++ flat_map (fun s => [DELIMITER; TString s; DELIMITER; TDouble (get_fraction x s)]) l.
Proof.
  revert os. induction l as [|s l IH]; intros os; simpl.
  - rewrite app_nil_r. reflexivity.
  - rewrite IH. unfold print_source. rewrite <- app_assoc. reflexivity.
Qed.

Lemma parse_sources_printed (x : fluxpool) (l : list string) :
  parse_sources
    (flat_map (fun s => [DELIMITER; TString s; DELIMITER; TDouble (get_fraction x s)]) l)
  = Some (map (fun s => (s, get_fraction x s)) l).
Proof.
  induction l as [|s l IH]; simpl; [reflexivity|].
  rewrite IH. reflexivity.
Qed.

Lemma parse_pool_line (ds : string) (x : fluxpool) :
  parse_line (pool_line ds x) = Some (record_of ds x).
Proof.
  unfold pool_line. simpl. rewrite parse_sources_printed. reflexivity.
Qed.

Lemma pool_line_no_endl (ds : string) (x : fluxpool) :
  forallb (fun t => negb (is_endl t)) (pool_line ds x) = true.
Proof.
  unfold pool_line. simpl.
  induction (get_sources x) as [|s l IH]; simpl; [reflexivity | exact IH].
Qed.

Lemma split_lines_line (cur line rest : list token) :
  forallb (fun t => negb (is_endl t)) line = true ->
  split_lines cur (line ++ endl :: rest) = (rev cur ++ line) :: split_lines [] rest.
Proof.
  revert cur. induction line as [|t line IH]; intros cur Hne; simpl.
  - rewrite app_nil_r. reflexivity.
  - simpl in Hne. apply andb_prop in Hne as [Ht Hne].
    destruct t; simpl in Ht; try discriminate;
      rewrite (IH _ Hne); simpl; rewrite <- app_assoc; reflexivity.
Qed.

Lemma records_pool_output (ds : string) (x : fluxpool) (rest : list token) :
  records (pool_output ds x ++ rest)
  = (if tracking x then [Some (record_of ds x)] else []) ++ records rest.
Proof.
  unfold pool_output, records. destruct (tracking x); simpl; [|reflexivity].
  pose proof (split_lines_line [] (pool_line ds x) rest (pool_line_no_endl ds x)) as E.
  simpl in E. rewrite <- app_assoc. simpl. unfold pool_line in *. simpl in *.
  rewrite E.
  simpl. rewrite parse_sources_printed. reflexivity.
Qed.

Lemma print_pool_output (v : CSVFluxPoolVisitor) (x : fluxpool) :
  (tracking x = true -> units x = U_PGC) ->
  print_pool v x = Return (set_csvFile v (csvFile v ++ pool_output (datestring v) x)).
Proof.
  intros Hu. unfold print_pool, pool_output.
  destruct (tracking x) eqn:Ht.
  - unfold value, uv_value; simpl. rewrite (Hu eq_refl).
    destruct (decide (U_PGC = U_PGC)) as [_|Hne]; [|congruence].
    rewrite fold_print_source. unfold pool_line.
    rewrite <- !app_assoc. reflexivity.
  - rewrite app_nil_r. destruct v; reflexivity.
Qed.

(** The fractions of a pool's record are those of [get_fraction] over
    [get_sources], which the invariant of tracked pools speaks of. *)
Lemma record_fractions (ds : string) (x : fluxpool) :
  sumQ (map snd (r_sources (record_of ds x))) = sum_fractions x.
Proof.
  unfold record_of, sum_fractions. simpl. rewrite map_map. reflexivity.
Qed.

(** [print_pool] writes nothing for a pool whose tracking flag is off. *)
Lemma print_pool_untracked (v : CSVFluxPoolVisitor) (x : fluxpool) :
  tracking x = false -> print_pool v x = Return v.
Proof. intros Ht. unfold print_pool. rewrite Ht. reflexivity. Qed.

(** What a visit of the carbon-cycle component appends, once the core
    pointer is set. *)
Lemma visit_SimpleNbox_records (v : CSVFluxPoolVisitor) (k : core_view) (c : SimpleNbox) :
  core v = Some k ->
  (tracking (atmos_c c) = true -> units (atmos_c c) = U_PGC) ->
  (tracking (earth_c c) = true -> units (earth_c c) = U_PGC) ->
  exists out : list token,
    visit_SimpleNbox v c = Some (Return (set_csvFile v (csvFile v ++ out))) /\
    records out
    = map (fun x => Some (record_of (datestring v) x))
          (if outputEnabled k (getComponentName c)
           then List.filter tracking [atmos_c c; earth_c c]
           else []).
Proof.
  intros Hk Ha He. unfold visit_SimpleNbox. rewrite Hk.
  destruct (outputEnabled k (getComponentName c)); simpl.
  - exists (pool_output (datestring v) (atmos_c c)
            ++ pool_output (datestring v) (earth_c c)).
    split.
    + rewrite (print_pool_output v _ Ha).
      rewrite (print_pool_output _ _ He). simpl.
      rewrite <- app_assoc. reflexivity.
    + rewrite records_pool_output.
      rewrite <- (app_nil_r (pool_output _ (earth_c c))).
      rewrite records_pool_output.
      destruct (tracking (atmos_c c)), (tracking (earth_c c)); reflexivity.
  - exists []. split; [|reflexivity].
    rewrite app_nil_r. destruct v; reflexivity.
Qed.

(** C2 (as amended). With the tracked pools held in Pg C: a visit of the
    carbon-cycle component appends to the report, when output is enabled for
    the component, exactly one record for each of [atmos_c] and [earth_c] whose
    tracking flag is on, in that order, holding the date text, the pool name,
    its value, its unit and one (source name, fraction) pair per name of
    [get_sources]; it appends nothing for a pool whose flag is off, and nothing
    at all when output is disabled for the component.  So a notification at a
    date outside spin-up appends those records under the text of that date,
    and one in spin-up appends nothing. *)
Theorem tracking_report_records (lexical_cast : Q -> string)
  (v : CSVFluxPoolVisitor) (k : core_view) (c : SimpleNbox) (date : Q) :
  (tracking (atmos_c c) = true -> units (atmos_c c) = U_PGC) ->
  (tracking (earth_c c) = true -> units (earth_c c) = U_PGC) ->
  let expected (ds : string) :=
    map (fun x => Some (record_of ds x))
        (if outputEnabled k (getComponentName c)
         then List.filter tracking [atmos_c c; earth_c c]
         else []) in
  (core v = Some k ->
   exists out : list token,
     visit_SimpleNbox v c = Some (Return (set_csvFile v (csvFile v ++ out))) /\
     records out = expected (datestring v)) /\
  (exists (out : list token) (v' : CSVFluxPoolVisitor),
     notify lexical_cast k false date c v = Return (true, v') /\
     csvFile v' = csvFile v ++ out /\
     records out = expected (lexical_cast date)) /\
  (exists v' : CSVFluxPoolVisitor,
     notify lexical_cast k true date c v = Return (false, v') /\
     csvFile v' = csvFile v).
Proof.
  intros Ha He expected. split; [|split].
  - intros Hk. apply visit_SimpleNbox_records; assumption.
  - unfold notify, shouldVisit, visit_all. simpl.
    match goal with |- context [visit_SimpleNbox ?w c] =>
      destruct (visit_SimpleNbox_records w k c eq_refl Ha He) as (out & E & Hrec);
      rewrite E
    end.
    exists out. eexists. split; [reflexivity|]. split; [reflexivity | exact Hrec].
  - unfold notify, shouldVisit. simpl. eexists. split; reflexivity.
Qed.

(** A visitor whose core has output switched on, and one whose core has it
    switched off; a carbon-cycle component with a tracked atmosphere pool. *)
Definition core_on : core_view := mk_core_view "run" (fun _ => true).
Definition core_off : core_view := mk_core_view "run" (fun _ => false).

Definition nbox0 : SimpleNbox :=
  mk_SimpleNbox "simpleNbox" (create "atmos_c" 588 U_PGC true) (create "earth_c" 0 U_PGC false).

Definition visitor_at (k : core_view) (ds : string) : CSVFluxPoolVisitor :=
  {| csvFile := header; datestring := ds; run_name := getRun_name k; core := Some k |}.

Lemma tracking_report_records_witness :
  exists (out : list token) (v' : CSVFluxPoolVisitor),
    notify (fun _ => "1751") core_on false 1751 nbox0 (new [] true) = Return (true, v') /\
    csvFile v' = header ++ out /\
    records out = [Some (record_of "1751" (atmos_c nbox0))].
Proof.
  refine (proj1 (proj2 (tracking_report_records (fun _ => "1751") (new [] true) core_on nbox0
                          1751 _ _))).
  - intros _. reflexivity.
  - intros H. discriminate H.
Defined.

(** C2 does not hold as the specification states it: with output disabled
    for the component, a pool with tracking enabled is visited, at a date
    outside spin-up, and no record is emitted; the report holds its header
    and nothing else. *)
Lemma tracked_pool_without_record :
  tracking (atmos_c nbox0) = true /\
  units (atmos_c nbox0) = U_PGC /\
  visit_SimpleNbox (visitor_at core_off "1750") nbox0
  = Some (Return (visitor_at core_off "1750")) /\
  exists v' : CSVFluxPoolVisitor,
    notify (fun _ => "1751") core_off false 1751 nbox0 (new [] true) = Return (true, v') /\
    csvFile v' = header.
Proof.
  split; [reflexivity|]. split; [reflexivity|]. split; [reflexivity|].
  eexists. split; reflexivity.
Qed.

(** ** Which dates are visited *)

Definition non_spinup_dates (steps : list step_info) : list Q :=
  map (fun s : step_info => snd (fst s))
      (List.filter (fun s : step_info => negb (fst (fst s))) steps).

Lemma drive_visits (lexical_cast : Q -> string) (k : core_view)
  (steps : list step_info) (v : CSVFluxPoolVisitor) :
  fst (drive lexical_cast k steps v) `prefix_of` non_spinup_dates steps /\
  (forall v', snd (drive lexical_cast k steps v) = Return v' ->
              fst (drive lexical_cast k steps v) = non_spinup_dates steps).
Proof.
  revert v. induction steps as [|[[sp d] c] r IH]; intros v.
  - split; [apply prefix_nil | reflexivity].
  - unfold non_spinup_dates. simpl. unfold notify, shouldVisit.
    destruct sp; simpl.
    + match goal with |- context [drive _ _ r ?w] => destruct (IH w) as [IH1 IH2] end.
      destruct (drive lexical_cast k r _) as [ds res]. simpl in *.
      split; [exact IH1 | exact IH2].
    + destruct (visit_all k c _) as [v2|e]; simpl.
      * destruct (IH v2) as [IH1 IH2].
        destruct (drive lexical_cast k r v2) as [ds res]. simpl in *.
        split; [apply prefix_cons, IH1 | intros v' Hv'; f_equal; eauto].
      * split; [apply prefix_cons, prefix_nil | discriminate].
Qed.

(** C3. For every date, [shouldVisit] answers false when [in_spinup] is true
    and true when it is false.  Hence a visitor that the core drives through
    any sequence of stepped dates is visited at non-spin-up dates only, in
    order, and, when no visit fails, exactly once for each non-spin-up step. *)
Theorem shouldVisit_outside_spinup (lexical_cast : Q -> string) :
  (forall (v : CSVFluxPoolVisitor) (date : Q),
      fst (shouldVisit lexical_cast v true date) = false /\
      fst (shouldVisit lexical_cast v false date) = true) /\
  (forall (k : core_view) (steps : list step_info) (v : CSVFluxPoolVisitor),
      fst (drive lexical_cast k steps v) `prefix_of` non_spinup_dates steps /\
      (forall v', snd (drive lexical_cast k steps v) = Return v' ->
                  fst (drive lexical_cast k steps v) = non_spinup_dates steps)).
Proof.
  split.
  - intros v date. split; reflexivity.
  - intros k steps v. apply drive_visits.
Qed.

(** Two spin-up steps and two run steps: the visitor is visited at 1751 and
    1752, once each. *)
Lemma shouldVisit_outside_spinup_witness :
  fst (drive (fun _ => "date") core_on
         [(true, 1, nbox0); (true, 2, nbox0); (false, 1751, nbox0); (false, 1752, nbox0)]
         (new [] true))
  = [1751; 1752].
Proof.
  refine (proj2 (proj2 (shouldVisit_outside_spinup (fun _ => "date")) core_on
            [(true, 1, nbox0); (true, 2, nbox0); (false, 1751, nbox0); (false, 1752, nbox0)]
            (new [] true)) _ _).
  vm_compute. reflexivity.
Defined.

End Visitor.

(* ===================================================================== *)
(** * The core as the R bindings see it *)
(* ===================================================================== *)

Module Hector.

(** What [rcpp_hector.cpp] uses of [hector.hpp] (which is outside the
    sources): the methods of [Hector::Core] it calls, [unitval]'s unit names,
    the message name [M_SETDATA] and [Core::undefinedIndex()].  A method that
    can throw returns its result together with the core as the call left it. *)
Class CoreOps (Core : Type) : Type := {
  M_SETDATA : string;
  undefinedIndex : Q;
  parseUnitsName : string -> h_result unit_types;
  unitsName : unit_types -> string;
  getStartDate : Core -> Q;
  getEndDate : Core -> Q;
  getTrackingDate : Core -> Q;
  getCurrentDate : Core -> Q;
  reset : Q -> Core -> h_result unit * Core;
  run : Q -> Core -> h_result unit * Core;
  sendMessage : string -> string -> message_data -> Core -> h_result unitval * Core;
  getTrackingData : Core -> list Visitor.token;
  getBiomeList : Core -> list string;
  createBiome : string -> Core -> h_result unit * Core;
  deleteBiome : string -> Core -> h_result unit * Core;
  renameBiome : string -> string -> Core -> h_result unit * Core
}.

End Hector.

(* ===================================================================== *)
(** * The R bindings ([src/rcpp_hector.cpp]) *)
(* ===================================================================== *)

Module Rcpp.

(** The R environment that stands for a core, with the entries that
    [newcore_impl] gives it. *)
Record Environment : Type := mk_Environment {
  coreidx : Z;
  strtdate : Q;
  enddate : Q;
  trackdate : Q;
  inifile : string;
  name : string;
  clean : bool;
  reset_date : Q
}.

Definition set_clean (e : Environment) (b : bool) : Environment :=
  {| coreidx := coreidx e; strtdate := strtdate e; enddate := enddate e;
     trackdate := trackdate e; inifile := inifile e; name := name e;
     clean := b; reset_date := reset_date e |}.

(** The messages of the [Rcpp::stop] calls, and an exception that leaves a
    wrapper that has no [try] block. *)
Inductive r_error : Type :=
  | InvalidHcore                                   (* Invalid or inactive hcore object *)
  | ResetError (date : Q) (e : h_exception)        (* Error resetting to date= ... *)
  | RunDatePrior (runtodate current : Q)           (* Requested run date ... is prior to ... *)
  | RunError (e : h_exception)                     (* Error while running hector: ... *)
  | ValueLength                                    (* Value must have length 1 or same length as date. *)
  | InvalidUnitType (unitstr capstr : string)      (* invalid unit type '...' in input ... *)
  | SendmessageError (e : h_exception)             (* sendmessage: ... *)
  | DifferingRows                                  (* arguments imply differing number of rows: 0, 1 *)
  | Uncaught (e : h_exception).

(** What R's [message] prints. *)
Inductive r_message : Type :=
  | AutoResetting (resetDate : Z).                 (* Auto-resetting core to ... *)

(** The calls made on the core, in order: a record kept beside the program to
    state what was and was not invoked. *)
Inductive core_call : Type :=
  | CallReset (date : Q)
  | CallRun (runtodate : Q)
  | CallSendMessage (msgstr capstr : string) (info : message_data).

(** The data frame that [sendmessage] returns. *)
Record DataFrame : Type := mk_DataFrame {
  df_year : list (option Q);
  df_variable : string;
  df_value : list Q;
  df_units : list string
}.

(** An R numeric vector: an entry is a number or NA. *)
Definition NumericVector : Type := list (option Q).

(** The conversion of a [double] to an [int], as R coerces a numeric to an
    integer: towards zero, and [NA_integer_], the least 32-bit integer, for a
    number that no 32-bit integer above it holds. *)
Definition double_to_int (q : Q) : Z :=
  let z := Z.quot (Qnum q) (Zpos (Qden q)) in
  if ((- 2147483648 <? z) && (z <=? 2147483647))%Z then z else (- 2147483648)%Z.

Inductive outcome (A : Type) : Type :=
  | Ok (a : A)
  | Stop (e : r_error).
Arguments Ok {A} a.
Arguments Stop {A} e.

Section Wrappers.

Context {Core : Type} `{HC : Hector.CoreOps Core}.

(** The state a call works on: the handle [core] (an R environment is a
    reference object: what a wrapper writes into it stays written when the
    wrapper stops with an error), the registry of live cores behind
    [Core::getcore] / [Core::delcore], the calls made so far and the console. *)
Record session : Type := mk_session {
  handle : Environment;
  registry : gmap Z Core;
  calls : list core_call;
  console : list r_message
}.

(** A wrapper: from a session to a result or an R error, and the session as it
    is left. *)
Definition R (A : Type) : Type := session -> outcome A * session.

Definition ret {A : Type} (a : A) : R A := fun s => (Ok a, s).

Definition stop {A : Type} (e : r_error) : R A := fun s => (Stop e, s).

Definition bind {A B : Type} (m : R A) (k : A -> R B) : R B :=
  fun s =>
    match m s with
    | (Ok a, s') => k a s'
    | (Stop e, s') => (Stop e, s')
    end.

Notation "x <- m ;; k" := (bind m (fun x => k))
  (at level 200, m at level 99, k at level 200, right associativity).
Notation "m ;;; k" := (bind m (fun _ => k))
  (at level 200, k at level 200, right associativity).

(** Modelled from the spec: [Core::getcore(idx)] answers the live instance
    behind a handle, or nothing (section 6, the multi-instance interface). *)
Definition getcore (idx : Z) (s : session) : option Core := registry s !! idx.

(** Modelled from the spec: [Core::delcore(idx)] destroys the instance and
    leaves the handle invalid (section 6). *)
Definition delcore (idx : Z) (s : session) : session :=
  {| handle := handle s; registry := delete idx (registry s);
     calls := calls s; console := console s |}.

(** [gethcore]: the pointer to the core is its place in the registry. *)
Definition gethcore : R Z :=
  fun s =>
    let idx := coreidx (handle s) in
    match getcore idx s with
    | None => (Stop InvalidHcore, s)
    | Some _ => (Ok idx, s)
    end.

(** A method call through the pointer [hcore]: the core is updated in place
    and the call is recorded. *)
Definition method {A : Type} (hcore : Z) (ev : list core_call)
  (f : Core -> h_result A * Core) : R (h_result A) :=
  fun s =>
    match registry s !! hcore with
    | None => (Stop InvalidHcore, s)
    | Some c =>
        let (r, c') := f c in
        (Ok r, {| handle := handle s; registry := <[hcore := c']> (registry s);
                  calls := calls s ++ ev; console := console s |})
    end.

(** A read through the pointer. *)
Definition read {A : Type} (hcore : Z) (f : Core -> A) : R A :=
  fun s =>
    match registry s !! hcore with
    | None => (Stop InvalidHcore, s)
    | Some c => (Ok (f c), s)
    end.

Definition get_handle {A : Type} (f : Environment -> A) : R A :=
  fun s => (Ok (f (handle s)), s).

Definition put_clean (b : bool) : R unit :=
  fun s => (Ok tt, {| handle := set_clean (handle s) b; registry := registry s;
                      calls := calls s; console := console s |}).

Definition message (m : r_message) : R unit :=
  fun s => (Ok tt, {| handle := handle s; registry := registry s;
                      calls := calls s; console := console s ++ [m] |}).

(** [shutdown] *)
Definition shutdown : R unit :=
  fun s => (Ok tt, delcore (coreidx (handle s)) s).

(** [reset(core, date)] *)
Definition reset (date : Q) : R unit :=
  hcore <- gethcore ;;
  r <- method hcore [CallReset date] (Hector.reset date) ;;
  match r with
  | Throw e => stop (ResetError date e)
  | Return _ =>
      rd <- get_handle reset_date ;;
      if Qle_bool date rd then put_clean true else ret tt
  end.


(** [run(core, runtodate)], first part: the reset that a handle which is not
    clean owes. *)
Definition auto_reset : R unit :=
  cl <- get_handle clean ;;
  if negb cl then
    rd <- get_handle reset_date ;;
    message (AutoResetting (double_to_int rd)) ;;;
    reset rd
  else ret tt.

(** [run(core, runtodate)], second part: the check of the date and the run. *)
Definition run_checked (runtodate : Q) : R unit :=
  hcore <- gethcore ;;
  cur <- read hcore Hector.getCurrentDate ;;
  if Qlt_bool 0 runtodate && Qlt_bool runtodate cur
  then stop (RunDatePrior runtodate cur)
  else
    r <- method hcore [CallRun runtodate] (Hector.run runtodate) ;;
    match r with
    | Throw e => stop (RunError e)
    | Return _ => ret tt
    end.

(** [run(core, runtodate)] *)
Definition run (runtodate : Q) : R unit :=
  auto_reset ;;;
  run_checked runtodate.

(** The default of [run]'s [runtodate]. *)
Definition run_default_date : Q := - (1).

(** [getdate] *)
Definition getdate : R Q :=
  hcore <- gethcore ;;
  read hcore Hector.getCurrentDate.

(** [get_tracking_data_impl] *)
Definition get_tracking_data_impl : R (list Visitor.token) :=
  hcore <- gethcore ;;
  read hcore Hector.getTrackingData.

(** [get_biome_list] *)
Definition get_biome_list : R (list string) :=
  hcore <- gethcore ;;
  read hcore Hector.getBiomeList.

(** A call that has no [try] block around it. *)
Definition uncaught (hcore : Z) (f : Core -> h_result unit * Core) : R unit :=
  r <- method hcore [] f ;;
  match r with
  | Throw e => stop (Uncaught e)
  | Return _ => ret tt
  end.

(** [create_biome_impl], [delete_biome_impl], [rename_biome] *)
Definition create_biome_impl (biome : string) : R unit :=
  hcore <- gethcore ;;
  uncaught hcore (Hector.createBiome biome).

Definition delete_biome_impl (biome : string) : R unit :=
  hcore <- gethcore ;;
  uncaught hcore (Hector.deleteBiome biome).

Definition rename_biome (oldname newname : string) : R unit :=
  hcore <- gethcore ;;
  uncaught hcore (Hector.renameBiome oldname newname).

(** [chk_core_valid] *)
Definition chk_core_valid : R bool :=
  fun s => (Ok (bool_decide (is_Some (getcore (coreidx (handle s)) s))), s).

(** The envelope that [sendmessage] builds for entry [i] of [date]. *)
Definition envelope (utype : unit_types) (value : NumericVector)
  (i : nat) (d : option Q) : message_data :=
  let ival := if (length value =? 1)%nat then 0%nat else i in
  let tempval := match nth ival value None with
                 | None => 0
                 | Some x => x
                 end in
  let tempdate := match d with
                  | None => Hector.undefinedIndex
                  | Some x => x
                  end in
  mk_message_data tempdate (mk_unitval tempval utype).

(** The body of the loop of [sendmessage], from index [i] on: the rows
    (value, unit name) of the answers. *)
Fixpoint send_loop (hcore : Z) (msgstr capstr : string) (utype : unit_types)
  (value : NumericVector) (i : nat) (dates : list (option Q)) : R (list (Q * string)) :=
  match dates with
  | [] => ret []
  | d :: rest =>
      let info := envelope utype value i d in
      r <- method hcore [CallSendMessage msgstr capstr info]
                 (Hector.sendMessage msgstr capstr info) ;;
      match r with
      | Throw e => stop (SendmessageError e)
      | Return rtn =>
          match uv_value rtn (uv_units rtn) with
          | Throw e => stop (SendmessageError e)
          | Return x =>
              rows <- send_loop hcore msgstr capstr utype value (S i) rest ;;
              ret ((x, Hector.unitsName (uv_units rtn)) :: rows)
          end
      end
  end.

(** [DataFrame::create(Named("year") = date, Named("variable") = capability,
    Named("value") = valueout, Named("units") = unitsout,
    Named("stringsAsFactors") = false)]: with that last argument the frame is
    built by R's [as.data.frame].  The capability is a column of one row,
    which R repeats along the other columns; when these have no row at all
    the columns differ in their number of rows and R stops. *)
Definition DataFrame_create (year : NumericVector) (variable : string)
  (value : list Q) (units : list string) : R DataFrame :=
  if (length year =? 0)%nat then stop DifferingRows
  else ret (mk_DataFrame year variable value units).

(** [sendmessage] *)
Definition sendmessage (msgtype capability : string)
  (date value : NumericVector) (unit : string) : R DataFrame :=
  hcore <- gethcore ;;
  if negb (length value =? length date)%nat && negb (length value =? 1)%nat
  then stop ValueLength
  else
    utype <- match Hector.parseUnitsName unit with
             | Return u => ret u
             | Throw _ =>
                 if String.eqb msgtype Hector.M_SETDATA
                 then stop (InvalidUnitType unit capability)
                 else ret U_UNDEFINED
             end ;;
    rows <- send_loop hcore msgtype capability utype value 0 date ;;
    DataFrame_create date capability (map fst rows) (map snd rows).

(** The operations on a handle. *)
Inductive r_op : Type :=
  | OpShutdown
  | OpReset (date : Q)
  | OpRun (runtodate : Q)
  | OpGetdate
  | OpTrackingData
  | OpBiomeList
  | OpCreateBiome (biome : string)
  | OpDeleteBiome (biome : string)
  | OpRenameBiome (oldname newname : string)
  | OpSendmessage (msgtype capability : string) (date value : NumericVector) (unit : string).

Definition forget {A : Type} (m : R A) : R unit := _ <- m ;; ret tt.

Definition exec (o : r_op) : R unit :=
  match o with
  | OpShutdown => shutdown
  | OpReset d => reset d
  | OpRun t => run t
  | OpGetdate => forget getdate
  | OpTrackingData => forget get_tracking_data_impl
  | OpBiomeList => forget get_biome_list
  | OpCreateBiome b => create_biome_impl b
  | OpDeleteBiome b => delete_biome_impl b
  | OpRenameBiome a b => rename_biome a b
  | OpSendmessage t c d v u => forget (sendmessage t c d v u)
  end.

(** A sequence of operations; an error does not end the R session. *)
Fixpoint exec_all (os : list r_op) (s : session) : session :=
  match os with
  | [] => s
  | o :: r => exec_all r (snd (exec o s))
  end.

(** ** Steps of the wrapper monad *)

Lemma bind_Ok {A B : Type} (m : R A) (k : A -> R B) (s s' : session) (a : A) :
  m s = (Ok a, s') -> bind m k s = k a s'.
Proof. intros E. unfold bind. rewrite E. reflexivity. Qed.

Lemma bind_Stop {A B : Type} (m : R A) (k : A -> R B) (s s' : session) (e : r_error) :
  m s = (Stop e, s') -> bind m k s = (Stop e, s').
Proof. intros E. unfold bind. rewrite E. reflexivity. Qed.

(** The handle of a session names no live core. *)
Definition dead (s : session) : Prop := registry s !! coreidx (handle s) = None.

(** The handle of a session names the live core [c]. *)
Definition live (s : session) (c : Core) : Prop :=
  registry s !! coreidx (handle s) = Some c.

Lemma gethcore_dead (s : session) : dead s -> gethcore s = (Stop InvalidHcore, s).
Proof. intros E. unfold gethcore, getcore. rewrite E. reflexivity. Qed.

Lemma gethcore_live (s : session) (c : Core) :
  live s c -> gethcore s = (Ok (coreidx (handle s)), s).
Proof. intros E. unfold gethcore, getcore. rewrite E. reflexivity. Qed.

(** The session after a method call that took the core from [c] to [c']. *)
Definition called (s : session) (ev : list core_call) (c' : Core) : session :=
  {| handle := handle s; registry := <[coreidx (handle s) := c']> (registry s);
     calls := calls s ++ ev; console := console s |}.

Lemma method_live {A : Type} (s : session) (c : Core) (ev : list core_call)
  (f : Core -> h_result A * Core) :
  live s c ->
  method (coreidx (handle s)) ev f s = (Ok (fst (f c)), called s ev (snd (f c))).
Proof.
  intros E. unfold method. rewrite E. destruct (f c) as [r c']. reflexivity.
Qed.

Lemma read_live {A : Type} (s : session) (c : Core) (f : Core -> A) :
  live s c -> read (coreidx (handle s)) f s = (Ok (f c), s).
Proof. intros E. unfold read. rewrite E. reflexivity. Qed.

Lemma live_called (s : session) (ev : list core_call) (c' : Core) :
  live (called s ev c') c'.
Proof. unfold live, called; simpl. apply lookup_insert_eq. Qed.

(** ** After [shutdown] *)

Lemma shutdown_dead (s : session) : dead (snd (shutdown s)).
Proof. unfold dead, shutdown, delcore; simpl. apply lookup_delete_eq. Qed.

Definition is_shutdown (o : r_op) : bool :=
  match o with OpShutdown => true | _ => false end.

(** What an operation may change on a dead handle: the console only. *)
Definition same_but_console (s s' : session) : Prop :=
  handle s' = handle s /\ registry s' = registry s /\ calls s' = calls s.

Lemma same_but_console_refl (s : session) : same_but_console s s.
Proof. repeat split. Qed.

Lemma reset_dead (s : session) (date : Q) :
  dead s -> reset date s = (Stop InvalidHcore, s).
Proof. intros E. unfold reset. apply bind_Stop, gethcore_dead, E. Qed.

Lemma run_checked_dead (s : session) (runtodate : Q) :
  dead s -> run_checked runtodate s = (Stop InvalidHcore, s).
Proof. intros E. unfold run_checked. apply bind_Stop, gethcore_dead, E. Qed.

(** The session after the notice that [run] prints. *)
Definition noticed (s : session) : session :=
  {| handle := handle s; registry := registry s; calls := calls s;
     console := console s ++ [AutoResetting (double_to_int (reset_date (handle s)))] |}.

Lemma auto_reset_clean (s : session) :
  clean (handle s) = true -> auto_reset s = (Ok tt, s).
Proof. intros E. unfold auto_reset, bind, get_handle. rewrite E. reflexivity. Qed.

Lemma auto_reset_dirty (s : session) :
  clean (handle s) = false ->
  auto_reset s = reset (reset_date (handle s)) (noticed s).
Proof. intros E. unfold auto_reset, bind, get_handle, message. rewrite E. reflexivity. Qed.

Lemma run_dead (s : session) (runtodate : Q) :
  dead s ->
  fst (run runtodate s) = Stop InvalidHcore /\ same_but_console s (snd (run runtodate s)).
Proof.
  intros E. unfold run. destruct (clean (handle s)) eqn:Hc.
  - erewrite bind_Ok by (apply auto_reset_clean, Hc).
    rewrite run_checked_dead by exact E.
    split; [reflexivity | apply same_but_console_refl].
  - erewrite bind_Stop.
    2:{ rewrite auto_reset_dirty by exact Hc. apply reset_dead. exact E. }
    repeat split.
Qed.

Lemma first_gethcore_dead {A : Type} (k : Z -> R A) (s : session) :
  dead s -> bind gethcore k s = (Stop InvalidHcore, s).
Proof. intros E. apply bind_Stop, gethcore_dead, E. Qed.

Lemma forget_Stop {A : Type} (m : R A) (s s' : session) (e : r_error) :
  m s = (Stop e, s') -> forget m s = (Stop e, s').
Proof. intros E. unfold forget. apply bind_Stop, E. Qed.

Lemma exec_dead (s : session) (o : r_op) :
  dead s ->
  fst (exec o s) = (if is_shutdown o then Ok tt else Stop InvalidHcore) /\
  same_but_console s (snd (exec o s)).
Proof.
  intros E.
  assert (Hstop : forall r : outcome unit * session,
             r = (Stop InvalidHcore, s) ->
             fst r = Stop InvalidHcore /\ same_but_console s (snd r)).
  { intros r ->. split; [reflexivity | apply same_but_console_refl]. }
  destruct o; simpl.
  - unfold shutdown, delcore, same_but_console; simpl.
    rewrite delete_id by exact E. repeat split.
  - apply Hstop, reset_dead, E.
  - apply run_dead, E.
  - apply Hstop, forget_Stop, first_gethcore_dead, E.
  - apply Hstop, forget_Stop, first_gethcore_dead, E.
  - apply Hstop, forget_Stop, first_gethcore_dead, E.
  - apply Hstop, first_gethcore_dead, E.
  - apply Hstop, first_gethcore_dead, E.
  - apply Hstop, first_gethcore_dead, E.
  - apply Hstop, forget_Stop, first_gethcore_dead, E.
Qed.

Lemma exec_all_dead (os : list r_op) (s : session) :
  dead s -> dead (exec_all os s) /\ same_but_console s (exec_all os s).
Proof.
  revert s. induction os as [|o os IH]; intros s E; simpl.
  - split; [exact E | apply same_but_console_refl].
  - destruct (exec_dead s o E) as [_ (Hh & Hr & Hc)].
    assert (E' : dead (snd (exec o s))).
    { unfold dead. rewrite Hh, Hr. exact E. }
    destruct (IH _ E') as [Hd (Hh' & Hr' & Hc')].
    split; [exact Hd|]. unfold same_but_console.
    rewrite Hh', Hr', Hc'. auto.
Qed.

(** C6. After [shutdown], whatever operations were attempted on the handle
    in between, every further operation on it other than [shutdown] itself
    ([run], [reset], [getdate], [sendmessage], the tracking and the biome
    calls) stops with the invalid-instance error, makes no call on any core
    and leaves the handle and the registry as [shutdown] left them. *)
Theorem operations_fail_after_shutdown (s : session) (os : list r_op) (o : r_op) :
  let s1 := snd (shutdown s) in
  let s2 := exec_all os s1 in
  fst (exec o s2) = (if is_shutdown o then Ok tt else Stop InvalidHcore) /\
  getcore (coreidx (handle s)) (snd (exec o s2)) = None /\
  handle (snd (exec o s2)) = handle s /\
  registry (snd (exec o s2)) = registry s1 /\
  calls (snd (exec o s2)) = calls s.
Proof.
  intros s1 s2.
  destruct (exec_all_dead os s1 (shutdown_dead s)) as [Hd (Hh & Hr & Hc)].
  fold s2 in Hd, Hh, Hr, Hc.
  destruct (exec_dead s2 o Hd) as [Hres (Hh' & Hr' & Hc')].
  split; [exact Hres|].
  assert (Hs1 : handle s1 = handle s) by reflexivity.
  assert (Hc1 : calls s1 = calls s) by reflexivity.
  repeat split.
  - unfold getcore. rewrite Hr', Hr. unfold s1, shutdown, delcore; simpl.
    apply lookup_delete_eq.
  - congruence.
  - congruence.
  - congruence.
Qed.

(** ** [reset] and [run] on a live handle *)

Definition cleaned (s : session) : session :=
  {| handle := set_clean (handle s) true; registry := registry s;
     calls := calls s; console := console s |}.

Lemma reset_live (s : session) (c : Core) (date : Q) :
  live s c ->
  reset date s
  = match fst (Hector.reset date c) with
    | Throw e => (Stop (ResetError date e),
                  called s [CallReset date] (snd (Hector.reset date c)))
    | Return _ =>
        (Ok tt,
         if Qle_bool date (reset_date (handle s))
         then cleaned (called s [CallReset date] (snd (Hector.reset date c)))
         else called s [CallReset date] (snd (Hector.reset date c)))
    end.
Proof.
  intros E. unfold reset.
  erewrite bind_Ok by (eapply gethcore_live, E).
  erewrite bind_Ok by (apply method_live, E).
  destruct (fst (Hector.reset date c)) as [[]|e]; [|reflexivity].
  unfold bind, get_handle; simpl.
  destruct (Qle_bool date (reset_date (handle s))); reflexivity.
Qed.

Lemma run_checked_calls (s : session) (runtodate : Q) :
  calls (snd (run_checked runtodate s)) = calls s \/
  calls (snd (run_checked runtodate s)) = calls s ++ [CallRun runtodate].
Proof.
  unfold run_checked.
  destruct (registry s !! coreidx (handle s)) as [c|] eqn:E.
  - erewrite bind_Ok by (eapply gethcore_live, E).
    erewrite bind_Ok by (apply read_live, E).
    destruct (Qlt_bool 0 runtodate && Qlt_bool runtodate (Hector.getCurrentDate c)).
    + left. reflexivity.
    + right. erewrite bind_Ok by (apply method_live, E).
      destruct (fst (Hector.run runtodate c)); reflexivity.
  - left. rewrite first_gethcore_dead by exact E. reflexivity.
Qed.

(** What [run] does on a handle whose clean flag is false. *)
Lemma run_not_clean (s : session) (c : Core) (runtodate : Q) :
  live s c ->
  clean (handle s) = false ->
  let rd := reset_date (handle s) in
  let s1 := called (noticed s) [CallReset rd] (snd (Hector.reset rd c)) in
  match fst (Hector.reset rd c) with
  | Return _ => run runtodate s = run_checked runtodate (cleaned s1)
  | Throw e => run runtodate s = (Stop (ResetError rd e), s1)
  end.
Proof.
  intros E Hc rd s1. unfold run.
  pose proof (auto_reset_dirty s Hc) as Ha.
  rewrite (reset_live (noticed s) c _ E) in Ha. fold rd in Ha.
  destruct (fst (Hector.reset rd c)) as [[]|e].
  - simpl in Ha. unfold rd in Ha at 1.
    assert (Hle : Qle_bool (reset_date (handle s)) (reset_date (handle s)) = true)
      by (apply Qle_bool_iff, Qle_refl).
    rewrite Hle in Ha.
    erewrite bind_Ok by exact Ha. reflexivity.
  - apply bind_Stop. exact Ha.
Qed.

(** C8. On a handle whose clean flag is false, [run] first resets the core
    to the recorded reset date; when that reset returns, the flag is clean
    again and the call goes on as a run on the clean handle; when it throws,
    the call stops there.  On a clean handle [run] is the date check and the
    run alone, and that part makes no reset call on the core. *)
Theorem run_resets_when_not_clean (s : session) (c : Core) (runtodate : Q) :
  live s c ->
  let rd := reset_date (handle s) in
  let s1 := called (noticed s) [CallReset rd] (snd (Hector.reset rd c)) in
  (clean (handle s) = false ->
   calls s1 = calls s ++ [CallReset rd] /\
   clean (handle (cleaned s1)) = true /\
   match fst (Hector.reset rd c) with
   | Return _ => run runtodate s = run_checked runtodate (cleaned s1)
   | Throw e => run runtodate s = (Stop (ResetError rd e), s1)
   end) /\
  (clean (handle s) = true -> run runtodate s = run_checked runtodate s) /\
  (forall s0 : session,
      calls (snd (run_checked runtodate s0)) = calls s0 \/
      calls (snd (run_checked runtodate s0)) = calls s0 ++ [CallRun runtodate]).
Proof.
  intros E rd s1. split; [|split].
  - intros Hc. split; [reflexivity | split; [reflexivity|]].
    apply (run_not_clean s c runtodate E Hc).
  - intros Hc. unfold run. erewrite bind_Ok by (apply auto_reset_clean, Hc). reflexivity.
  - intros s0. apply run_checked_calls.
Qed.

(** ** [sendmessage] *)

(** The envelopes for the entries of [dates], the first of which has index [i]. *)
Fixpoint envelopes (utype : unit_types) (value : NumericVector) (i : nat)
  (dates : list (option Q)) : list message_data :=
  match dates with
  | [] => []
  | d :: rest => envelope utype value i d :: envelopes utype value (S i) rest
  end.

Lemma uv_value_own_units (x : unitval) : uv_value x (uv_units x) = Return (uv_magnitude x).
Proof. unfold uv_value. destruct (decide (uv_units x = uv_units x)); congruence. Qed.

Lemma envelopes_length (utype : unit_types) (value : NumericVector) (i : nat)
  (dates : list (option Q)) :
  length (envelopes utype value i dates) = length dates.
Proof. revert i. induction dates as [|d r IH]; intros i; simpl; [|rewrite IH]; reflexivity. Qed.

Lemma envelopes_units (utype : unit_types) (value : NumericVector) (i : nat)
  (dates : list (option Q)) :
  Forall (fun m => uv_units (md_value m) = utype) (envelopes utype value i dates).
Proof.
  revert i. induction dates as [|d r IH]; intros i; simpl; constructor; auto.
Qed.


(** With one value per date, envelope [j] carries value [j]. *)
Lemma envelopes_lookup (utype : unit_types) (value : NumericVector) (i j : nat)
  (dates : list (option Q)) (d : option Q) :
  dates !! j = Some d ->
  envelopes utype value i dates !! j = Some (envelope utype value (i + j) d).
Proof.
  revert i j. induction dates as [|d0 r IH]; intros i j Hj; [discriminate|].
  destruct j as [|j]; simpl in *.
  - injection Hj as ->. rewrite Nat.add_0_r. reflexivity.
  - rewrite (IH (S i) j Hj). do 2 f_equal. lia.
Qed.

(** What the loop of [sendmessage] leaves: the envelopes dispatched are the
    first [k] of those of the dates, all of them when the loop returns. *)
Lemma send_loop_calls (msgstr capstr : string) (utype : unit_types) (value : NumericVector)
  (dates : list (option Q)) (i : nat) (s : session) (c : Core) :
  live s c ->
  let r := send_loop (coreidx (handle s)) msgstr capstr utype value i dates s in
  exists k : nat,
    (k <= length dates)%nat /\
    calls (snd r)
    = calls s ++ map (CallSendMessage msgstr capstr) (take k (envelopes utype value i dates)) /\
    handle (snd r) = handle s /\
    console (snd r) = console s /\
    (forall rows, fst r = Ok rows -> k = length dates /\ length rows = length dates).
Proof.
  revert i s c. induction dates as [|d rest IH]; intros i s c E r; subst r.
  - exists 0%nat. simpl. rewrite app_nil_r.
    split; [lia|]. split; [reflexivity|]. split; [reflexivity|]. split; [reflexivity|].
    intros rows Hrows. injection Hrows as <-. split; reflexivity.
  - simpl send_loop.
    erewrite bind_Ok by (apply method_live, E).
    set (info := envelope utype value i d).
    set (s' := called s [CallSendMessage msgstr capstr info]
                      (snd (Hector.sendMessage msgstr capstr info c))).
    destruct (fst (Hector.sendMessage msgstr capstr info c)) as [rtn|e].
    + rewrite uv_value_own_units.
      assert (E' : live s' (snd (Hector.sendMessage msgstr capstr info c)))
        by apply live_called.
      destruct (IH (S i) s' _ E') as (k & Hk & Hcalls & Hh & Hcon & Hok).
      change (coreidx (handle s')) with (coreidx (handle s)) in *.
      exists (S k).
      destruct (send_loop (coreidx (handle s)) msgstr capstr utype value (S i) rest s')
        as [[rows|err] s''] eqn:El;
        [rewrite (bind_Ok _ _ _ _ _ El) | rewrite (bind_Stop _ _ _ _ _ El)];
        simpl in *.
      * split; [lia|]. split.
        { rewrite Hcalls. rewrite <- app_assoc. reflexivity. }
        split; [exact Hh | split; [exact Hcon|]].
        intros rows' Hrows. injection Hrows as <-.
        destruct (Hok rows eq_refl) as [-> Hlen]. simpl. split; congruence.
      * split; [lia|]. split.
        { rewrite Hcalls. rewrite <- app_assoc. reflexivity. }
        split; [exact Hh | split; [exact Hcon | discriminate]].
    + exists 1%nat. simpl. split; [lia|].
      split; [reflexivity|]. split; [reflexivity|]. split; [reflexivity|]. discriminate.
Qed.


(** The test on the lengths that opens [sendmessage]. *)
Definition length_mismatch (date value : NumericVector) : bool :=
  negb (length value =? length date)%nat && negb (length value =? 1)%nat.


Lemma length_mismatch_false (date value : NumericVector) :
  length value = length date \/ length value = 1%nat ->
  length_mismatch date value = false.
Proof.
  intros [H|H]; unfold length_mismatch; apply Nat.eqb_eq in H; rewrite H; simpl;
    [reflexivity | apply andb_false_r].
Qed.

Lemma DataFrame_create_eq (year : NumericVector) (variable : string)
  (value : list Q) (units : list string) (s : session) :
  DataFrame_create year variable value units s
  = (if (length year =? 0)%nat then Stop DifferingRows
     else Ok (mk_DataFrame year variable value units), s).
Proof. unfold DataFrame_create. destruct (length year =? 0)%nat; reflexivity. Qed.

Lemma DataFrame_create_snd (year : NumericVector) (variable : string)
  (value : list Q) (units : list string) (s : session) :
  snd (DataFrame_create year variable value units s) = s.
Proof. rewrite DataFrame_create_eq. reflexivity. Qed.

(** [sendmessage] once the handle and the lengths have passed, for the unit
    tag [utype]. *)
Definition dispatch (msgtype capability : string) (date value : NumericVector)
  (utype : unit_types) : R DataFrame :=
  fun s =>
    (rows <- send_loop (coreidx (handle s)) msgtype capability utype value 0 date ;;
     DataFrame_create date capability (map fst rows) (map snd rows)) s.

Lemma sendmessage_dead (s : session) (msgtype capability : string)
  (date value : NumericVector) (unit : string) :
  dead s -> sendmessage msgtype capability date value unit s = (Stop InvalidHcore, s).
Proof. intros E. unfold sendmessage. apply first_gethcore_dead, E. Qed.

Lemma sendmessage_live (s : session) (c : Core) (msgtype capability : string)
  (date value : NumericVector) (unit : string) :
  live s c ->
  sendmessage msgtype capability date value unit s
  = if length_mismatch date value then (Stop ValueLength, s)
    else match Hector.parseUnitsName unit with
         | Return u => dispatch msgtype capability date value u s
         | Throw _ =>
             if String.eqb msgtype Hector.M_SETDATA
             then (Stop (InvalidUnitType unit capability), s)
             else dispatch msgtype capability date value U_UNDEFINED s
         end.
Proof.
  intros E. unfold sendmessage.
  erewrite bind_Ok by (eapply gethcore_live, E).
  fold (length_mismatch date value).
  destruct (length_mismatch date value); [reflexivity|].
  destruct (Hector.parseUnitsName unit) as [u|e].
  - reflexivity.
  - destruct (String.eqb msgtype Hector.M_SETDATA); reflexivity.
Qed.



(** ** What the operations other than [reset] keep of a live core *)

Lemma run_checked_live (s : session) (c : Core) (runtodate : Q) :
  live s c ->
  run_checked runtodate s
  = if Qlt_bool 0 runtodate && Qlt_bool runtodate (Hector.getCurrentDate c)
    then (Stop (RunDatePrior runtodate (Hector.getCurrentDate c)), s)
    else (match fst (Hector.run runtodate c) with
          | Throw e => Stop (RunError e)
          | Return _ => Ok tt
          end,
          called s [CallRun runtodate] (snd (Hector.run runtodate c))).
Proof.
  intros E. unfold run_checked.
  erewrite bind_Ok by (eapply gethcore_live, E).
  erewrite bind_Ok by (apply read_live, E).
  destruct (Qlt_bool 0 runtodate && Qlt_bool runtodate (Hector.getCurrentDate c));
    [reflexivity|].
  erewrite bind_Ok by (apply method_live, E).
  destruct (fst (Hector.run runtodate c)); reflexivity.
Qed.

Lemma query_live {A : Type} (s : session) (c : Core) (f : Core -> A) :
  live s c -> (hcore <- gethcore ;; read hcore f) s = (Ok (f c), s).
Proof.
  intros E. erewrite bind_Ok by (eapply gethcore_live, E). apply read_live, E.
Qed.

Lemma uncaught_live (s : session) (c : Core) (f : Core -> h_result unit * Core) :
  live s c ->
  (hcore <- gethcore ;; uncaught hcore f) s
  = (match fst (f c) with
     | Throw e => Stop (Uncaught e)
     | Return _ => Ok tt
     end, called s [] (snd (f c))).
Proof.
  intros E. erewrite bind_Ok by (eapply gethcore_live, E). unfold uncaught.
  erewrite bind_Ok by (apply method_live, E).
  destruct (fst (f c)); reflexivity.
Qed.

Lemma forget_snd {A : Type} (m : R A) (s : session) : snd (forget m s) = snd (m s).
Proof. unfold forget, bind, ret. destruct (m s) as [[a|e] s']; reflexivity. Qed.

Lemma live_called_inv (s : session) (ev : list core_call) (c c' : Core) :
  live (called s ev c) c' -> c' = c.
Proof.
  unfold live, called; simpl. rewrite lookup_insert_eq. congruence.
Qed.

Lemma send_loop_keeps (P : Core -> Prop) (msgstr capstr : string) (utype : unit_types)
  (value : NumericVector) (dates : list (option Q)) (i : nat) (s : session) (c : Core) :
  (forall m cap info c0, P c0 -> P (snd (Hector.sendMessage m cap info c0))) ->
  live s c -> P c ->
  exists c', live (snd (send_loop (coreidx (handle s)) msgstr capstr utype value i dates s)) c'
             /\ P c'.
Proof.
  intros HP. revert i s c. induction dates as [|d rest IH]; intros i s c E Hc.
  - exists c. split; assumption.
  - simpl send_loop.
    erewrite bind_Ok by (apply method_live, E).
    set (info := envelope utype value i d).
    set (c1 := snd (Hector.sendMessage msgstr capstr info c)).
    set (s' := called s [CallSendMessage msgstr capstr info] c1).
    assert (E' : live s' c1) by apply live_called.
    assert (Hc1 : P c1) by (apply HP, Hc).
    destruct (fst (Hector.sendMessage msgstr capstr info c)) as [rtn|e].
    + rewrite uv_value_own_units.
      destruct (IH (S i) s' c1 E' Hc1) as (c' & El & Hc').
      change (coreidx (handle s')) with (coreidx (handle s)) in El.
      destruct (send_loop (coreidx (handle s)) msgstr capstr utype value (S i) rest s')
        as [[rows|err] s''] eqn:Es;
        [rewrite (bind_Ok _ _ _ _ _ Es) | rewrite (bind_Stop _ _ _ _ _ Es)];
        exists c'; auto.
    + exists c1. auto.
Qed.

Lemma sendmessage_keeps (P : Core -> Prop) (msgtype capability : string)
  (date value : NumericVector) (unit : string) (s : session) (c : Core) :
  (forall m cap info c0, P c0 -> P (snd (Hector.sendMessage m cap info c0))) ->
  live s c -> P c ->
  exists c', live (snd (sendmessage msgtype capability date value unit s)) c' /\ P c'.
Proof.
  intros HP E Hc. rewrite (sendmessage_live s c) by exact E.
  assert (Hd : forall u, exists c',
               live (snd (dispatch msgtype capability date value u s)) c' /\ P c').
  { intros u. unfold dispatch.
    destruct (send_loop_keeps P msgtype capability u value date 0 s c HP E Hc)
      as (c' & El & Hc').
    destruct (send_loop (coreidx (handle s)) msgtype capability u value 0 date s)
      as [[rows|err] s'] eqn:Es;
      [rewrite (bind_Ok _ _ _ _ _ Es), DataFrame_create_snd
      | rewrite (bind_Stop _ _ _ _ _ Es)];
      exists c'; auto. }
  destruct (length_mismatch date value); [exists c; auto|].
  destruct (Hector.parseUnitsName unit) as [u|e]; [apply Hd|].
  destruct (String.eqb msgtype Hector.M_SETDATA); [exists c; auto | apply Hd].
Qed.

Lemma send_loop_handle (msgstr capstr : string) (utype : unit_types)
  (value : NumericVector) (dates : list (option Q)) (i : nat) (hcore : Z) (s : session) :
  handle (snd (send_loop hcore msgstr capstr utype value i dates s)) = handle s.
Proof.
  revert i s. induction dates as [|d rest IH]; intros i s; [reflexivity|].
  simpl send_loop. unfold bind at 1, method.
  destruct (registry s !! hcore) as [c|]; [|reflexivity].
  destruct (Hector.sendMessage msgstr capstr (envelope utype value i d) c) as [[rtn|e] c1];
    [|reflexivity].
  rewrite uv_value_own_units. unfold bind at 1.
  match goal with |- context [send_loop hcore msgstr capstr utype value (S i) rest ?s'] =>
    specialize (IH (S i) s');
    destruct (send_loop hcore msgstr capstr utype value (S i) rest s') as [[rows|err] s'']
  end; simpl in *; exact IH.
Qed.

Lemma sendmessage_handle (msgtype capability : string)
  (date value : NumericVector) (unit : string) (s : session) :
  handle (snd (sendmessage msgtype capability date value unit s)) = handle s.
Proof.
  unfold sendmessage. unfold bind at 1, gethcore.
  destruct (getcore (coreidx (handle s)) s); [|reflexivity].
  destruct (negb _ && negb _); [reflexivity|].
  unfold bind at 1.
  assert (Hd : forall u,
             handle (snd ((rows <- send_loop (coreidx (handle s)) msgtype capability u
                                     value 0 date ;;
                           DataFrame_create date capability (map fst rows) (map snd rows))
                            s))
             = handle s).
  { intros u. pose proof (send_loop_handle msgtype capability u value date 0
                            (coreidx (handle s)) s) as H.
    unfold bind.
    destruct (send_loop (coreidx (handle s)) msgtype capability u value 0 date s)
      as [[rows|err] s']; [rewrite DataFrame_create_snd|]; exact H. }
  destruct (Hector.parseUnitsName unit) as [u|e]; [apply Hd|].
  destruct (String.eqb msgtype Hector.M_SETDATA); [reflexivity | apply Hd].
Qed.

Definition is_reset (o : r_op) : bool :=
  match o with OpReset _ => true | _ => false end.

(** A property of the core that [run], [sendMessage] and the biome calls
    keep is kept by every operation other than [reset] on a clean handle,
    and the handle stays clean. *)
Lemma exec_keeps (P : Core -> Prop) (s : session) (c : Core) (o : r_op) :
  (forall t c0, P c0 -> P (snd (Hector.run t c0))) ->
  (forall m cap info c0, P c0 -> P (snd (Hector.sendMessage m cap info c0))) ->
  (forall b c0, P c0 -> P (snd (Hector.createBiome b c0))) ->
  (forall b c0, P c0 -> P (snd (Hector.deleteBiome b c0))) ->
  (forall a b c0, P c0 -> P (snd (Hector.renameBiome a b c0))) ->
  live s c -> P c -> clean (handle s) = true -> is_reset o = false ->
  clean (handle (snd (exec o s))) = true /\
  (forall c', live (snd (exec o s)) c' -> P c').
Proof.
  intros Hrun Hsend Hcr Hdel Hren E Hc Hclean Ho.
  assert (Hsame : forall c', live s c' -> P c').
  { intros c' E'. unfold live in *. rewrite E in E'. injection E' as <-. exact Hc. }
  destruct o; simpl in *; try discriminate.
  - split; [exact Hclean|]. intros c'. unfold live, shutdown, delcore; simpl.
    rewrite lookup_delete_eq. discriminate.
  - unfold run. erewrite bind_Ok by (apply auto_reset_clean, Hclean).
    rewrite (run_checked_live s c) by exact E.
    destruct (Qlt_bool 0 runtodate && Qlt_bool runtodate (Hector.getCurrentDate c)); simpl.
    + split; [exact Hclean | exact Hsame].
    + split; [exact Hclean|]. intros c' E'. apply live_called_inv in E'. subst c'.
      apply Hrun, Hc.
  - rewrite forget_snd. unfold getdate. rewrite (query_live s c) by exact E.
    split; [exact Hclean | exact Hsame].
  - rewrite forget_snd. unfold get_tracking_data_impl. rewrite (query_live s c) by exact E.
    split; [exact Hclean | exact Hsame].
  - rewrite forget_snd. unfold get_biome_list. rewrite (query_live s c) by exact E.
    split; [exact Hclean | exact Hsame].
  - unfold create_biome_impl. rewrite (uncaught_live s c) by exact E. simpl.
    split; [exact Hclean|]. intros c' E'. apply live_called_inv in E'. subst c'.
    apply Hcr, Hc.
  - unfold delete_biome_impl. rewrite (uncaught_live s c) by exact E. simpl.
    split; [exact Hclean|]. intros c' E'. apply live_called_inv in E'. subst c'.
    apply Hdel, Hc.
  - unfold rename_biome. rewrite (uncaught_live s c) by exact E. simpl.
    split; [exact Hclean|]. intros c' E'. apply live_called_inv in E'. subst c'.
    apply Hren, Hc.
  - rewrite forget_snd. split.
    + rewrite sendmessage_handle. exact Hclean.
    + intros c' E'.
      destruct (sendmessage_keeps P msgtype capability date value unit s c Hsend E Hc)
        as (c'' & E'' & Hc'').
      unfold live in *. rewrite E'' in E'. injection E' as <-. exact Hc''.
Qed.

End Wrappers.

Arguments session Core : clear implicits.
Arguments R Core A : clear implicits.

End Rcpp.

(* ===================================================================== *)
(** * The engine, modelled from the specification *)
(* ===================================================================== *)

Module SpecCore.

(** Modelled from the spec: what the engine is given: the message names and
    unit names of the headers, and the components, whose science is outside
    the architecture (section 1): a state [St], the forcing [F] that
    set-messages write, the spin-up and yearly steps, and the capabilities. *)
Record model (St F : Type) : Type := mk_model {
  m_GETDATA : string;
  m_SETDATA : string;
  m_lexical_cast : Q -> string;
  m_parseUnitsName : string -> h_result unit_types;
  m_unitsName : unit_types -> string;
  m_undefinedIndex : Q;
  init_state : St;
  spin_step : St -> St;
  stable : St -> bool;
  spin_budget : nat;
  time_step : F -> Q -> St -> St;
  nbox : St -> Visitor.SimpleNbox;
  readable : string -> option (St -> unitval);
  writable : string -> option (message_data -> F -> h_result F)
}.
Arguments m_GETDATA {St F} _.
Arguments m_SETDATA {St F} _.
Arguments m_lexical_cast {St F} _ _.
Arguments m_parseUnitsName {St F} _ _.
Arguments m_unitsName {St F} _ _.
Arguments m_undefinedIndex {St F} _.
Arguments init_state {St F} _.
Arguments spin_step {St F} _ _.
Arguments stable {St F} _ _.
Arguments spin_budget {St F} _.
Arguments time_step {St F} _ _ _ _.
Arguments nbox {St F} _ _.
Arguments readable {St F} _ _.
Arguments writable {St F} _ _.

Section Engine.

Context {St F : Type} (M : model St F).

(** Modelled from the spec: the configured dates and what the visitors read
    of the core (section 3, Core). *)
Record config : Type := mk_config {
  startDate : Q;
  endDate : Q;
  trackingDate : Q;
  view : Visitor.core_view
}.

(** Modelled from the spec: the lifecycle states that a live instance can be
    in (section 4.4); [Running] keeps the post-spin-up snapshot. *)
Inductive lifecycle : Type :=
  | Initialized
  | Running (post_spinup : St).

(** Modelled from the spec: the simulated state: the lifecycle state, the
    current date, the state of the components and the states retained for
    the dates landed on since the start date, latest first. *)
Record simulation : Type := mk_simulation {
  phase : lifecycle;
  currentDate : Q;
  cstate : St;
  checkpoints : list (Q * St)
}.

(** Modelled from the spec: the registered visitor, here the one behind the
    tracking report (section 3), with the dates at which it was visited and
    the number of spin-ups executed. *)
Record observers : Type := mk_observers {
  tracker : Visitor.CSVFluxPoolVisitor;
  visited : list Q;
  spinups : nat
}.

(** Modelled from the spec: the core (section 3). *)
Record Core : Type := mk_Core {
  cfg : config;
  sim : simulation;
  forcing : F;
  obs : observers;
  biomes : list string
}.

Definition with_sim (c : Core) (x : simulation) : Core :=
  {| cfg := cfg c; sim := x; forcing := forcing c; obs := obs c; biomes := biomes c |}.

Definition with_obs (c : Core) (o : observers) : Core :=
  {| cfg := cfg c; sim := sim c; forcing := forcing c; obs := o; biomes := biomes c |}.

Definition with_forcing (c : Core) (f : F) : Core :=
  {| cfg := cfg c; sim := sim c; forcing := f; obs := obs c; biomes := biomes c |}.

Definition with_biomes (c : Core) (b : list string) : Core :=
  {| cfg := cfg c; sim := sim c; forcing := forcing c; obs := obs c; biomes := b |}.

(** Modelled from the spec: a made, initialised and configured instance
    (sections 3 and 6): not yet spun up, at its start date. *)
Definition mkcore (g : config) (f : F) (b : list string) : Core :=
  {| cfg := g;
     sim := {| phase := Initialized; currentDate := startDate g;
               cstate := init_state M; checkpoints := [] |};
     forcing := f;
     obs := {| tracker := Visitor.new [] true; visited := []; spinups := 0 |};
     biomes := b |}.

(** Modelled from the spec: the visitors are notified at a date, after the
    components have stepped (section 4.4). *)
Definition observe (g : config) (in_spinup : bool) (date : Q) (s : St) (o : observers)
  : h_result observers :=
  match Visitor.notify (m_lexical_cast M) (view g) in_spinup date (nbox M s) (tracker o) with
  | Throw e => Throw e
  | Return (go, v) =>
      Return {| tracker := v;
                visited := if go then visited o ++ [date] else visited o;
                spinups := spinups o |}
  end.

(** Modelled from the spec: spin-up iterates the components until the
    stability criterion is met or the step budget is exhausted, which fails
    with SpinupDivergence (section 4.4). *)
Fixpoint spin (g : config) (budget : nat) (i : nat) (s : St) (o : observers)
  : h_result (St * observers) :=
  match budget with
  | O => Throw SpinupDivergence
  | S b =>
      let s' := spin_step M s in
      match observe g true (inject_Z (Z.of_nat i)) s' o with
      | Throw e => Throw e
      | Return o' =>
          if stable M s' then Return (s', o') else spin g b (S i) s' o'
      end
  end.

(** Modelled from the spec: a spin-up from the initial conditions; the
    instance is then [Running] with the snapshot taken (section 4.4).  A
    failure leaves the instance as it was (section 7). *)
Definition spinup (c : Core) : h_result unit * Core :=
  match spin (cfg c) (spin_budget M) 0 (init_state M) (obs c) with
  | Throw e => (Throw e, c)
  | Return (s0, o) =>
      (Return tt,
       {| cfg := cfg c;
          sim := {| phase := Running s0; currentDate := currentDate (sim c);
                    cstate := s0; checkpoints := [] |};
          forcing := forcing c;
          obs := {| tracker := tracker o; visited := visited o;
                    spinups := S (spinups o) |};
          biomes := biomes c |})
  end.

(** Modelled from the spec: the clock advances by one year at a time; at
    each landed date the components step and then the visitors are notified
    (section 4.4).  A failure leaves the instance at the last date that was
    completed (section 7). *)
Fixpoint advance (n : nat) (c : Core) : h_result unit * Core :=
  match n with
  | O => (Return tt, c)
  | S n' =>
      let d := currentDate (sim c) + 1 in
      let s' := time_step M (forcing c) d (cstate (sim c)) in
      match observe (cfg c) false d s' (obs c) with
      | Throw e => (Throw e, c)
      | Return o' =>
          advance n'
            {| cfg := cfg c;
               sim := {| phase := phase (sim c); currentDate := d; cstate := s';
                         checkpoints := (d, s') :: checkpoints (sim c) |};
               forcing := forcing c; obs := o'; biomes := biomes c |}
      end
  end.

(** The whole years from the current date up to [target]. *)
Definition years_to (target : Q) (c : Core) : nat :=
  Z.to_nat (Qfloor (target - currentDate (sim c))).

(** Modelled from the spec: [run(toDate)] advances to [toDate], or to the
    configured end date for a non-positive sentinel; the first run spins up
    before the clock starts to advance (sections 4.3 and 4.4). *)
Definition run (toDate : Q) (c : Core) : h_result unit * Core :=
  let target := if Qle_bool toDate 0 then endDate (cfg c) else toDate in
  match phase (sim c) with
  | Initialized =>
      match spinup c with
      | (Throw e, c') => (Throw e, c')
      | (Return _, c1) => advance (years_to target c1) c1
      end
  | Running _ => advance (years_to target c) c
  end.

(** The retained states at or before [date]. *)
Fixpoint rewind (date : Q) (cps : list (Q * St)) : list (Q * St) :=
  match cps with
  | [] => []
  | (d, s) :: r => if Qlt_bool date d then rewind date r else cps
  end.

(** Modelled from the spec: [reset(date)]: before the start date the instance
    returns to spin-up, which is rerun, and is left at the start date; at the
    start date, or later, the state is restored from the nearest retained
    state at or before [date], which at the start date is the post-spin-up
    snapshot, without a spin-up (section 4.4). *)
Definition reset (date : Q) (c : Core) : h_result unit * Core :=
  if Qlt_bool date (startDate (cfg c)) then
    match spinup c with
    | (Throw e, c') => (Throw e, c')
    | (Return _, c1) =>
        (Return tt,
         with_sim c1 {| phase := phase (sim c1); currentDate := startDate (cfg c);
                        cstate := cstate (sim c1); checkpoints := [] |})
    end
  else
    match phase (sim c) with
    | Initialized => (Return tt, c)
    | Running s0 =>
        match rewind date (checkpoints (sim c)) with
        | [] =>
            (Return tt,
             with_sim c {| phase := Running s0; currentDate := startDate (cfg c);
                           cstate := s0; checkpoints := [] |})
        | (d, s) :: r =>
            (Return tt,
             with_sim c {| phase := Running s0; currentDate := d;
                           cstate := s; checkpoints := (d, s) :: r |})
        end
    end.

(** The retained state for a date, if there is one. *)
Fixpoint state_on (date : Q) (cps : list (Q * St)) : option St :=
  match cps with
  | [] => None
  | (d, s) :: r => if Qeq_bool date d then Some s else state_on date r
  end.

(** Modelled from the spec: the state that a read for [date] looks at: the
    current one when no date is given or none is retained for it, else the
    one retained (sections 3 and 4.3). *)
Definition state_at (date : Q) (x : simulation) : St :=
  if Qeq_bool date (m_undefinedIndex M) then cstate x
  else match state_on date (checkpoints x) with
       | Some s => s
       | None => cstate x
       end.

(** Modelled from the spec: [sendMessage(type, capability, envelope)] finds
    the component that declares the capability for the message type, and
    fails with UnknownCapability when none does (section 4.3).  A set-message
    writes the forcing and answers the value it was given. *)
Definition sendMessage (type capability : string) (info : message_data) (c : Core)
  : h_result unitval * Core :=
  if String.eqb type (m_GETDATA M) then
    match readable M capability with
    | None => (Throw UnknownCapability, c)
    | Some h => (Return (h (state_at (md_date info) (sim c))), c)
    end
  else if String.eqb type (m_SETDATA M) then
    match writable M capability with
    | None => (Throw UnknownCapability, c)
    | Some h =>
        match h info (forcing c) with
        | Throw e => (Throw e, c)
        | Return f => (Return (md_value info), with_forcing c f)
        end
    end
  else (Throw UnknownCapability, c).

(** Modelled from the spec: the biome calls (section 4.3); renaming is
    create, copy, then delete. *)
Definition createBiome (b : string) (c : Core) : h_result unit * Core :=
  (Return tt, with_biomes c (biomes c ++ [b])).

Definition deleteBiome (b : string) (c : Core) : h_result unit * Core :=
  (Return tt, with_biomes c (List.filter (fun x => negb (String.eqb x b)) (biomes c))).

Definition renameBiome (oldname newname : string) (c : Core) : h_result unit * Core :=
  deleteBiome oldname (snd (createBiome newname c)).

(** Modelled from the spec: the tracking report is what the tracking visitor
    has written (sections 4.3 and 6). *)
Definition getTrackingData (c : Core) : list Visitor.token :=
  Visitor.csvFile (tracker (obs c)).

#[export] Instance ops : Hector.CoreOps Core := {|
  Hector.M_SETDATA := m_SETDATA M;
  Hector.undefinedIndex := m_undefinedIndex M;
  Hector.parseUnitsName := m_parseUnitsName M;
  Hector.unitsName := m_unitsName M;
  Hector.getStartDate := fun c => startDate (cfg c);
  Hector.getEndDate := fun c => endDate (cfg c);
  Hector.getTrackingDate := fun c => trackingDate (cfg c);
  Hector.getCurrentDate := fun c => currentDate (sim c);
  Hector.reset := reset;
  Hector.run := run;
  Hector.sendMessage := sendMessage;
  Hector.getTrackingData := getTrackingData;
  Hector.getBiomeList := biomes;
  Hector.createBiome := createBiome;
  Hector.deleteBiome := deleteBiome;
  Hector.renameBiome := renameBiome
|}.

(** ** The visitor never decides whether a step succeeds *)

Lemma print_pool_returns (v v' w : Visitor.CSVFluxPoolVisitor) (x : Pool.fluxpool) :
  Visitor.print_pool v x = Return w -> exists w', Visitor.print_pool v' x = Return w'.
Proof.
  unfold Visitor.print_pool.
  destruct (Pool.tracking x); [|eauto].
  destruct (Pool.value x U_PGC); [eauto | discriminate].
Qed.

Lemma visit_all_returns (k : Visitor.core_view) (c : Visitor.SimpleNbox)
  (v v' w : Visitor.CSVFluxPoolVisitor) :
  Visitor.visit_all k c v = Return w -> exists w', Visitor.visit_all k c v' = Return w'.
Proof.
  unfold Visitor.visit_all, Visitor.visit_SimpleNbox; simpl.
  destruct (negb (Visitor.outputEnabled k (Visitor.getComponentName c))); [eauto|].
  destruct (Visitor.print_pool (Visitor.visit_Core v k) (Visitor.atmos_c c)) as [v1|e] eqn:E1;
    [|discriminate].
  destruct (print_pool_returns _ (Visitor.visit_Core v' k) _ _ E1) as [v1' E1'].
  rewrite E1'. intros E2.
  destruct (print_pool_returns _ v1' _ _ E2) as [v2' E2']. eauto.
Qed.

Lemma observe_returns (g : config) (sp : bool) (d : Q) (x : St) (o o' o1 : observers) :
  observe g sp d x o = Return o1 -> exists o1', observe g sp d x o' = Return o1'.
Proof.
  unfold observe, Visitor.notify, Visitor.shouldVisit.
  destruct sp; simpl; [eauto|].
  match goal with |- context [Visitor.visit_all ?k ?c ?v] =>
    destruct (Visitor.visit_all k c v) as [w|e] eqn:E end; [|discriminate].
  intros _.
  match goal with |- context [Visitor.visit_all ?k ?c ?v'] =>
    destruct (visit_all_returns k c _ v' _ E) as [w' E'] end.
  rewrite E'. eauto.
Qed.

Lemma observe_spinups (g : config) (sp : bool) (d : Q) (x : St) (o o1 : observers) :
  observe g sp d x o = Return o1 -> spinups o1 = spinups o.
Proof.
  unfold observe.
  destruct (Visitor.notify _ _ _ _ _ _) as [[go v]|e]; [|discriminate].
  intros H. injection H as <-. reflexivity.
Qed.

Lemma observe_in_spinup (g : config) (d : Q) (x : St) (o : observers) :
  exists o1, observe g true d x o = Return o1 /\ visited o1 = visited o.
Proof. unfold observe, Visitor.notify, Visitor.shouldVisit; simpl. eauto. Qed.

(** ** Spin-up *)

(** The states of a spin-up, without the visitors. *)
Fixpoint settle (budget : nat) (x : St) : option St :=
  match budget with
  | O => None
  | S b =>
      let x' := spin_step M x in
      if stable M x' then Some x' else settle b x'
  end.

Lemma spin_settle (g : config) (budget i : nat) (x : St) (o : observers) :
  match settle budget x with
  | Some x' => exists o', spin g budget i x o = Return (x', o') /\
                          spinups o' = spinups o /\ visited o' = visited o
  | None => spin g budget i x o = Throw SpinupDivergence
  end.
Proof.
  revert i x o. induction budget as [|b IH]; intros i x o; cbn [settle spin];
    [reflexivity|].
  destruct (observe_in_spinup g (inject_Z (Z.of_nat i)) (spin_step M x) o) as (o1 & E1 & V1).
  rewrite E1. pose proof (observe_spinups _ _ _ _ _ _ E1) as Hs.
  destruct (stable M (spin_step M x)).
  - exists o1. auto.
  - specialize (IH (S i) (spin_step M x) o1).
    destruct (settle b (spin_step M x)) as [x'|].
    + destruct IH as (o' & E & Hs' & Hv'). exists o'. split; [exact E|]. split; congruence.
    + exact IH.
Qed.

(** What a spin-up that converges to [x0] makes of a core. *)
Lemma spinup_settled (c : Core) (x0 : St) :
  settle (spin_budget M) (init_state M) = Some x0 ->
  exists c1, spinup c = (Return tt, c1) /\
             cfg c1 = cfg c /\ forcing c1 = forcing c /\ biomes c1 = biomes c /\
             sim c1 = {| phase := Running x0; currentDate := currentDate (sim c);
                         cstate := x0; checkpoints := [] |} /\
             spinups (obs c1) = S (spinups (obs c)) /\
             visited (obs c1) = visited (obs c).
Proof.
  intros Hx. unfold spinup.
  pose proof (spin_settle (cfg c) (spin_budget M) 0 (init_state M) (obs c)) as H.
  rewrite Hx in H. destruct H as (o' & E & Hs & Hv). rewrite E.
  eexists. split; [reflexivity|]. simpl. repeat split; congruence.
Qed.

Lemma spinup_diverged (c : Core) :
  settle (spin_budget M) (init_state M) = None ->
  spinup c = (Throw SpinupDivergence, c).
Proof.
  intros Hx. unfold spinup.
  pose proof (spin_settle (cfg c) (spin_budget M) 0 (init_state M) (obs c)) as H.
  rewrite Hx in H. rewrite H. reflexivity.
Qed.

(** ** Advancing the clock *)

(** Two cores that differ in what their observers hold at most. *)
Definition same_run (c c' : Core) : Prop :=
  cfg c = cfg c' /\ sim c = sim c' /\ forcing c = forcing c'.

Lemma advance_same (n : nat) (c c' c1 : Core) :
  same_run c c' ->
  advance n c = (Return tt, c1) ->
  exists c1', advance n c' = (Return tt, c1') /\ same_run c1 c1'.
Proof.
  revert c c' c1. induction n as [|n IH]; intros c c' c1 (Hg & Hs & Hf) H; simpl in *.
  - injection H as <-. exists c'. repeat split; assumption.
  - rewrite <- Hg, <- Hs, <- Hf.
    destruct (observe (cfg c) false (currentDate (sim c) + 1)
                (time_step M (forcing c) (currentDate (sim c) + 1) (cstate (sim c))) (obs c))
      as [o1|e] eqn:E; [|discriminate].
    destruct (observe_returns _ _ _ _ _ (obs c') _ E) as [o1' E']. rewrite E'.
    eapply IH; [|exact H]. repeat split; simpl; congruence.
Qed.

Lemma advance_keeps (n : nat) (c c1 : Core) (r : h_result unit) :
  advance n c = (r, c1) ->
  cfg c1 = cfg c /\ forcing c1 = forcing c /\ biomes c1 = biomes c /\
  phase (sim c1) = phase (sim c) /\
  spinups (obs c1) = spinups (obs c) /\
  currentDate (sim c) <= currentDate (sim c1) /\
  exists new, checkpoints (sim c1) = new ++ checkpoints (sim c) /\
              Forall (fun cp => currentDate (sim c) < fst cp) new.
Proof.
  revert c. induction n as [|n IH]; intros c H; simpl in H.
  - injection H as <- <-. repeat split; try reflexivity; try apply Qle_refl.
    exists []. split; [reflexivity | constructor].
  - destruct (observe (cfg c) false (currentDate (sim c) + 1)
                (time_step M (forcing c) (currentDate (sim c) + 1) (cstate (sim c))) (obs c))
      as [o1|e] eqn:E.
    + apply IH in H. simpl in H.
      destruct H as (Hg & Hf & Hb & Hp & Hsp & Hd & new & Hc & Hnew).
      pose proof (observe_spinups _ _ _ _ _ _ E) as Hso.
      repeat split; try congruence; try lra.
      exists (new ++ [(currentDate (sim c) + 1,
                       time_step M (forcing c) (currentDate (sim c) + 1) (cstate (sim c)))]).
      split; [rewrite Hc, <- app_assoc; reflexivity|].
      apply Forall_app. split.
      * eapply Forall_impl; [exact Hnew|]. intros cp Hcp. simpl in Hcp. lra.
      * constructor; [simpl; lra | constructor].
    + injection H as <- <-. repeat split; try reflexivity; try apply Qle_refl.
      exists []. split; [reflexivity | constructor].
Qed.

(** The [n] dates after [d], a year apart. *)
Fixpoint years (d : Q) (n : nat) : list Q :=
  match n with
  | O => []
  | S n' => (d + 1) :: years (d + 1) n'
  end.

Lemma observe_outside_spinup (g : config) (d : Q) (x : St) (o o1 : observers) :
  observe g false d x o = Return o1 -> visited o1 = visited o ++ [d].
Proof.
  unfold observe, Visitor.notify, Visitor.shouldVisit; simpl.
  destruct (Visitor.visit_all _ _ _); [|discriminate].
  intros H. injection H as <-. reflexivity.
Qed.

(** An advance that returns has visited every date it landed on, once, in
    order, and has retained a state for each. *)
Lemma advance_visited (n : nat) (c c1 : Core) :
  advance n c = (Return tt, c1) ->
  visited (obs c1) = visited (obs c) ++ years (currentDate (sim c)) n /\
  map fst (checkpoints (sim c1))
  = rev (years (currentDate (sim c)) n) ++ map fst (checkpoints (sim c)).
Proof.
  revert c. induction n as [|n IH]; intros c H; simpl in H.
  - injection H as <-. simpl. rewrite app_nil_r. split; reflexivity.
  - destruct (observe (cfg c) false (currentDate (sim c) + 1)
                (time_step M (forcing c) (currentDate (sim c) + 1) (cstate (sim c))) (obs c))
      as [o1|e] eqn:E; [|discriminate].
    apply IH in H. simpl in H. destruct H as [Hv Hc].
    rewrite (observe_outside_spinup _ _ _ _ _ E) in Hv.
    simpl. split.
    + rewrite Hv, <- app_assoc. reflexivity.
    + rewrite Hc, <- app_assoc. reflexivity.
Qed.

(** On a fresh core, a run that returns has visited exactly the dates landed
    on after spin-up, once each and in order: none of the spin-up steps. *)
Lemma run_visits_landed_dates (g : config) (f : F) (b : list string) (toDate : Q) (c1 : Core) :
  run toDate (mkcore g f b) = (Return tt, c1) ->
  visited (obs c1) = rev (map fst (checkpoints (sim c1))).
Proof.
  intros Hrun. unfold run in Hrun. simpl in Hrun.
  destruct (settle (spin_budget M) (init_state M)) as [x0|] eqn:Hx.
  2:{ rewrite (spinup_diverged _ Hx) in Hrun. discriminate. }
  destruct (spinup_settled (mkcore g f b) x0 Hx)
    as (c0 & E0 & _ & _ & _ & Hs0 & _ & Hv0).
  rewrite E0 in Hrun. apply advance_visited in Hrun. destruct Hrun as [Hv Hc].
  rewrite Hv, Hc, Hv0, Hs0. simpl.
  rewrite app_nil_r, rev_involutive. reflexivity.
Qed.

Lemma rewind_later (date : Q) (new old : list (Q * St)) :
  Forall (fun cp => date < fst cp) new -> rewind date (new ++ old) = rewind date old.
Proof.
  induction 1 as [|[d x] new Hd _ IH]; simpl; [reflexivity|].
  simpl in Hd. rewrite (Qlt_bool_true _ _ Hd). exact IH.
Qed.

Lemma rewind_suffix (date : Q) (cps : list (Q * St)) :
  exists dropped, cps = dropped ++ rewind date cps.
Proof.
  induction cps as [|[d x] r [dropped IH]]; simpl.
  - exists []. reflexivity.
  - destruct (Qlt_bool date d).
    + exists ((d, x) :: dropped). simpl. rewrite <- IH. reflexivity.
    + exists []. reflexivity.
Qed.

(** ** What every reachable core keeps *)

(** The current date is not before the start date, and every retained state
    is for a date after it. *)
Definition wf (c : Core) : Prop :=
  startDate (cfg c) <= currentDate (sim c) /\
  Forall (fun cp => startDate (cfg c) < fst cp) (checkpoints (sim c)).

Lemma wf_mkcore (g : config) (f : F) (b : list string) : wf (mkcore g f b).
Proof. split; simpl; [apply Qle_refl | constructor]. Qed.

Lemma spinup_keeps (c c1 : Core) (r : h_result unit) :
  spinup c = (r, c1) ->
  cfg c1 = cfg c /\ currentDate (sim c1) = currentDate (sim c) /\
  (r = Return tt -> checkpoints (sim c1) = []) /\
  (r <> Return tt -> c1 = c).
Proof.
  unfold spinup. destruct (spin _ _ _ _ _) as [[x0 o]|e]; intros H; injection H as <- <-;
    simpl; repeat split; congruence.
Qed.

Lemma wf_advance (n : nat) (c c1 : Core) (r : h_result unit) :
  advance n c = (r, c1) -> wf c -> wf c1.
Proof.
  intros H [Hd Hc]. apply advance_keeps in H.
  destruct H as (Hg & _ & _ & _ & _ & Hle & new & Hnew & Hlater).
  unfold wf. rewrite Hg, Hnew. split; [lra|].
  apply Forall_app. split; [|exact Hc].
  eapply Forall_impl; [exact Hlater|]. intros cp Hcp. simpl in Hcp. lra.
Qed.

Lemma wf_run (toDate : Q) (c c1 : Core) (r : h_result unit) :
  run toDate c = (r, c1) -> wf c -> wf c1.
Proof.
  unfold run. intros H Hwf. destruct (phase (sim c)).
  - destruct (spinup c) as [[[]|e] c0] eqn:E.
    + apply spinup_keeps in E. destruct E as (Hg & Hd & Hc & _).
      eapply wf_advance; [exact H|]. destruct Hwf as [Hle _].
      unfold wf. rewrite Hg, Hd, (Hc eq_refl). split; [exact Hle | constructor].
    + apply spinup_keeps in E. destruct E as (_ & _ & _ & Hsame).
      injection H as <- <-. rewrite Hsame by discriminate. exact Hwf.
  - eapply wf_advance; eauto.
Qed.

Lemma wf_reset (date : Q) (c c1 : Core) (r : h_result unit) :
  reset date c = (r, c1) -> wf c -> wf c1.
Proof.
  unfold reset. intros H Hwf. destruct (Qlt_bool date (startDate (cfg c))).
  - destruct (spinup c) as [[[]|e] c0] eqn:E.
    + apply spinup_keeps in E. destruct E as (Hg & _).
      injection H as <- <-. unfold wf; simpl. rewrite Hg.
      split; [apply Qle_refl | constructor].
    + apply spinup_keeps in E. destruct E as (_ & _ & _ & Hsame).
      injection H as <- <-. rewrite Hsame by discriminate. exact Hwf.
  - destruct (phase (sim c)) as [|x0].
    + injection H as <- <-. exact Hwf.
    + destruct Hwf as [Hle Hc].
      destruct (rewind_suffix date (checkpoints (sim c))) as [dropped Hd].
      rewrite Hd in Hc. apply Forall_app in Hc as [_ Hc].
      destruct (rewind date (checkpoints (sim c))) as [|[d x] rest];
        injection H as <- <-; unfold wf; simpl.
      * split; [apply Qle_refl | constructor].
      * split; [|exact Hc]. apply Forall_cons in Hc as [Hdx _]. simpl in Hdx. lra.
Qed.

Lemma sendMessage_keeps (type capability : string) (info : message_data) (c : Core) :
  cfg (snd (sendMessage type capability info c)) = cfg c /\
  sim (snd (sendMessage type capability info c)) = sim c /\
  spinups (obs (snd (sendMessage type capability info c))) = spinups (obs c).
Proof.
  unfold sendMessage.
  destruct (String.eqb type (m_GETDATA M)).
  - destruct (readable M capability); auto.
  - destruct (String.eqb type (m_SETDATA M)); [|auto].
    destruct (writable M capability) as [h|]; [|auto].
    destruct (h info (forcing c)); auto.
Qed.

Lemma run_keeps (toDate : Q) (c : Core) :
  cfg (snd (run toDate c)) = cfg c /\
  currentDate (sim c) <= currentDate (sim (snd (run toDate c))).
Proof.
  unfold run. destruct (phase (sim c)).
  - destruct (spinup c) as [[[]|e] c0] eqn:E.
    + apply spinup_keeps in E. destruct E as (Hg & Hd & _).
      match goal with |- context [advance ?n c0] =>
        destruct (advance n c0) as [r c1] eqn:Ea end.
      apply advance_keeps in Ea. destruct Ea as (Hg1 & _ & _ & _ & _ & Hle & _).
      simpl. split; [congruence | rewrite <- Hd; exact Hle].
    + apply spinup_keeps in E. destruct E as (_ & _ & _ & Hsame).
      simpl. rewrite Hsame by discriminate. split; [reflexivity | apply Qle_refl].
  - match goal with |- context [advance ?n c] =>
      destruct (advance n c) as [r c1] eqn:Ea end.
    apply advance_keeps in Ea. destruct Ea as (Hg1 & _ & _ & _ & _ & Hle & _).
    simpl. split; [congruence | exact Hle].
Qed.

(** ** Determinism under reset *)

(** C4. A freshly made core is run to a date (the configured end date for a
    non-positive argument) and the run returns.  Then a reset to the start date
    (or to a date before it, which reruns the spin-up) returns, the same run
    after it returns, and the simulated state is the one of the first run: the
    same current date, the same component state, the same state retained for
    every date; so every read answers the same at every date.  The reset to the
    start date itself executes no spin-up. *)
Theorem rerun_after_reset_reproduces
  (g : config) (f : F) (b : list string) (toDate resetDate : Q) (c1 : Core) :
  run toDate (mkcore g f b) = (Return tt, c1) ->
  resetDate <= startDate g ->
  exists c2 c3 : Core,
    reset resetDate c1 = (Return tt, c2) /\
    run toDate c2 = (Return tt, c3) /\
    sim c3 = sim c1 /\
    (forall (capability : string) (info : message_data),
        fst (sendMessage (m_GETDATA M) capability info c3)
        = fst (sendMessage (m_GETDATA M) capability info c1)) /\
    (resetDate == startDate g -> spinups (obs c3) = spinups (obs c1)).
Proof.
  intros Hrun Hd. unfold run in Hrun. simpl in Hrun.
  destruct (settle (spin_budget M) (init_state M)) as [x0|] eqn:Hx.
  2:{ rewrite (spinup_diverged _ Hx) in Hrun. discriminate. }
  destruct (spinup_settled (mkcore g f b) x0 Hx)
    as (c0 & E0 & Hg0 & Hf0 & _ & Hs0 & _ & _).
  rewrite E0 in Hrun. simpl in Hg0, Hf0, Hs0.
  pose proof (advance_keeps _ _ _ _ Hrun) as (Hg1 & Hf1 & _ & Hp1 & _ & _ & new & Hc1 & Hnew).
  rewrite Hs0 in Hp1, Hc1, Hnew. simpl in Hp1, Hc1, Hnew.
  assert (E2 : exists c2, reset resetDate c1 = (Return tt, c2) /\
                          cfg c2 = g /\ forcing c2 = forcing c1 /\
                          sim c2 = {| phase := Running x0; currentDate := startDate g;
                                      cstate := x0; checkpoints := [] |} /\
                          (resetDate == startDate g -> spinups (obs c2) = spinups (obs c1))).
  { unfold reset. rewrite Hg1, Hg0.
    destruct (Qlt_le_dec resetDate (startDate g)) as [Hlt|Hge].
    - rewrite (Qlt_bool_true _ _ Hlt).
      destruct (spinup_settled c1 x0 Hx) as (c2 & E2 & Hg2 & Hf2 & _ & Hs2 & _ & _).
      rewrite E2. eexists. split; [reflexivity|]. simpl.
      rewrite Hs2. simpl. repeat split; try congruence.
      intros Heq. lra.
    - rewrite (Qlt_bool_false _ _ Hge). rewrite Hp1, Hc1.
      rewrite rewind_later
        by (eapply Forall_impl; [exact Hnew|]; intros cp Hcp; simpl in Hcp; lra).
      simpl. eexists. split; [reflexivity|]. simpl. repeat split; congruence. }
  destruct E2 as (c2 & E2 & Hg2 & Hf2 & Hs2 & Hsp2).
  assert (Hsame : same_run c0 c2).
  { unfold same_run. rewrite Hs0, Hs2. repeat split; congruence. }
  assert (Hyears : forall t, years_to t c2 = years_to t c0).
  { intros t. unfold years_to. rewrite Hs0, Hs2. reflexivity. }
  destruct (advance_same _ c0 c2 c1 Hsame Hrun) as (c3 & E3 & _ & Hs3 & _).
  exists c2, c3. split; [exact E2|]. split.
  { unfold run. rewrite Hs2. cbn [phase]. rewrite Hg2, Hyears. exact E3. }
  split; [congruence|]. split.
  - intros capability info. unfold sendMessage. rewrite String.eqb_refl.
    destruct (readable M capability); simpl; [|reflexivity].
    rewrite <- Hs3. reflexivity.
  - intros Heq.
    pose proof (advance_keeps _ _ _ _ E3) as (_ & _ & _ & _ & Hsp & _).
    pose proof (advance_keeps _ _ _ _ Hrun) as (_ & _ & _ & _ & Hsp1 & _).
    rewrite Hsp, (Hsp2 Heq). reflexivity.
Qed.

(** ** The bindings over this engine *)

(** C5 (as amended). On a handle whose clean flag is set, every operation
    other than [reset] leaves the flag set and the current date of the core
    at or after what it was; in particular a [run] with a positive target
    date earlier than the current date stops with the session, and so the
    clock, untouched.  On a handle whose clean flag is not set, [run] first
    resets the core to the recorded reset date and then checks the target
    against the date that this reset has left. *)
Theorem clock_never_regresses_on_clean_handle
  (s : Rcpp.session Core) (c : Core) (o : Rcpp.r_op) :
  Rcpp.live s c ->
  (Rcpp.clean (Rcpp.handle s) = true ->
   Rcpp.is_reset o = false ->
   Rcpp.clean (Rcpp.handle (snd (Rcpp.exec o s))) = true /\
   (forall c', Rcpp.live (snd (Rcpp.exec o s)) c' ->
               currentDate (sim c) <= currentDate (sim c')) /\
   (forall t, o = Rcpp.OpRun t -> 0 < t -> t < currentDate (sim c) ->
              Rcpp.exec o s = (Rcpp.Stop (Rcpp.RunDatePrior t (currentDate (sim c))), s))) /\
  (Rcpp.clean (Rcpp.handle s) = false ->
   forall t : Q,
     let rd := Rcpp.reset_date (Rcpp.handle s) in
     let s1 := Rcpp.called (Rcpp.noticed s) [Rcpp.CallReset rd] (snd (reset rd c)) in
     match fst (reset rd c) with
     | Return _ => Rcpp.run t s = Rcpp.run_checked t (Rcpp.cleaned s1)
     | Throw e => Rcpp.run t s = (Rcpp.Stop (Rcpp.ResetError rd e), s1)
     end).
Proof.
  intros E. split.
  - intros Hclean Ho.
    destruct (Rcpp.exec_keeps (fun c' => currentDate (sim c) <= currentDate (sim c')) s c o)
      as [Hcl Hdate]; try assumption.
    + intros t c0 H0. pose proof (run_keeps t c0) as [_ Hle]. simpl. lra.
    + intros m cap info c0 H0. pose proof (sendMessage_keeps m cap info c0) as (_ & Hs & _).
      simpl. rewrite Hs. exact H0.
    + intros b0 c0 H0. exact H0.
    + intros b0 c0 H0. exact H0.
    + intros a b0 c0 H0. exact H0.
    + apply Qle_refl.
    + split; [exact Hcl|]. split; [exact Hdate|].
      intros t -> Ht Hlt. simpl. unfold Rcpp.run.
      erewrite Rcpp.bind_Ok by (apply Rcpp.auto_reset_clean, Hclean).
      rewrite (Rcpp.run_checked_live s c) by exact E. simpl.
      rewrite (Qlt_bool_true _ _ Ht), (Qlt_bool_true _ _ Hlt). reflexivity.
  - intros Hc t. exact (Rcpp.run_not_clean s c t E Hc).
Qed.


End Engine.

End SpecCore.

(* ===================================================================== *)
(** * A small instance, and the properties on it *)
(* ===================================================================== *)

Module Example.
Import SpecCore.

(** One carbon pool that gains the forcing every year; spin-up lowers it by
    one per iteration until it is at most 1. *)
Definition toy : model Q Q :=
  {| m_GETDATA := "getData";
     m_SETDATA := "setData";
     m_lexical_cast := fun _ => "date";
     m_parseUnitsName :=
       fun u => if String.eqb u "PgC" then Return U_PGC else Throw UnknownUnit;
     m_unitsName := fun u => match u with U_PGC => "PgC" | _ => "(undefined)" end;
     m_undefinedIndex := - (1);
     init_state := 3;
     spin_step := fun x => x - 1;
     stable := fun x => Qle_bool x 1;
     spin_budget := 10;
     time_step := fun f _ x => x + f;
     nbox := fun x => Visitor.mk_SimpleNbox "simpleNbox"
                        (Pool.create "atmos_c" x U_PGC true)
                        (Pool.create "earth_c" 0 U_PGC false);
     readable := fun cap => if String.eqb cap "atmospheric_CO2"
                            then Some (fun x => mk_unitval x U_PGC) else None;
     writable := fun cap => if String.eqb cap "ffi_emissions"
                            then Some (fun info _ => Return (uv_magnitude (md_value info)))
                            else None |}.

Definition toy_ops : Hector.CoreOps (@Core Q Q) := ops toy.
#[local] Existing Instance toy_ops.

Definition config0 : config := mk_config 1750 1760 1750 Visitor.core_on.

Definition core0 : @Core Q Q := mkcore toy config0 2 ["global"].

(** The handle as [newcore_impl] leaves it: clean, with reset date 0. *)
Definition env0 : Rcpp.Environment :=
  Rcpp.mk_Environment 1 1750 1760 1750 "hector.ini" "toy" true 0.

Definition session0 : Rcpp.session (@Core Q Q) :=
  Rcpp.mk_session env0 {[ 1%Z := core0 ]} [] [].

(** The session after a run to 1755, and its core. *)
Definition session1755 : Rcpp.session (@Core Q Q) :=
  Eval vm_compute in snd (Rcpp.run 1755 session0).

Definition core1755 : @Core Q Q :=
  Eval vm_compute in snd (run toy 1755 core0).

(** The same session with a reset owed to [rd]: the handle is not clean. *)
Definition owing (rd : Q) : Rcpp.session (@Core Q Q) :=
  Rcpp.mk_session (Rcpp.mk_Environment 1 1750 1760 1750 "hector.ini" "toy" false rd)
                  (Rcpp.registry session1755) (Rcpp.calls session1755)
                  (Rcpp.console session1755).

Example run_to_1755 :
  Rcpp.run 1755 session0 = (Rcpp.Ok tt, session1755) /\
  Rcpp.live session1755 core1755 /\
  fst (Rcpp.getdate session1755) = Rcpp.Ok 1755 /\
  visited (obs core1755) = [1751; 1752; 1753; 1754; 1755].
Proof. vm_compute. repeat split. Qed.

(** The rerun of [main-api]: after [reset(0)], which reruns the spin-up, the
    run to 1755 gives the simulated state of the first run again. *)
Lemma rerun_after_reset_reproduces_witness :
  exists c2 c3 : @Core Q Q,
    reset toy 0 core1755 = (Return tt, c2) /\
    run toy 1755 c2 = (Return tt, c3) /\
    sim c3 = sim core1755 /\
    (forall (capability : string) (info : message_data),
        fst (sendMessage toy "getData" capability info c3)
        = fst (sendMessage toy "getData" capability info core1755)) /\
    (0 == 1750 -> spinups (obs c3) = spinups (obs core1755)).
Proof.
  apply (rerun_after_reset_reproduces toy config0 2 ["global"] 1755 0 core1755).
  - vm_compute. reflexivity.
  - vm_compute. discriminate.
Defined.

Example rerun_after_reset_to_start :
  exists c2 c3 : @Core Q Q,
    reset toy 1750 core1755 = (Return tt, c2) /\
    run toy 1755 c2 = (Return tt, c3) /\
    sim c3 = sim core1755 /\
    spinups (obs c3) = 1%nat.
Proof. do 2 eexists. vm_compute. repeat split. Qed.

Lemma clock_never_regresses_on_clean_handle_witness :
  (Rcpp.clean (Rcpp.handle (snd (Rcpp.exec (Rcpp.OpRun 1753) session1755))) = true /\
   (forall c', Rcpp.live (snd (Rcpp.exec (Rcpp.OpRun 1753) session1755)) c' ->
               currentDate (sim core1755) <= currentDate (sim c')) /\
   (forall t, Rcpp.OpRun 1753 = Rcpp.OpRun t -> 0 < t -> t < currentDate (sim core1755) ->
              Rcpp.exec (Rcpp.OpRun 1753) session1755
              = (Rcpp.Stop (Rcpp.RunDatePrior t (currentDate (sim core1755))), session1755))) /\
  (forall t : Q,
     Rcpp.run t (owing 1752)
     = Rcpp.run_checked t
         (Rcpp.cleaned (Rcpp.called (Rcpp.noticed (owing 1752)) [Rcpp.CallReset 1752]
                                    (snd (reset toy 1752 core1755))))).
Proof.
  split.
  - refine (proj1 (clock_never_regresses_on_clean_handle toy session1755 core1755
                     (Rcpp.OpRun 1753) _) _ _).
    + vm_compute. reflexivity.
    + reflexivity.
    + reflexivity.
  - intros t.
    refine (proj2 (clock_never_regresses_on_clean_handle toy (owing 1752) core1755
                     (Rcpp.OpRun t) _) _ t).
    + vm_compute. reflexivity.
    + reflexivity.
Defined.

(** C5 does not hold as the specification states it.  The core stands at
    1755 and the handle owes a reset to 1752.  A [run] to 1753, a positive
    date earlier than the current one, returns and leaves the clock at 1753;
    a [run] to 1751 stops with the run-date error, yet leaves the clock at
    1752. *)
Lemma run_rewinds_clock_when_reset_owed :
  fst (Rcpp.getdate (owing 1752)) = Rcpp.Ok 1755 /\
  fst (Rcpp.run 1753 (owing 1752)) = Rcpp.Ok tt /\
  fst (Rcpp.getdate (snd (Rcpp.run 1753 (owing 1752)))) = Rcpp.Ok 1753 /\
  fst (Rcpp.run 1751 (owing 1752)) = Rcpp.Stop (Rcpp.RunDatePrior 1751 1752) /\
  fst (Rcpp.getdate (snd (Rcpp.run 1751 (owing 1752)))) = Rcpp.Ok 1752.
Proof. vm_compute. repeat split. Qed.






Lemma run_resets_when_not_clean_witness :
  let s := owing 1752 in
  let s1 := Rcpp.called (Rcpp.noticed s) [Rcpp.CallReset 1752]
                        (snd (Hector.reset 1752 core1755)) in
  (Rcpp.clean (Rcpp.handle s) = false ->
   Rcpp.calls s1 = Rcpp.calls s ++ [Rcpp.CallReset 1752] /\
   Rcpp.clean (Rcpp.handle (Rcpp.cleaned s1)) = true /\
   match fst (Hector.reset 1752 core1755) with
   | Return _ => Rcpp.run 1753 s = Rcpp.run_checked 1753 (Rcpp.cleaned s1)
   | Throw e => Rcpp.run 1753 s = (Rcpp.Stop (Rcpp.ResetError 1752 e), s1)
   end) /\
  (Rcpp.clean (Rcpp.handle s) = true -> Rcpp.run 1753 s = Rcpp.run_checked 1753 s) /\
  (forall s0 : Rcpp.session (@Core Q Q),
      Rcpp.calls (snd (Rcpp.run_checked 1753 s0)) = Rcpp.calls s0 \/
      Rcpp.calls (snd (Rcpp.run_checked 1753 s0)) = Rcpp.calls s0 ++ [Rcpp.CallRun 1753]).
Proof.
  apply (Rcpp.run_resets_when_not_clean (owing 1752) core1755 1753).
  vm_compute. reflexivity.
Defined.

Example run_on_owing_handle :
  Rcpp.calls (snd (Rcpp.run 1753 (owing 1752)))
  = [Rcpp.CallRun 1755; Rcpp.CallReset 1752; Rcpp.CallRun 1753] /\
  Rcpp.clean (Rcpp.handle (snd (Rcpp.run 1753 (owing 1752)))) = true /\
  Rcpp.calls (snd (Rcpp.run 1756 session1755)) = [Rcpp.CallRun 1755; Rcpp.CallRun 1756].
Proof. vm_compute. repeat split. Qed.

Example sendmessage_bad_unit :
  fst (Rcpp.sendmessage "setData" "ffi_emissions" [Some 1752; Some 1753] [Some 3]
         "bogus" session1755)
  = Rcpp.Stop (Rcpp.InvalidUnitType "bogus" "ffi_emissions") /\
  fst (Rcpp.sendmessage "getData" "atmospheric_CO2" [Some 1752; Some 1753] [None]
         "bogus" session1755)
  = Rcpp.Ok (Rcpp.mk_DataFrame [Some 1752; Some 1753] "atmospheric_CO2" [5; 7] ["PgC"; "PgC"]) /\
  Rcpp.calls (snd (Rcpp.sendmessage "getData" "atmospheric_CO2" [Some 1752; Some 1753] [None]
                     "bogus" session1755))
  = [Rcpp.CallRun 1755;
     Rcpp.CallSendMessage "getData" "atmospheric_CO2"
       (mk_message_data 1752 (mk_unitval 0 U_UNDEFINED));
     Rcpp.CallSendMessage "getData" "atmospheric_CO2"
       (mk_message_data 1753 (mk_unitval 0 U_UNDEFINED))].
Proof. vm_compute. repeat split. Qed.


Example sendmessage_single_value :
  fst (Rcpp.sendmessage "setData" "ffi_emissions" [Some 1752; Some 1753; None]
         [Some 3] "PgC" session1755)
  = Rcpp.Ok (Rcpp.mk_DataFrame [Some 1752; Some 1753; None] "ffi_emissions"
               [3; 3; 3] ["PgC"; "PgC"; "PgC"]) /\
  Rcpp.calls (snd (Rcpp.sendmessage "setData" "ffi_emissions" [Some 1752; Some 1753; None]
                     [Some 3] "PgC" session1755))
  = [Rcpp.CallRun 1755;
     Rcpp.CallSendMessage "setData" "ffi_emissions"
       (mk_message_data 1752 (mk_unitval 3 U_PGC));
     Rcpp.CallSendMessage "setData" "ffi_emissions"
       (mk_message_data 1753 (mk_unitval 3 U_PGC));
     Rcpp.CallSendMessage "setData" "ffi_emissions"
       (mk_message_data (- (1)) (mk_unitval 3 U_PGC))].
Proof. vm_compute. repeat split. Qed.

(** After [shutdown], a failed [reset] and a failed [getdate], a [run] fails
    as well, and the handle, the registry and the calls are as they were. *)
Lemma operations_fail_after_shutdown_witness :
  let s1 := snd (Rcpp.shutdown session1755) in
  let s2 := Rcpp.exec_all [Rcpp.OpReset 1750; Rcpp.OpGetdate] s1 in
  fst (Rcpp.exec (Rcpp.OpRun 1756) s2) = Rcpp.Stop Rcpp.InvalidHcore /\
  Rcpp.getcore 1 (snd (Rcpp.exec (Rcpp.OpRun 1756) s2)) = None /\
  Rcpp.handle (snd (Rcpp.exec (Rcpp.OpRun 1756) s2)) = Rcpp.handle session1755 /\
  Rcpp.registry (snd (Rcpp.exec (Rcpp.OpRun 1756) s2)) = Rcpp.registry s1 /\
  Rcpp.calls (snd (Rcpp.exec (Rcpp.OpRun 1756) s2)) = Rcpp.calls session1755.
Proof.
  exact (Rcpp.operations_fail_after_shutdown session1755
           [Rcpp.OpReset 1750; Rcpp.OpGetdate] (Rcpp.OpRun 1756)).
Defined.

End Example.

(* ===================================================================== *)
(** * More on the R bindings: what the wrappers do to the handle, to the
      session and to the core *)
(* ===================================================================== *)

Module Bindings.
Import Rcpp.

Section Facts.

Context {Core : Type} `{HC : Hector.CoreOps Core}.

#[local] Notation "x <- m ;; k" := (bind m (fun x => k))
  (at level 200, m at level 99, right associativity).
#[local] Notation "m ;;; k" := (bind m (fun _ => k))
  (at level 200, right associativity).

(** A handle as it was, or with its clean flag set. *)
Definition at_most_cleaned (h h' : Environment) : Prop :=
  h' = h \/ h' = set_clean h true.

Lemma at_most_cleaned_refl (h : Environment) : at_most_cleaned h h.
Proof. left. reflexivity. Qed.

Lemma at_most_cleaned_trans (h1 h2 h3 : Environment) :
  at_most_cleaned h1 h2 -> at_most_cleaned h2 h3 -> at_most_cleaned h1 h3.
Proof.
  intros [->| ->] [->| ->]; unfold at_most_cleaned; auto.
Qed.

Lemma handle_reset (s : session Core) (date : Q) :
  at_most_cleaned (handle s) (handle (snd (reset date s))).
Proof.
  destruct (registry s !! coreidx (handle s)) as [c|] eqn:E.
  - rewrite (reset_live s c date E).
    destruct (fst (Hector.reset date c)); simpl; [|left; reflexivity].
    destruct (Qle_bool date (reset_date (handle s))); [right | left]; reflexivity.
  - rewrite reset_dead by exact E. left. reflexivity.
Qed.

Lemma handle_run_checked (s : session Core) (runtodate : Q) :
  handle (snd (run_checked runtodate s)) = handle s.
Proof.
  destruct (registry s !! coreidx (handle s)) as [c|] eqn:E.
  - rewrite (run_checked_live s c runtodate E).
    destruct (Qlt_bool 0 runtodate && Qlt_bool runtodate (Hector.getCurrentDate c));
      reflexivity.
  - rewrite run_checked_dead by exact E. reflexivity.
Qed.

Lemma handle_run (s : session Core) (runtodate : Q) :
  at_most_cleaned (handle s) (handle (snd (run runtodate s))).
Proof.
  unfold run. destruct (clean (handle s)) eqn:Hc.
  - erewrite bind_Ok by (apply auto_reset_clean, Hc).
    rewrite handle_run_checked. left. reflexivity.
  - pose proof (auto_reset_dirty s Hc) as Ha.
    pose proof (handle_reset (noticed s) (reset_date (handle s))) as Hr.
    rewrite <- Ha in Hr. change (handle (noticed s)) with (handle s) in Hr.
    destruct (auto_reset s) as [[[]|e] s'] eqn:Es.
    + erewrite bind_Ok by exact Es. rewrite handle_run_checked. exact Hr.
    + erewrite bind_Stop by exact Es. exact Hr.
Qed.

Lemma query_snd {A : Type} (f : Core -> A) (s : session Core) :
  snd ((hcore <- gethcore ;; read hcore f) s) = s.
Proof.
  destruct (registry s !! coreidx (handle s)) as [c|] eqn:E.
  - rewrite (query_live s c f E). reflexivity.
  - rewrite first_gethcore_dead by exact E. reflexivity.
Qed.

Lemma handle_uncaught (f : Core -> h_result unit * Core) (s : session Core) :
  handle (snd ((hcore <- gethcore ;; uncaught hcore f) s)) = handle s.
Proof.
  destruct (registry s !! coreidx (handle s)) as [c|] eqn:E.
  - rewrite (uncaught_live s c f E). reflexivity.
  - rewrite first_gethcore_dead by exact E. reflexivity.
Qed.

Lemma handle_exec (s : session Core) (o : r_op) :
  at_most_cleaned (handle s) (handle (snd (exec o s))).
Proof.
  destruct o; simpl.
  - left. reflexivity.
  - apply handle_reset.
  - apply handle_run.
  - rewrite forget_snd. unfold getdate. rewrite query_snd. left. reflexivity.
  - rewrite forget_snd. unfold get_tracking_data_impl. rewrite query_snd. left. reflexivity.
  - rewrite forget_snd. unfold get_biome_list. rewrite query_snd. left. reflexivity.
  - unfold create_biome_impl. rewrite handle_uncaught. left. reflexivity.
  - unfold delete_biome_impl. rewrite handle_uncaught. left. reflexivity.
  - unfold rename_biome. rewrite handle_uncaught. left. reflexivity.
  - rewrite forget_snd, sendmessage_handle. left. reflexivity.
Qed.

(** X1. Whatever operations are made on a handle, in whatever state, the
    wrappers leave every entry of the handle as it was, except that they may
    set the clean flag: they never clear it, and they never change the core
    index or the reset date. *)
Theorem wrappers_only_ever_set_clean (os : list r_op) (s : session Core) :
  at_most_cleaned (handle s) (handle (exec_all os s)) /\
  coreidx (handle (exec_all os s)) = coreidx (handle s) /\
  reset_date (handle (exec_all os s)) = reset_date (handle s) /\
  (clean (handle s) = true -> clean (handle (exec_all os s)) = true).
Proof.
  assert (H : at_most_cleaned (handle s) (handle (exec_all os s))).
  { revert s. induction os as [|o os IH]; intros s; simpl.
    - apply at_most_cleaned_refl.
    - eapply at_most_cleaned_trans; [apply handle_exec | apply IH]. }
  split; [exact H|].
  destruct H as [-> | ->]; simpl; auto.
Qed.

(** X2. A [reset] on a live handle sets the clean flag exactly when the core's
    reset returns and the date is at or before the recorded reset date; so on
    a handle that owes a reset, an explicit reset to a later date that returns
    leaves the reset owed, and the next [run] still resets the core to the
    recorded date before anything else. *)
Theorem reset_to_later_date_leaves_reset_owed
  (s : session Core) (c : Core) (date runtodate : Q) :
  live s c ->
  clean (handle (snd (reset date s)))
  = clean (handle s)
    || match fst (Hector.reset date c) with
       | Return _ => Qle_bool date (reset_date (handle s))
       | Throw _ => false
       end /\
  (clean (handle s) = false ->
   reset_date (handle s) < date ->
   fst (Hector.reset date c) = Return tt ->
   (calls s ++ [CallReset date; CallReset (reset_date (handle s))])
     `prefix_of` calls (snd (run runtodate (snd (reset date s))))).
Proof.
  intros E. split.
  - rewrite (reset_live s c date E).
    destruct (fst (Hector.reset date c)); simpl; [|rewrite orb_false_r; reflexivity].
    destruct (Qle_bool date (reset_date (handle s))); simpl;
      [rewrite orb_true_r | rewrite orb_false_r]; reflexivity.
  - intros Hc Hlt Hret.
    rewrite (reset_live s c date E). rewrite Hret.
    assert (Hle : Qle_bool date (reset_date (handle s)) = false).
    { destruct (Qle_bool date (reset_date (handle s))) eqn:Hb; [|reflexivity].
      apply Qle_bool_iff in Hb. lra. }
    rewrite Hle. simpl.
    set (c1 := snd (Hector.reset date c)).
    set (s' := called s [CallReset date] c1).
    assert (E' : live s' c1) by apply live_called.
    assert (Hc' : clean (handle s') = false) by exact Hc.
    pose proof (run_not_clean s' c1 runtodate E' Hc') as Hrun. simpl in Hrun.
    change (reset_date (handle s')) with (reset_date (handle s)) in Hrun.
    set (rd := reset_date (handle s)) in *.
    set (s1 := called (noticed s') [CallReset rd] (snd (Hector.reset rd c1))) in Hrun.
    assert (Hs1 : calls s1 = calls s ++ [CallReset date; CallReset rd]).
    { unfold s1, s'. simpl. rewrite <- app_assoc. reflexivity. }
    destruct (fst (Hector.reset rd c1)).
    + rewrite Hrun.
      destruct (run_checked_calls (cleaned s1) runtodate) as [Hk|Hk]; rewrite Hk;
        change (calls (cleaned s1)) with (calls s1); rewrite Hs1.
      * exists []. rewrite app_nil_r. reflexivity.
      * exists [CallRun runtodate]. reflexivity.
    + rewrite Hrun. cbn [snd]. rewrite Hs1. exists []. rewrite app_nil_r. reflexivity.
Qed.

(** X3. The queries [getdate], [get_tracking_data_impl], [get_biome_list]
    and [chk_core_valid] leave the session as it was, on a live handle and on
    a dead one; and [chk_core_valid] answers true exactly when [getdate]
    returns a date, false exactly when it stops with the invalid-instance
    error. *)
Theorem queries_leave_session_untouched (s : session Core) :
  snd (getdate s) = s /\
  snd (get_tracking_data_impl s) = s /\
  snd (get_biome_list s) = s /\
  snd (chk_core_valid s) = s /\
  (fst (chk_core_valid s) = Ok true <-> exists d, fst (getdate s) = Ok d) /\
  (fst (chk_core_valid s) = Ok false <-> fst (getdate s) = Stop InvalidHcore).
Proof.
  split; [apply query_snd|]. split; [apply query_snd|]. split; [apply query_snd|].
  split; [reflexivity|].
  assert (Hv : fst (chk_core_valid s)
               = Ok (bool_decide (is_Some (registry s !! coreidx (handle s)))))
    by reflexivity.
  rewrite Hv. unfold getdate.
  destruct (registry s !! coreidx (handle s)) as [c|] eqn:E.
  - rewrite (query_live s c _ E). cbn [fst].
    rewrite bool_decide_eq_true_2 by eauto.
    split; split; try discriminate; eauto.
  - rewrite first_gethcore_dead by exact E. cbn [fst].
    rewrite bool_decide_eq_false_2 by (intros [x Hx]; discriminate).
    split; split; try discriminate; auto. intros [d Hd]. discriminate.
Qed.

(** X4. On a clean live handle the date check of [run] refuses a target
    exactly when it is positive and strictly before the current date.  A
    non-positive target, and a target equal to the current date, go to the
    core unchanged, as one call. *)
Theorem run_date_check_boundary (s : session Core) (c : Core) (runtodate : Q) :
  live s c ->
  clean (handle s) = true ->
  (0 < runtodate /\ runtodate < Hector.getCurrentDate c ->
   run runtodate s = (Stop (RunDatePrior runtodate (Hector.getCurrentDate c)), s)) /\
  (runtodate <= 0 \/ Hector.getCurrentDate c <= runtodate ->
   run runtodate s
   = (match fst (Hector.run runtodate c) with
      | Throw e => Stop (RunError e)
      | Return _ => Ok tt
      end,
      called s [CallRun runtodate] (snd (Hector.run runtodate c)))).
Proof.
  intros E Hc.
  assert (Hrun : run runtodate s = run_checked runtodate s).
  { unfold run. erewrite bind_Ok by (apply auto_reset_clean, Hc). reflexivity. }
  rewrite Hrun, (run_checked_live s c runtodate E). split.
  - intros [H0 H1]. rewrite (Qlt_bool_true _ _ H0), (Qlt_bool_true _ _ H1). reflexivity.
  - intros [H|H].
    + rewrite (Qlt_bool_false _ _ H). reflexivity.
    + rewrite (Qlt_bool_false _ _ H), andb_false_r. reflexivity.
Qed.

(** ** [sendmessage], seen from the core *)

(** The core after the messages [infos], sent in order. *)
Definition applied (msgstr capstr : string) (infos : list message_data) (c : Core) : Core :=
  fold_left (fun c0 info => snd (Hector.sendMessage msgstr capstr info c0)) infos c.

(** The unit tag that [sendmessage] goes on with. *)
Definition unit_tag (unit : string) : unit_types :=
  match Hector.parseUnitsName unit with
  | Return u => u
  | Throw _ => U_UNDEFINED
  end.

Lemma send_loop_core (msgstr capstr : string) (utype : unit_types) (value : NumericVector)
  (dates : list (option Q)) (i : nat) (s : session Core) (c : Core) :
  live s c ->
  let envs := envelopes utype value i dates in
  let r := send_loop (coreidx (handle s)) msgstr capstr utype value i dates s in
  match fst r with
  | Ok rows =>
      length rows = length dates /\
      (forall j info, envs !! j = Some info ->
         exists rtn,
           fst (Hector.sendMessage msgstr capstr info
                  (applied msgstr capstr (take j envs) c)) = Return rtn /\
           rows !! j = Some (uv_magnitude rtn, Hector.unitsName (uv_units rtn))) /\
      live (snd r) (applied msgstr capstr envs c)
  | Stop err =>
      exists k info e,
        err = SendmessageError e /\
        envs !! k = Some info /\
        fst (Hector.sendMessage msgstr capstr info
               (applied msgstr capstr (take k envs) c)) = Throw e /\
        (forall j info', (j < k)%nat -> envs !! j = Some info' ->
           exists rtn,
             fst (Hector.sendMessage msgstr capstr info'
                    (applied msgstr capstr (take j envs) c)) = Return rtn) /\
        calls (snd r)
        = calls s ++ map (CallSendMessage msgstr capstr) (take (S k) envs) /\
        live (snd r) (applied msgstr capstr (take (S k) envs) c)
  end.
Proof.
  revert i s c. induction dates as [|d rest IH]; intros i s c E envs r; subst envs r.
  - simpl. split; [reflexivity|]. split; [|exact E]. intros j info Hj. discriminate.
  - simpl send_loop. cbn [envelopes].
    erewrite bind_Ok by (apply method_live, E).
    set (info := envelope utype value i d).
    set (c1 := snd (Hector.sendMessage msgstr capstr info c)).
    set (s' := called s [CallSendMessage msgstr capstr info] c1).
    assert (E' : live s' c1) by apply live_called.
    destruct (fst (Hector.sendMessage msgstr capstr info c)) as [rtn|e] eqn:Er.
    + rewrite uv_value_own_units.
      specialize (IH (S i) s' c1 E'). cbv zeta in IH.
      change (coreidx (handle s')) with (coreidx (handle s)) in IH.
      destruct (send_loop (coreidx (handle s)) msgstr capstr utype value (S i) rest s')
        as [[rows|err] s''] eqn:Es;
        [rewrite (bind_Ok _ _ _ _ _ Es) | rewrite (bind_Stop _ _ _ _ _ Es)];
        cbn [fst snd] in IH |- *.
      * destruct IH as (Hlen & Hrows & Hlive).
        split; [simpl; rewrite Hlen; reflexivity|]. split; [|exact Hlive].
        intros [|j] info' Hj.
        -- injection Hj as <-. exists rtn. split; [exact Er | reflexivity].
        -- apply (Hrows j info' Hj).
      * destruct IH as (k & info' & e & -> & Hk & Hthrow & Hbefore & Hcalls & Hlive).
        exists (S k), info', e.
        split; [reflexivity|]. split; [exact Hk|]. split; [exact Hthrow|].
        split; [|split; [|exact Hlive]].
        -- intros [|j] info'' Hlt Hj.
           ++ injection Hj as <-. exists rtn. exact Er.
           ++ apply (Hbefore j info''); [lia | exact Hj].
        -- rewrite Hcalls. unfold s'. simpl. rewrite <- app_assoc. reflexivity.
    + exists 0%nat, info, e.
      split; [reflexivity|]. split; [reflexivity|]. split; [exact Er|].
      split; [intros j info' Hlt; lia|]. split; [reflexivity | exact E'].
Qed.

(** The messages of a call and the frame of their answers, once the handle,
    the lengths and the unit have passed. *)
Lemma dispatch_core (msgtype capability : string) (utype : unit_types)
  (date value : NumericVector) (s : session Core) (c : Core) :
  live s c ->
  let envs := envelopes utype value 0 date in
  let r := dispatch msgtype capability date value utype s in
  match fst r with
  | Ok df =>
      date <> [] /\
      (exists rows,
         df = mk_DataFrame date capability (map fst rows) (map snd rows) /\
         length rows = length date /\
         (forall j info, envs !! j = Some info ->
            exists rtn,
              fst (Hector.sendMessage msgtype capability info
                     (applied msgtype capability (take j envs) c)) = Return rtn /\
              rows !! j = Some (uv_magnitude rtn, Hector.unitsName (uv_units rtn)))) /\
      calls (snd r) = calls s ++ map (CallSendMessage msgtype capability) envs /\
      live (snd r) (applied msgtype capability envs c)
  | Stop err =>
      (date = [] /\ err = DifferingRows /\ snd r = s) \/
      (exists k info e,
         err = SendmessageError e /\
         envs !! k = Some info /\
         fst (Hector.sendMessage msgtype capability info
                (applied msgtype capability (take k envs) c)) = Throw e /\
         (forall j info', (j < k)%nat -> envs !! j = Some info' ->
            exists rtn,
              fst (Hector.sendMessage msgtype capability info'
                     (applied msgtype capability (take j envs) c)) = Return rtn) /\
         calls (snd r)
         = calls s ++ map (CallSendMessage msgtype capability) (take (S k) envs) /\
         live (snd r) (applied msgtype capability (take (S k) envs) c))
  end.
Proof.
  intros E.
  destruct date as [|d0 rest]; [left; repeat split|].
  assert (Hne : (length (d0 :: rest) =? 0)%nat = false) by reflexivity.
  assert (Hdate : d0 :: rest <> []) by discriminate.
  revert Hne Hdate. generalize (d0 :: rest). clear d0 rest.
  intros date Hne Hdate envs r. subst r.
  unfold dispatch.
  pose proof (send_loop_core msgtype capability utype value date 0 s c E) as H.
  destruct (send_loop_calls msgtype capability utype value date 0 s c E)
    as (k & _ & Hcalls & _ & _ & Hok).
  cbv zeta in H. fold envs in H, Hcalls.
  destruct (send_loop (coreidx (handle s)) msgtype capability utype value 0 date s)
    as [[rows|err] s'] eqn:El;
    [rewrite (bind_Ok _ _ _ _ _ El), DataFrame_create_eq, Hne
    | rewrite (bind_Stop _ _ _ _ _ El)];
    cbn [fst snd] in H, Hcalls, Hok |- *.
  - destruct H as (Hlen & Hrows & Hlive). destruct (Hok rows eq_refl) as [-> _].
    split; [exact Hdate|].
    split; [exists rows; auto|]. split; [|exact Hlive].
    rewrite Hcalls, take_ge; [reflexivity|].
    unfold envs. rewrite envelopes_length. lia.
  - right. exact H.
Qed.

(** What [sendmessage] does once the handle, the lengths and the unit have
    passed. *)
Lemma sendmessage_passed (s : session Core) (c : Core) (msgtype capability : string)
  (date value : NumericVector) (unit : string) :
  live s c ->
  (exists df, fst (sendmessage msgtype capability date value unit s) = Ok df) \/
  (exists e, fst (sendmessage msgtype capability date value unit s)
             = Stop (SendmessageError e)) ->
  length_mismatch date value = false /\
  sendmessage msgtype capability date value unit s
  = dispatch msgtype capability date value (unit_tag unit) s.
Proof.
  intros E H. rewrite (sendmessage_live s c) in H |- * by exact E. unfold unit_tag.
  destruct (length_mismatch date value).
  { destruct H as [[df H]|[e H]]; discriminate. }
  split; [reflexivity|].
  destruct (Hector.parseUnitsName unit) as [u|e0]; [reflexivity|].
  destruct (String.eqb msgtype Hector.M_SETDATA); [|reflexivity].
  destruct H as [[df H]|[e H]]; discriminate.
Qed.

(** X5. When the answers of [sendmessage] come back as a data frame, the frame
    has the dates and the capability of the call and one row per date; row [j]
    is the magnitude and the unit name of what the core returned for message
    [j], sent to the core as the messages before it left it; and the core of
    the handle is then the core after all the messages. *)
Theorem sendmessage_rows_answer_messages_in_order
  (s : session Core) (c : Core) (msgtype capability : string)
  (date value : NumericVector) (unit : string) (df : DataFrame) :
  live s c ->
  fst (sendmessage msgtype capability date value unit s) = Ok df ->
  let envs := envelopes (unit_tag unit) value 0 date in
  df_year df = date /\ df_variable df = capability /\
  length (df_value df) = length date /\ length (df_units df) = length date /\
  (forall j info, envs !! j = Some info ->
     exists rtn,
       fst (Hector.sendMessage msgtype capability info
              (applied msgtype capability (take j envs) c)) = Return rtn /\
       df_value df !! j = Some (uv_magnitude rtn) /\
       df_units df !! j = Some (Hector.unitsName (uv_units rtn))) /\
  live (snd (sendmessage msgtype capability date value unit s))
       (applied msgtype capability envs c).
Proof.
  intros E Hdf envs.
  destruct (sendmessage_passed s c msgtype capability date value unit E) as [_ Hs];
    [left; eauto|].
  rewrite Hs in Hdf |- *.
  pose proof (dispatch_core msgtype capability (unit_tag unit) date value s c E) as H.
  cbv zeta in H. fold envs in H. rewrite Hdf in H.
  destruct H as (_ & (rows & -> & Hlen & Hrows) & _ & Hlive).
  cbn [df_year df_variable df_value df_units].
  split; [reflexivity|]. split; [reflexivity|].
  split; [rewrite length_map; exact Hlen|]. split; [rewrite length_map; exact Hlen|].
  split; [|exact Hlive].
  intros j info Hj. destruct (Hrows j info Hj) as (rtn & Hr & Hrow).
  exists rtn. split; [exact Hr|].
  rewrite !list_lookup_fmap, Hrow. split; reflexivity.
Qed.

(** X6. [sendmessage] is not atomic.  When it stops with an error of the
    core, the error is that of the first message the core refused; the
    messages before it were answered, no message after it was sent, and the
    core of the handle keeps what the messages up to and including the refused
    one did to it. *)
Theorem sendmessage_failure_keeps_earlier_messages
  (s : session Core) (c : Core) (msgtype capability : string)
  (date value : NumericVector) (unit : string) (e : h_exception) :
  live s c ->
  fst (sendmessage msgtype capability date value unit s) = Stop (SendmessageError e) ->
  let envs := envelopes (unit_tag unit) value 0 date in
  exists k info,
    envs !! k = Some info /\
    fst (Hector.sendMessage msgtype capability info
           (applied msgtype capability (take k envs) c)) = Throw e /\
    (forall j info', (j < k)%nat -> envs !! j = Some info' ->
       exists rtn,
         fst (Hector.sendMessage msgtype capability info'
                (applied msgtype capability (take j envs) c)) = Return rtn) /\
    calls (snd (sendmessage msgtype capability date value unit s))
    = calls s ++ map (CallSendMessage msgtype capability) (take (S k) envs) /\
    live (snd (sendmessage msgtype capability date value unit s))
         (applied msgtype capability (take (S k) envs) c).
Proof.
  intros E He envs.
  destruct (sendmessage_passed s c msgtype capability date value unit E) as [_ Hs];
    [right; eauto|].
  rewrite Hs in He |- *.
  pose proof (dispatch_core msgtype capability (unit_tag unit) date value s c E) as H.
  cbv zeta in H. fold envs in H. rewrite He in H.
  destruct H as [(_ & Hd & _)|(k & info & e' & He' & Hk & Hthrow & Hbefore & Hcalls & Hlive)];
    [discriminate|].
  injection He' as <-.
  exists k, info. auto.
Qed.

(** X7. Once the length check of [sendmessage] has passed, every read of the
    value vector is within it: for entry [j] of the date vector the message
    carries element 0 of a one-element value vector and element [j] of a
    longer one, with 0 for NA, and the undefined index for an NA date. *)
Theorem sendmessage_reads_value_in_range (utype : unit_types)
  (date value : NumericVector) (j : nat) (d : option Q) :
  length value = length date \/ length value = 1%nat ->
  date !! j = Some d ->
  exists x,
    value !! (if (length value =? 1)%nat then 0%nat else j) = Some x /\
    envelopes utype value 0 date !! j
    = Some (mk_message_data (default Hector.undefinedIndex d)
                            (mk_unitval (default 0 x) utype)).
Proof.
  intros Hlen Hj.
  assert (Hlt : (j < length date)%nat) by (apply lookup_lt_is_Some; eauto).
  set (ival := if (length value =? 1)%nat then 0%nat else j).
  assert (Hival : (ival < length value)%nat).
  { unfold ival. destruct (length value =? 1)%nat eqn:H1.
    - apply Nat.eqb_eq in H1. lia.
    - apply Nat.eqb_neq in H1. lia. }
  destruct (lookup_lt_is_Some_2 value ival Hival) as [x Hx].
  exists x. split; [exact Hx|].
  rewrite (envelopes_lookup utype value 0 j date d Hj), Nat.add_0_l. f_equal.
  unfold envelope. cbv zeta. fold ival. rewrite (nth_lookup_Some _ _ None x Hx).
  destruct d, x; reflexivity.
Qed.

(** X8. With an empty date vector [sendmessage] on a live handle never
    reaches the core and never returns a frame: a value vector of two or more
    elements stops with the length error, a SETDATA call whose unit does not
    parse stops with the invalid-unit error, and every other call stops where
    the data frame is built, whose columns then have 0, 1, 0 and 0 rows; the
    session is as it was in each case. *)
Theorem sendmessage_without_dates (s : session Core) (c : Core)
  (msgtype capability : string) (value : NumericVector) (unit : string) :
  live s c ->
  sendmessage msgtype capability [] value unit s
  = (if (2 <=? length value)%nat then Stop ValueLength
     else match Hector.parseUnitsName unit with
          | Return _ => Stop DifferingRows
          | Throw _ =>
              if String.eqb msgtype Hector.M_SETDATA
              then Stop (InvalidUnitType unit capability)
              else Stop DifferingRows
          end, s).
Proof.
  intros E. rewrite (sendmessage_live s c) by exact E. unfold length_mismatch.
  destruct value as [|x [|y value]]; cbn [length Nat.eqb Nat.leb negb andb];
    try reflexivity;
    destruct (Hector.parseUnitsName unit); try reflexivity;
    destruct (String.eqb msgtype Hector.M_SETDATA); reflexivity.
Qed.

(** C9. When the unit string does not parse: a SETDATA call stops before any
    message is dispatched and leaves the session as it was, with the
    invalid-unit error once the handle and the lengths have passed.  A call
    of any other message type, GETDATA among them, on a live handle and with
    the lengths passed, goes on instead: its messages carry the undefined unit
    tag and go to the core one by one, the first of them in every case; when
    the call returns, all of them have gone, in order; when it stops, it stops
    with the error of the first message that the core refused, that message
    being the last that has gone, or, with no date at all, where the data
    frame is built: never with the invalid-unit error. *)
Theorem unit_failure_fatal_only_for_SETDATA (s : session Core) (msgtype capability : string)
  (date value : NumericVector) (unit : string) (e : h_exception) :
  Hector.parseUnitsName unit = Throw e ->
  (msgtype = Hector.M_SETDATA ->
     (exists err, sendmessage msgtype capability date value unit s = (Stop err, s)) /\
     (forall c, live s c ->
        length value = length date \/ length value = 1%nat ->
        sendmessage msgtype capability date value unit s
        = (Stop (InvalidUnitType unit capability), s))) /\
  (msgtype <> Hector.M_SETDATA ->
     forall c, live s c ->
       length value = length date \/ length value = 1%nat ->
       let envs := envelopes U_UNDEFINED value 0 date in
       let r := sendmessage msgtype capability date value unit s in
       Forall (fun m => uv_units (md_value m) = U_UNDEFINED) envs /\
       length envs = length date /\
       (forall d rest, date = d :: rest ->
          exists more,
            calls (snd r)
            = calls s ++ CallSendMessage msgtype capability
                           (envelope U_UNDEFINED value 0 d) :: more) /\
       (forall df, fst r = Ok df ->
          calls (snd r) = calls s ++ map (CallSendMessage msgtype capability) envs /\
          live (snd r) (applied msgtype capability envs c)) /\
       (forall err, fst r = Stop err ->
          (date = [] /\ err = DifferingRows /\ snd r = s) \/
          (exists k info e',
             err = SendmessageError e' /\
             envs !! k = Some info /\
             fst (Hector.sendMessage msgtype capability info
                    (applied msgtype capability (take k envs) c)) = Throw e' /\
             calls (snd r)
             = calls s ++ map (CallSendMessage msgtype capability) (take (S k) envs) /\
             live (snd r) (applied msgtype capability (take (S k) envs) c)))).
Proof.
  intros Hparse. split.
  - intros ->.
    assert (Hlive : forall c, live s c ->
              length value = length date \/ length value = 1%nat ->
              sendmessage Hector.M_SETDATA capability date value unit s
              = (Stop (InvalidUnitType unit capability), s)).
    { intros c E Hlen. rewrite (sendmessage_live s c) by exact E.
      rewrite (length_mismatch_false _ _ Hlen), Hparse.
      rewrite String.eqb_refl. reflexivity. }
    split; [|exact Hlive].
    destruct (registry s !! coreidx (handle s)) as [c|] eqn:E.
    + rewrite (sendmessage_live s c) by exact E. rewrite Hparse, String.eqb_refl.
      destruct (length_mismatch date value); eauto.
    + rewrite sendmessage_dead by exact E. eauto.
  - intros Hne c E Hlen envs r.
    assert (Heq : r = dispatch msgtype capability date value U_UNDEFINED s).
    { unfold r. rewrite (sendmessage_live s c) by exact E.
      rewrite (length_mismatch_false _ _ Hlen), Hparse.
      apply String.eqb_neq in Hne. rewrite Hne. reflexivity. }
    pose proof (dispatch_core msgtype capability U_UNDEFINED date value s c E) as H.
    cbv zeta in H. fold envs in H. rewrite <- Heq in H. clearbody r.
    split; [apply envelopes_units|]. split; [apply envelopes_length|].
    destruct (fst r) as [df|err] eqn:Hr.
    + destruct H as (_ & _ & Hcalls & Hl).
      split; [|split; [|discriminate]].
      * intros d rest ->. rewrite Hcalls. eexists. reflexivity.
      * intros df' _. split; assumption.
    + split; [|split; [discriminate|]].
      * intros d rest ->.
        destruct H as [(Hd & _)|(k & info & e' & _ & _ & _ & _ & Hcalls & _)];
          [discriminate|].
        rewrite Hcalls. eexists. reflexivity.
      * intros err' Herr. injection Herr as <-.
        destruct H as [H|(k & info & e' & He & Hk & Ht & _ & Hcalls & Hl)];
          [left; exact H | right].
        exists k, info, e'. auto 6.
Qed.

(** ** The registry *)

(** Between two sessions: the handle names the same place of the registry,
    the other places hold what they held, and the handle's own place is
    occupied in the one exactly when it is in the other. *)
Definition same_cores (s s' : session Core) : Prop :=
  coreidx (handle s') = coreidx (handle s) /\
  (forall j, j <> coreidx (handle s) -> registry s' !! j = registry s !! j) /\
  (is_Some (registry s' !! coreidx (handle s))
   <-> is_Some (registry s !! coreidx (handle s))).

(** The same, but for the handle's own place. *)
Definition same_other_cores (s s' : session Core) : Prop :=
  coreidx (handle s') = coreidx (handle s) /\
  (forall j, j <> coreidx (handle s) -> registry s' !! j = registry s !! j).

Lemma same_cores_refl (s : session Core) : same_cores s s.
Proof. split; [reflexivity|]. split; [reflexivity|]. reflexivity. Qed.

Lemma same_cores_trans (s1 s2 s3 : session Core) :
  same_cores s1 s2 -> same_cores s2 s3 -> same_cores s1 s3.
Proof.
  intros (Hi & Ho & Hl) (Hi' & Ho' & Hl'). rewrite Hi in Hi', Ho', Hl'.
  split; [congruence|]. split.
  - intros j Hj. rewrite Ho' by exact Hj. apply Ho, Hj.
  - rewrite Hl'. exact Hl.
Qed.

Lemma same_cores_other (s s' : session Core) : same_cores s s' -> same_other_cores s s'.
Proof. intros (Hi & Ho & _). split; assumption. Qed.

Lemma same_other_cores_trans (s1 s2 s3 : session Core) :
  same_other_cores s1 s2 -> same_other_cores s2 s3 -> same_other_cores s1 s3.
Proof.
  intros (Hi & Ho) (Hi' & Ho'). rewrite Hi in Hi', Ho'.
  split; [congruence|].
  intros j Hj. rewrite Ho' by exact Hj. apply Ho, Hj.
Qed.

Lemma same_cores_called (s : session Core) (c c' : Core) (ev : list core_call) :
  live s c -> same_cores s (called s ev c').
Proof.
  intros E. split; [reflexivity|]. split.
  - intros j Hj. simpl. apply lookup_insert_ne. congruence.
  - simpl. rewrite lookup_insert_eq. unfold live in E. rewrite E. split; eauto.
Qed.

Lemma same_cores_eq (s s' : session Core) :
  handle s' = handle s -> registry s' = registry s -> same_cores s s'.
Proof. intros Hh Hr. unfold same_cores. rewrite Hh, Hr. split; [|split]; reflexivity. Qed.

Lemma same_cores_reset (s : session Core) (date : Q) : same_cores s (snd (reset date s)).
Proof.
  destruct (registry s !! coreidx (handle s)) as [c|] eqn:E.
  - rewrite (reset_live s c date E).
    destruct (fst (Hector.reset date c)); cbn [snd];
      [destruct (Qle_bool date (reset_date (handle s)))|];
      apply (same_cores_called s c), E.
  - rewrite reset_dead by exact E. apply same_cores_refl.
Qed.

Lemma same_cores_run_checked (s : session Core) (runtodate : Q) :
  same_cores s (snd (run_checked runtodate s)).
Proof.
  destruct (registry s !! coreidx (handle s)) as [c|] eqn:E.
  - rewrite (run_checked_live s c runtodate E).
    destruct (Qlt_bool 0 runtodate && Qlt_bool runtodate (Hector.getCurrentDate c));
      [apply same_cores_refl | apply (same_cores_called s c), E].
  - rewrite run_checked_dead by exact E. apply same_cores_refl.
Qed.

Lemma same_cores_run (s : session Core) (runtodate : Q) :
  same_cores s (snd (run runtodate s)).
Proof.
  unfold run. destruct (clean (handle s)) eqn:Hc.
  - erewrite bind_Ok by (apply auto_reset_clean, Hc). apply same_cores_run_checked.
  - pose proof (auto_reset_dirty s Hc) as Ha.
    assert (Hr : same_cores s (snd (auto_reset s))).
    { rewrite Ha. eapply same_cores_trans;
        [apply (same_cores_eq s (noticed s)); reflexivity | apply same_cores_reset]. }
    destruct (auto_reset s) as [[[]|e] s'] eqn:Es.
    + erewrite bind_Ok by exact Es.
      eapply same_cores_trans; [exact Hr | apply same_cores_run_checked].
    + erewrite bind_Stop by exact Es. exact Hr.
Qed.

Lemma same_cores_uncaught (f : Core -> h_result unit * Core) (s : session Core) :
  same_cores s (snd ((hcore <- gethcore ;; uncaught hcore f) s)).
Proof.
  destruct (registry s !! coreidx (handle s)) as [c|] eqn:E.
  - rewrite (uncaught_live s c f E). apply (same_cores_called s c), E.
  - rewrite first_gethcore_dead by exact E. apply same_cores_refl.
Qed.

Lemma same_cores_send_loop (msgstr capstr : string) (utype : unit_types)
  (value : NumericVector) (dates : list (option Q)) (i : nat) (s : session Core) (c : Core) :
  live s c ->
  same_cores s (snd (send_loop (coreidx (handle s)) msgstr capstr utype value i dates s)).
Proof.
  revert i s c. induction dates as [|d rest IH]; intros i s c E; [apply same_cores_refl|].
  simpl send_loop.
  erewrite bind_Ok by (apply method_live, E).
  set (info := envelope utype value i d).
  set (c1 := snd (Hector.sendMessage msgstr capstr info c)).
  set (s' := called s [CallSendMessage msgstr capstr info] c1).
  assert (E' : live s' c1) by apply live_called.
  assert (Hs' : same_cores s s') by (apply (same_cores_called s c), E).
  destruct (fst (Hector.sendMessage msgstr capstr info c)) as [rtn|e]; [|exact Hs'].
  rewrite uv_value_own_units.
  specialize (IH (S i) s' c1 E').
  change (coreidx (handle s')) with (coreidx (handle s)) in IH.
  destruct (send_loop (coreidx (handle s)) msgstr capstr utype value (S i) rest s')
    as [[rows|err] s''] eqn:Es;
    [rewrite (bind_Ok _ _ _ _ _ Es) | rewrite (bind_Stop _ _ _ _ _ Es)];
    cbn [snd] in IH |- *; eapply same_cores_trans; eauto.
Qed.

Lemma same_cores_sendmessage (s : session Core) (msgtype capability : string)
  (date value : NumericVector) (unit : string) :
  same_cores s (snd (sendmessage msgtype capability date value unit s)).
Proof.
  destruct (registry s !! coreidx (handle s)) as [c|] eqn:E.
  2:{ rewrite sendmessage_dead by exact E. apply same_cores_refl. }
  rewrite (sendmessage_live s c) by exact E.
  assert (Hd : forall u, same_cores s (snd (dispatch msgtype capability date value u s))).
  { intros u. unfold dispatch.
    pose proof (same_cores_send_loop msgtype capability u value date 0 s c E) as H.
    destruct (send_loop (coreidx (handle s)) msgtype capability u value 0 date s)
      as [[rows|err] s'] eqn:Es;
      [rewrite (bind_Ok _ _ _ _ _ Es), DataFrame_create_snd
      | rewrite (bind_Stop _ _ _ _ _ Es)]; exact H. }
  destruct (length_mismatch date value); [apply same_cores_refl|].
  destruct (Hector.parseUnitsName unit) as [u|e]; [apply Hd|].
  destruct (String.eqb msgtype Hector.M_SETDATA); [apply same_cores_refl | apply Hd].
Qed.

Lemma same_cores_exec (s : session Core) (o : r_op) :
  is_shutdown o = false -> same_cores s (snd (exec o s)).
Proof.
  destruct o; simpl; intros Ho; try discriminate.
  - apply same_cores_reset.
  - apply same_cores_run.
  - rewrite forget_snd. unfold getdate. rewrite query_snd. apply same_cores_refl.
  - rewrite forget_snd. unfold get_tracking_data_impl. rewrite query_snd. apply same_cores_refl.
  - rewrite forget_snd. unfold get_biome_list. rewrite query_snd. apply same_cores_refl.
  - apply same_cores_uncaught.
  - apply same_cores_uncaught.
  - apply same_cores_uncaught.
  - rewrite forget_snd. apply same_cores_sendmessage.
Qed.

Lemma same_other_cores_exec (s : session Core) (o : r_op) :
  same_other_cores s (snd (exec o s)).
Proof.
  destruct (is_shutdown o) eqn:Ho.
  - destruct o; try discriminate. simpl. split; [reflexivity|].
    intros j Hj. apply lookup_delete_ne. congruence.
  - apply same_cores_other, same_cores_exec, Ho.
Qed.

(** X9. The wrappers work on the core of their handle only.  Whatever
    operations are made on a handle, every other core of the registry is left
    as it was; and as long as none of the operations is [shutdown], a live
    handle stays live and a dead one stays dead: no wrapper but [shutdown]
    destroys a core and none creates one. *)
Theorem wrappers_touch_only_their_core (os : list r_op) (s : session Core) :
  (forall j, j <> coreidx (handle s) ->
     registry (exec_all os s) !! j = registry s !! j) /\
  (forallb (fun o => negb (is_shutdown o)) os = true ->
     (is_Some (registry (exec_all os s) !! coreidx (handle s))
      <-> is_Some (registry s !! coreidx (handle s)))).
Proof.
  split.
  - assert (H : same_other_cores s (exec_all os s)); [|apply H].
    revert s. induction os as [|o os IH]; intros s; simpl.
    + split; reflexivity.
    + eapply same_other_cores_trans; [apply same_other_cores_exec | apply IH].
  - intros Hos.
    assert (H : same_cores s (exec_all os s)); [|apply H].
    revert s. induction os as [|o os IH]; intros s; simpl in *.
    + apply same_cores_refl.
    + apply andb_prop in Hos as [Ho Hos]. apply negb_true_iff in Ho.
      eapply same_cores_trans; [apply same_cores_exec, Ho | apply IH, Hos].
Qed.

End Facts.

End Bindings.

(* ===================================================================== *)
(** * The constructor of the R bindings: [newcore_impl] *)
(* ===================================================================== *)

Module Setup.
Import Rcpp.

(** What [newcore_impl] calls of [Hector::Core] and [INIToCoreReader], which
    are not part of the sources at hand.  [mkcore] answers the index and the
    new instance; [init], [parse] and [prepareToRun] work on the instance in
    place and may throw. *)
Class SetupOps (Core : Type) : Type := {
  mkcore : bool -> Z -> bool -> gmap Z Core -> Z * Core;
  init : Core -> h_result unit * Core;
  parse : string -> Core -> h_result unit * Core;
  prepareToRun : Core -> h_result unit * Core
}.

(** The three messages that [newcore_impl] stops with. *)
Inductive setup_error : Type :=
  | InputFileMissing (fn : string)
  | ParseError (fn : string) (e : h_exception)
  | SetupError (e : h_exception).

Section NewCore.

Context {Core : Type} `{HC : Hector.CoreOps Core} `{HS : SetupOps Core}.

(** Whether a [std::ifstream] on a file name opens. *)
Variable ifstream : string -> bool.

(** Modelled from the spec: the registry of live instances is a mapping from
    the index to the instance, and making a core enters it under the index
    that [mkcore] answers (section 9). *)
Definition register (idx : Z) (c : Core) (reg : gmap Z Core) : gmap Z Core :=
  <[idx := c]> reg.

(** [newcore_impl(inifile, loglevel, suppresslogging, name)].  The stop of the
    inner [catch] is no [h_exception], so the outer [catch] does not see it;
    no path deletes the core again. *)
Definition newcore_impl (inifile : string) (loglevel : Z) (suppresslogging : bool)
  (name : string) (reg : gmap Z Core) : (setup_error + Environment) * gmap Z Core :=
  if ifstream inifile then
    let (idx, c0) := mkcore (negb suppresslogging) loglevel false reg in
    match init c0 with
    | (Throw e, c1) => (inl (SetupError e), register idx c1 reg)
    | (Return _, c1) =>
        match parse inifile c1 with
        | (Throw e, c2) => (inl (ParseError inifile e), register idx c2 reg)
        | (Return _, c2) =>
            match prepareToRun c2 with
            | (Throw e, c3) => (inl (SetupError e), register idx c3 reg)
            | (Return _, c3) =>
                (inr {| coreidx := idx;
                        strtdate := Hector.getStartDate c3;
                        enddate := Hector.getEndDate c3;
                        trackdate := Hector.getTrackingDate c3;
                        inifile := inifile;
                        name := name;
                        clean := true;
                        reset_date := 0 |},
                 register idx c3 reg)
            end
        end
    end
  else (inl (InputFileMissing inifile), reg).

(** The R session that holds a handle and nothing else yet. *)
Definition session_of (env : Environment) (reg : gmap Z Core) : session Core :=
  mk_session env reg [] [].

(** X10. When [newcore_impl] stops, either the input file did not open, and
    then no core was made and the registry is as it was; or the core had been
    made already, and then it stays in the registry under its index, with the
    other cores as they were: a failed setup never deletes the core it
    made. *)
Theorem newcore_failure_leaves_core_registered
  (inifile : string) (loglevel : Z) (suppresslogging : bool) (name : string)
  (reg reg' : gmap Z Core) (err : setup_error) :
  newcore_impl inifile loglevel suppresslogging name reg = (inl err, reg') ->
  (ifstream inifile = false /\ err = InputFileMissing inifile /\ reg' = reg) \/
  (ifstream inifile = true /\
   (exists e, err = SetupError e \/ err = ParseError inifile e) /\
   let idx := fst (mkcore (negb suppresslogging) loglevel false reg) in
   is_Some (reg' !! idx) /\
   (forall j, j <> idx -> reg' !! j = reg !! j)).
Proof.
  unfold newcore_impl. intros H.
  destruct (ifstream inifile); [right | left].
  2:{ injection H as <- <-. auto. }
  split; [reflexivity|].
  destruct (mkcore (negb suppresslogging) loglevel false reg) as [idx c0]. cbn [fst].
  assert (Hreg : forall c, is_Some (register idx c reg !! idx) /\
                           (forall j, j <> idx -> register idx c reg !! j = reg !! j)).
  { intros c. unfold register. split.
    - rewrite lookup_insert_eq. eauto.
    - intros j Hj. apply lookup_insert_ne. congruence. }
  destruct (init c0) as [[[]|e1] c1]; [|injection H as <- <-; split; [eauto | apply Hreg]].
  destruct (parse inifile c1) as [[[]|e2] c2];
    [|injection H as <- <-; split; [eauto | apply Hreg]].
  destruct (prepareToRun c2) as [[[]|e3] c3];
    [discriminate | injection H as <- <-; split; [eauto | apply Hreg]].
Qed.

(** X11. The handle that [newcore_impl] returns names a live core, the one
    [mkcore] made, after [init], the parse of the input file and
    [prepareToRun]; it carries the dates of that core, the file and the name
    it was given, and it is clean with reset date 0; the other cores of the
    registry are as they were.  So the first [run] on the new handle makes no
    reset: the only call it can make on the core is the run itself. *)
Theorem newcore_handle_is_live_and_clean
  (inifile : string) (loglevel : Z) (suppresslogging : bool) (name : string)
  (reg reg' : gmap Z Core) (env : Environment) :
  newcore_impl inifile loglevel suppresslogging name reg = (inr env, reg') ->
  let made := mkcore (negb suppresslogging) loglevel false reg in
  let c := snd (prepareToRun (snd (parse inifile (snd (init (snd made)))))) in
  env = mk_Environment (fst made) (Hector.getStartDate c) (Hector.getEndDate c)
          (Hector.getTrackingDate c) inifile name true 0 /\
  live (session_of env reg') c /\
  (forall j, j <> fst made -> reg' !! j = reg !! j) /\
  (forall runtodate,
     let after := snd (run runtodate (session_of env reg')) in
     (calls after = [] \/ calls after = [CallRun runtodate]) /\ console after = []).
Proof.
  intros H made c. subst made c. unfold newcore_impl in H.
  destruct (ifstream inifile); [|discriminate].
  destruct (mkcore (negb suppresslogging) loglevel false reg) as [idx c0]. cbn [fst snd].
  destruct (init c0) as [[[]|e1] c1]; [|discriminate]. cbn [snd].
  destruct (parse inifile c1) as [[[]|e2] c2]; [|discriminate]. cbn [snd].
  destruct (prepareToRun c2) as [[[]|e3] c3]; [|discriminate]. cbn [snd].
  injection H as <- <-.
  split; [reflexivity|]. split; [|split].
  - unfold live, session_of, register. simpl. apply lookup_insert_eq.
  - intros j Hj. unfold register. apply lookup_insert_ne. congruence.
  - intros runtodate. cbv zeta.
    set (s0 := session_of _ _).
    assert (Hrun : run runtodate s0 = run_checked runtodate s0).
    { unfold run. erewrite bind_Ok by (apply auto_reset_clean; reflexivity). reflexivity. }
    rewrite Hrun. split.
    + apply (run_checked_calls s0 runtodate).
    + assert (E : live s0 c3) by (unfold live, s0, session_of, register; simpl;
                                   apply lookup_insert_eq).
      rewrite (run_checked_live s0 c3 runtodate E).
      destruct (Qlt_bool 0 runtodate && Qlt_bool runtodate (Hector.getCurrentDate c3));
        reflexivity.
Qed.

End NewCore.

End Setup.

(* ===================================================================== *)
(** * More on the tracking report: the shape of its lines and the unit of
      the pools *)
(* ===================================================================== *)

Module Report.
Import Pool Visitor.

Definition is_delimiter (t : token) : bool :=
  match t with DELIMITER => true | _ => false end.

(** The number of columns of a line of the report: one more than its
    delimiters. *)
Definition columns (line : list token) : nat :=
  S (length (List.filter is_delimiter line)).

Lemma columns_sources (x : fluxpool) (l : list string) :
  length (List.filter is_delimiter
            (flat_map (fun s => [DELIMITER; TString s; DELIMITER; TDouble (get_fraction x s)]) l))
  = (2 * length l)%nat.
Proof. induction l as [|s l IH]; simpl; [reflexivity | rewrite IH; lia]. Qed.

(** X12. The line that [print_pool] writes for a tracked pool held in Pg C
    has four columns and two more for every source of the pool, while the
    header line has six: the rows of the report line up with the header only
    for a pool with exactly one source. *)
Theorem report_rows_are_ragged (v : CSVFluxPoolVisitor) (x : fluxpool) :
  tracking x = true ->
  units x = U_PGC ->
  exists line,
    print_pool v x = Return (set_csvFile v (csvFile v ++ line ++ [endl])) /\
    forallb (fun t => negb (is_endl t)) line = true /\
    columns line = (4 + 2 * length (get_sources x))%nat /\
    columns header = 6%nat /\
    (columns line = columns header <-> length (get_sources x) = 1%nat).
Proof.
  intros Ht Hu. exists (pool_line (datestring v) x).
  assert (Hc : columns (pool_line (datestring v) x) = (4 + 2 * length (get_sources x))%nat).
  { unfold columns, pool_line. rewrite List.filter_app, length_app, columns_sources.
    simpl. lia. }
  split.
  - rewrite (print_pool_output v x (fun _ => Hu)). unfold pool_output. rewrite Ht. reflexivity.
  - split; [apply pool_line_no_endl|]. split; [exact Hc|]. split; [reflexivity|].
    rewrite Hc. change (columns header) with 6%nat. lia.
Qed.

(** X13. A tracked pool that is not held in Pg C ends the visit: with output
    enabled for the component, [visit] throws the unit mismatch when
    [atmos_c] is such a pool, and also when [atmos_c] passes and [earth_c] is
    such a pool; whereas with the tracking flags off the units are never
    looked at and the visit returns with the stream as it was. *)
Theorem visit_throws_on_pool_not_in_PgC
  (v : CSVFluxPoolVisitor) (k : core_view) (c : SimpleNbox) :
  core v = Some k ->
  outputEnabled k (getComponentName c) = true ->
  (tracking (atmos_c c) = true -> units (atmos_c c) <> U_PGC ->
     visit_SimpleNbox v c = Some (Throw UnitMismatch)) /\
  ((tracking (atmos_c c) = true -> units (atmos_c c) = U_PGC) ->
   tracking (earth_c c) = true -> units (earth_c c) <> U_PGC ->
     visit_SimpleNbox v c = Some (Throw UnitMismatch)) /\
  (tracking (atmos_c c) = false -> tracking (earth_c c) = false ->
     visit_SimpleNbox v c = Some (Return v)).
Proof.
  intros Hk Hon.
  assert (Hthrow : forall v0 x, tracking x = true -> units x <> U_PGC ->
                     print_pool v0 x = Throw UnitMismatch).
  { intros v0 x Ht Hu. unfold print_pool, value, uv_value. rewrite Ht. simpl.
    destruct (decide (units x = U_PGC)); [contradiction | reflexivity]. }
  unfold visit_SimpleNbox. rewrite Hk, Hon. simpl.
  split; [|split].
  - intros Ht Hu. rewrite (Hthrow v _ Ht Hu). reflexivity.
  - intros Ha Ht Hu. rewrite (print_pool_output v _ Ha).
    rewrite (Hthrow _ _ Ht Hu). reflexivity.
  - intros Ha He. rewrite (print_pool_untracked v _ Ha), (print_pool_untracked v _ He).
    reflexivity.
Qed.

End Report.

(* ===================================================================== *)
(** * The example driver: reading the emissions stream *)
(* ===================================================================== *)

From Stdlib Require Import Ascii.

Module MainApi.

(** [boost::split(splitvec, line, is_any_of(","))]: the fields between the
    commas, empty ones included; a line without a comma is one field. *)
Fixpoint split (line : string) : list string :=
  match line with
  | EmptyString => [EmptyString]
  | String ch rest =>
      if Ascii.eqb ch ","%char then EmptyString :: split rest
      else match split rest with
           | [] => [String ch EmptyString]
           | field :: fields => String ch field :: fields
           end
  end.

(** The eight columns of a row that the driver reads. *)
Record emissions : Type := mk_emissions {
  ffi : Q; daccs : Q; luc : Q; so2 : Q; bc : Q; oc : Q; cf4 : Q; hcf22 : Q
}.

(** How a call of [read_and_set_co2] ends: it returns; a [sendMessage] throws;
    [splitvec] is read past its end, which has no defined behaviour; or the
    loop goes on for ever. *)
Inductive ending : Type :=
  | Returned
  | Threw (e : h_exception)
  | OutOfRange
  | Diverges.

Section Driver.

Context {Core : Type} `{HC : Hector.CoreOps Core}.

(** [atof] of the C library. *)
Variable atof : string -> Q.

(** The capability names of [component_names.hpp], which is not part of the
    sources at hand. *)
Variables D_FFI_EMISSIONS D_DACCS_UPTAKE D_LUC_EMISSIONS D_LUC_UPTAKE
          D_EMISSIONS_SO2 D_EMISSIONS_BC D_EMISSIONS_OC D_EMISSIONS_CF4
          D_EMISSIONS_HFC22 : string.

(** The core, the messages sent to it so far, and the rows printed to
    [std::cout]. *)
Record state : Type := mk_state {
  core : Core;
  sent : list (string * string * message_data);
  cout : list (Q * emissions)
}.

(** [init_emiss_strm]: four lines are read and dropped.  The stream is the
    list of the lines it still holds. *)
Definition init_emiss_strm (sim_gcam_emiss : list string) : list string :=
  skipn 4 sim_gcam_emiss.

(** [t >= tstrt && t > 2010.0] *)
Definition in_range (tstrt t : Q) : bool := Qle_bool tstrt t && Qlt_bool 2010 t.

(** The eight reads of [splitvec], by index and without a bounds check. *)
Definition read_row (splitvec : list string) : option emissions :=
  s1 ← splitvec !! 1%nat; s2 ← splitvec !! 2%nat; s3 ← splitvec !! 3%nat;
  s7 ← splitvec !! 7%nat; s11 ← splitvec !! 11%nat; s12 ← splitvec !! 12%nat;
  s14 ← splitvec !! 14%nat; s33 ← splitvec !! 33%nat;
  Some (mk_emissions (atof s1) (atof s2) (atof s3) (atof s7)
                     (atof s11) (atof s12) (atof s14) (atof s33)).

(** The nine set-messages of a row, in the order of the calls. *)
Definition messages (t : Q) (r : emissions) : list (string * message_data) :=
  [(D_FFI_EMISSIONS, mk_message_data t (mk_unitval (ffi r) U_PGC_YR));
   (D_DACCS_UPTAKE, mk_message_data t (mk_unitval (daccs r) U_PGC_YR));
   (D_LUC_EMISSIONS, mk_message_data t (mk_unitval (luc r) U_PGC_YR));
   (D_LUC_UPTAKE, mk_message_data t (mk_unitval (luc r) U_PGC_YR));
   (D_EMISSIONS_SO2, mk_message_data t (mk_unitval (so2 r) U_GG_S));
   (D_EMISSIONS_BC, mk_message_data t (mk_unitval (bc r) U_TG));
   (D_EMISSIONS_OC, mk_message_data t (mk_unitval (oc r) U_TG));
   (D_EMISSIONS_CF4, mk_message_data t (mk_unitval (cf4 r) U_GG));
   (D_EMISSIONS_HFC22, mk_message_data t (mk_unitval (hcf22 r) U_GG))].

(** The calls [core.sendMessage(M_SETDATA, ...)] one after the other; the
    first that throws ends them. *)
Fixpoint send_all (msgs : list (string * message_data)) (w : state)
  : option h_exception * state :=
  match msgs with
  | [] => (None, w)
  | (cap, info) :: rest =>
      let (r, c') := Hector.sendMessage Hector.M_SETDATA cap info (core w) in
      let w' := {| core := c'; sent := sent w ++ [(Hector.M_SETDATA, cap, info)];
                   cout := cout w |} in
      match r with
      | Throw e => (Some e, w')
      | Return _ => send_all rest w'
      end
  end.

Definition print (t : Q) (r : emissions) (w : state) : state :=
  {| core := core w; sent := sent w; cout := cout w ++ [(t, r)] |}.

(** The first field of a line, as [atof] reads it. *)
Definition year (line : string) : Q := atof (hd EmptyString (split line)).

(** [read_and_set_co2(tstrt, tend, core, sim_gcam_emiss)] on a stream that
    ends with a newline, given as the list of its lines: answers how the call
    ends and the lines left in the stream.  At the end of such a stream
    [getline] leaves the line empty and nothing changes any more from one
    round of the loop to the next.  The loop on any stream, also one whose
    last line has no newline after it, is [rounds] below; the two agree where
    both apply ([rounds_read_and_set_co2]). *)
Fixpoint read_and_set_co2 (tstrt tend : Q) (sim_gcam_emiss : list string) (w : state)
  : ending * list string * state :=
  match sim_gcam_emiss with
  | [] =>
      let t := year EmptyString in
      if in_range tstrt t then (OutOfRange, [], w)
      else if Qlt_bool t tend then (Diverges, [], w)
      else (Returned, [], w)
  | line :: rest =>
      let splitvec := split line in
      let t := year line in
      if in_range tstrt t then
        match read_row splitvec with
        | None => (OutOfRange, rest, w)
        | Some r =>
            match send_all (messages t r) w with
            | (Some e, w') => (Threw e, rest, w')
            | (None, w') =>
                if Qlt_bool t tend
                then read_and_set_co2 tstrt tend rest (print t r w')
                else (Returned, rest, print t r w')
            end
        end
      else if Qlt_bool t tend then read_and_set_co2 tstrt tend rest w
      else (Returned, rest, w)
  end.

(** ** What a call reads and what it sends *)

(** The lines that a call reads: up to and including the first whose year
    is not before [tend]. *)
Fixpoint consumed (tend : Q) (stream : list string) : list string :=
  match stream with
  | [] => []
  | line :: rest => if Qlt_bool (year line) tend then line :: consumed tend rest else [line]
  end.

(** Whether some line of the stream has a year that is not before [tend]. *)
Definition reaches (tend : Q) (stream : list string) : bool :=
  existsb (fun line => negb (Qlt_bool (year line) tend)) stream.

Definition tag (m : string * message_data) : string * string * message_data :=
  (Hector.M_SETDATA, fst m, snd m).

(** The messages of a line: nine when its year is in range, none otherwise. *)
Definition row_messages (tstrt : Q) (line : string) : list (string * string * message_data) :=
  if in_range tstrt (year line) then
    match read_row (split line) with
    | Some r => map tag (messages (year line) r)
    | None => []
    end
  else [].

(** The row printed for a line. *)
Definition row_printed (tstrt : Q) (line : string) : list (Q * emissions) :=
  if in_range tstrt (year line) then
    match read_row (split line) with
    | Some r => [(year line, r)]
    | None => []
    end
  else [].

(** The core after a list of messages. *)
Definition delivered (msgs : list (string * string * message_data)) (c : Core) : Core :=
  fold_left (fun c0 m => snd (Hector.sendMessage (fst (fst m)) (snd (fst m)) (snd m) c0))
            msgs c.

(** Whether the core, from the state [c] on, answers the messages [msgs]
    one after the other. *)
Fixpoint answers (msgs : list (string * string * message_data)) (c : Core) : bool :=
  match msgs with
  | [] => true
  | m :: rest =>
      match Hector.sendMessage (fst (fst m)) (snd (fst m)) (snd m) c with
      | (Return _, c') => answers rest c'
      | (Throw _, _) => false
      end
  end.

(** Every line of a list whose year is in range has the 34 fields that the
    driver reads. *)
Definition wide (tstrt : Q) (lines : list string) : Prop :=
  Forall (fun line => in_range tstrt (year line) = true ->
                      (34 <= length (split line))%nat) lines.

Lemma Qlt_bool_inv_false (x y : Q) : Qlt_bool x y = false -> y <= x.
Proof. unfold Qlt_bool. destruct (Qlt_le_dec x y); [discriminate | auto]. Qed.

Lemma Qlt_bool_inv_true (x y : Q) : Qlt_bool x y = true -> x < y.
Proof. unfold Qlt_bool. destruct (Qlt_le_dec x y); [auto | discriminate]. Qed.

Lemma in_range_inv (tstrt t : Q) : in_range tstrt t = true -> tstrt <= t /\ 2010 < t.
Proof.
  unfold in_range. intros H. apply andb_prop in H as [H1 H2].
  split; [apply Qle_bool_iff, H1 | apply Qlt_bool_inv_true, H2].
Qed.

Lemma send_all_None (msgs : list (string * message_data)) (w w' : state) :
  send_all msgs w = (None, w') ->
  w' = {| core := delivered (map tag msgs) (core w);
          sent := sent w ++ map tag msgs;
          cout := cout w |}.
Proof.
  revert w. induction msgs as [|[cap info] msgs IH]; intros w H; simpl in H.
  - injection H as <-. simpl. rewrite app_nil_r. destruct w; reflexivity.
  - destruct (Hector.sendMessage Hector.M_SETDATA cap info (core w)) as [[u|e] c'] eqn:Es;
      [|discriminate].
    rewrite (IH _ H). simpl. rewrite Es, <- app_assoc. reflexivity.
Qed.

Lemma send_all_sent (msgs : list (string * message_data)) (w : state) :
  exists k, sent (snd (send_all msgs w)) = sent w ++ map tag (take k msgs) /\
            cout (snd (send_all msgs w)) = cout w.
Proof.
  revert w. induction msgs as [|[cap info] msgs IH]; intros w; simpl.
  - exists 0%nat. simpl. rewrite app_nil_r. auto.
  - destruct (Hector.sendMessage Hector.M_SETDATA cap info (core w)) as [[u|e] c'].
    + match goal with |- context [send_all msgs ?w0] => destruct (IH w0) as (k & Hk & Hc) end.
      exists (S k). rewrite Hk, Hc. simpl. rewrite <- app_assoc. auto.
    + exists 1%nat. simpl. destruct msgs; auto.
Qed.

Lemma answers_app (msgs more : list (string * string * message_data)) (c : Core) :
  answers (msgs ++ more) c = answers msgs c && answers more (delivered msgs c).
Proof.
  unfold delivered.
  revert c. induction msgs as [|m msgs IH]; intros c; [reflexivity|].
  cbn [app answers fold_left].
  destruct (Hector.sendMessage (fst (fst m)) (snd (fst m)) (snd m) c) as [[u|e] c'];
    [apply IH | reflexivity].
Qed.

Lemma send_all_answers (msgs : list (string * message_data)) (w : state) :
  answers (map tag msgs) (core w) = true -> fst (send_all msgs w) = None.
Proof.
  revert w. induction msgs as [|[cap info] msgs IH]; intros w H; simpl in *; [reflexivity|].
  destruct (Hector.sendMessage Hector.M_SETDATA cap info (core w)) as [[u|e] c'];
    [|discriminate].
  apply IH. exact H.
Qed.

Lemma read_row_wide (splitvec : list string) :
  (34 <= length splitvec)%nat -> exists r, read_row splitvec = Some r.
Proof.
  intros H. unfold read_row.
  assert (Hl : forall i, (i < 34)%nat -> exists s, splitvec !! i = Some s).
  { intros i Hi. apply lookup_lt_is_Some_2. lia. }
  destruct (Hl 1%nat) as [s1 ->]; [lia|]. destruct (Hl 2%nat) as [s2 ->]; [lia|].
  destruct (Hl 3%nat) as [s3 ->]; [lia|]. destruct (Hl 7%nat) as [s7 ->]; [lia|].
  destruct (Hl 11%nat) as [s11 ->]; [lia|]. destruct (Hl 12%nat) as [s12 ->]; [lia|].
  destruct (Hl 14%nat) as [s14 ->]; [lia|]. destruct (Hl 33%nat) as [s33 ->]; [lia|].
  simpl. eauto.
Qed.

Lemma read_row_short (splitvec : list string) :
  (length splitvec < 34)%nat -> read_row splitvec = None.
Proof.
  intros H. unfold read_row.
  assert (H33 : splitvec !! 33%nat = None) by (apply lookup_ge_None; lia).
  rewrite H33.
  destruct (splitvec !! 1%nat); [|reflexivity]. destruct (splitvec !! 2%nat); [|reflexivity].
  destruct (splitvec !! 3%nat); [|reflexivity]. destruct (splitvec !! 7%nat); [|reflexivity].
  destruct (splitvec !! 11%nat); [|reflexivity]. destruct (splitvec !! 12%nat); [|reflexivity].
  destruct (splitvec !! 14%nat); reflexivity.
Qed.

Lemma row_step (tstrt : Q) (line : string) (r : emissions) (w w1 : state) :
  in_range tstrt (year line) = true ->
  read_row (split line) = Some r ->
  send_all (messages (year line) r) w = (None, w1) ->
  print (year line) r w1
  = {| core := delivered (row_messages tstrt line) (core w);
       sent := sent w ++ row_messages tstrt line;
       cout := cout w ++ row_printed tstrt line |}.
Proof.
  intros Hin Hr Hs. unfold row_messages, row_printed. rewrite Hin, Hr.
  rewrite (send_all_None _ _ _ Hs). reflexivity.
Qed.

Lemma row_skipped (tstrt : Q) (line : string) (w : state) :
  in_range tstrt (year line) = false ->
  w = {| core := delivered (row_messages tstrt line) (core w);
         sent := sent w ++ row_messages tstrt line;
         cout := cout w ++ row_printed tstrt line |}.
Proof.
  intros Hin. unfold row_messages, row_printed. rewrite Hin. simpl.
  rewrite !app_nil_r. destruct w; reflexivity.
Qed.

Lemma returned_state (tstrt tend : Q) (stream rest : list string) (w w' : state) :
  read_and_set_co2 tstrt tend stream w = (Returned, rest, w') ->
  let rows := consumed tend stream in
  stream = rows ++ rest /\
  w' = {| core := delivered (flat_map (row_messages tstrt) rows) (core w);
          sent := sent w ++ flat_map (row_messages tstrt) rows;
          cout := cout w ++ flat_map (row_printed tstrt) rows |} /\
  length (flat_map (row_messages tstrt) rows)
  = (9 * length (List.filter (fun l => in_range tstrt (year l)) rows))%nat /\
  (reaches tend stream = true \/ (rest = [] /\ tend <= year EmptyString)).
Proof.
  revert w. induction stream as [|line stream IH]; intros w H; cbv zeta.
  - simpl in H.
    destruct (in_range tstrt (year EmptyString)); [discriminate|].
    destruct (Qlt_bool (year EmptyString) tend) eqn:Hlt; [discriminate|].
    injection H as <- <-. simpl. rewrite !app_nil_r.
    split; [reflexivity|]. split; [destruct w; reflexivity|]. split; [reflexivity|].
    right. split; [reflexivity | apply Qlt_bool_inv_false, Hlt].
  - cbn [read_and_set_co2] in H. cbv zeta in H. cbn [consumed reaches existsb].
    assert (Hstep : forall w1,
              w1 = {| core := delivered (row_messages tstrt line) (core w);
                      sent := sent w ++ row_messages tstrt line;
                      cout := cout w ++ row_printed tstrt line |} ->
              length (row_messages tstrt line)
              = (if in_range tstrt (year line) then 9 else 0)%nat ->
              (if Qlt_bool (year line) tend
               then read_and_set_co2 tstrt tend stream w1
               else (Returned, stream, w1)) = (Returned, rest, w') ->
              let rows := if Qlt_bool (year line) tend
                          then line :: consumed tend stream else [line] in
              line :: stream = rows ++ rest /\
              w' = {| core := delivered (flat_map (row_messages tstrt) rows) (core w);
                      sent := sent w ++ flat_map (row_messages tstrt) rows;
                      cout := cout w ++ flat_map (row_printed tstrt) rows |} /\
              length (flat_map (row_messages tstrt) rows)
              = (9 * length (List.filter (fun l => in_range tstrt (year l)) rows))%nat /\
              (negb (Qlt_bool (year line) tend) || reaches tend stream = true
               \/ (rest = [] /\ tend <= year EmptyString))).
    { intros w1 Hw1 Hlen Hk. cbv zeta.
      destruct (Qlt_bool (year line) tend).
      - destruct (IH w1 Hk) as (Hs & Hw & Hl & Hr). cbv zeta in Hs, Hw, Hl.
        split; [simpl; rewrite <- Hs; reflexivity|]. split; [|split].
        + rewrite Hw, Hw1. cbn [flat_map core sent cout].
          unfold delivered. rewrite fold_left_app, <- !app_assoc. reflexivity.
        + cbn [flat_map List.filter]. rewrite length_app, Hl, Hlen.
          destruct (in_range tstrt (year line)); simpl; lia.
        + simpl. exact Hr.
      - injection Hk as <- <-.
        split; [reflexivity|]. split; [|split].
        + rewrite Hw1. cbn [flat_map]. rewrite !app_nil_r. reflexivity.
        + cbn [flat_map List.filter]. rewrite app_nil_r, Hlen.
          destruct (in_range tstrt (year line)); reflexivity.
        + left. reflexivity. }
    destruct (in_range tstrt (year line)) eqn:Hin.
    + destruct (read_row (split line)) as [r|] eqn:Hr; [|discriminate].
      destruct (send_all (messages (year line) r) w) as [[e|] w1] eqn:Hs; [discriminate|].
      apply (Hstep (print (year line) r w1)).
      * apply (row_step tstrt line r w w1 Hin Hr Hs).
      * unfold row_messages. rewrite Hin, Hr. reflexivity.
      * exact H.
    + apply (Hstep w).
      * apply row_skipped, Hin.
      * unfold row_messages. rewrite Hin. reflexivity.
      * exact H.
Qed.

(** X14. When [read_and_set_co2] returns, it has read the lines of the
    stream up to and including the first whose year is not before [tend], and
    left the lines after it; for every line read whose year is at least
    [tstrt] and after 2010 it has sent the nine set-messages of the line, in
    order, and printed the row, and for the other lines nothing; and the core
    is the core after those messages. *)
Theorem read_and_set_co2_reads_through_tend
  (tstrt tend : Q) (stream rest : list string) (w w' : state) :
  read_and_set_co2 tstrt tend stream w = (Returned, rest, w') ->
  let rows := consumed tend stream in
  stream = rows ++ rest /\
  sent w' = sent w ++ flat_map (row_messages tstrt) rows /\
  length (sent w')
  = (length (sent w)
     + 9 * length (List.filter (fun l => in_range tstrt (year l)) rows))%nat /\
  cout w' = cout w ++ flat_map (row_printed tstrt) rows /\
  core w' = delivered (flat_map (row_messages tstrt) rows) (core w) /\
  (reaches tend stream = true \/ (rest = [] /\ tend <= year EmptyString)).
Proof.
  intros H. destruct (returned_state tstrt tend stream rest w w' H) as (Hs & -> & Hl & Hr).
  cbv zeta. cbn [core sent cout]. rewrite length_app, Hl. auto 10.
Qed.

(** A line in range that is wide and whose messages the core answers is read,
    sent and printed. *)
Lemma row_answered (tstrt : Q) (line : string)
  (more : list (string * string * message_data)) (w : state) :
  in_range tstrt (year line) = true ->
  (34 <= length (split line))%nat ->
  answers (row_messages tstrt line ++ more) (core w) = true ->
  exists r w1,
    read_row (split line) = Some r /\
    send_all (messages (year line) r) w = (None, w1) /\
    print (year line) r w1
    = {| core := delivered (row_messages tstrt line) (core w);
         sent := sent w ++ row_messages tstrt line;
         cout := cout w ++ row_printed tstrt line |} /\
    answers more (delivered (row_messages tstrt line) (core w)) = true.
Proof.
  intros Hin Hwide Ha.
  destruct (read_row_wide _ Hwide) as [r Hr].
  rewrite answers_app in Ha. apply andb_prop in Ha as [Ha Hmore].
  assert (Hrow : row_messages tstrt line = map tag (messages (year line) r)).
  { unfold row_messages. rewrite Hin, Hr. reflexivity. }
  rewrite Hrow in Ha.
  pose proof (send_all_answers _ w Ha) as Hn.
  destruct (send_all (messages (year line) r) w) as [o w1] eqn:Hs. simpl in Hn. subst o.
  exists r, w1. split; [exact Hr|]. split; [exact Hs|].
  split; [apply (row_step tstrt line r w w1 Hin Hr Hs) | exact Hmore].
Qed.

Lemma row_skipped_messages (tstrt : Q) (line : string) :
  in_range tstrt (year line) = false -> row_messages tstrt line = [].
Proof. intros Hin. unfold row_messages. rewrite Hin. reflexivity. Qed.

(** X15. [read_and_set_co2] returns whenever some line of the stream has a
    year that is not before [tend], the lines it reads up to that one have
    their 34 fields where their year is in range, and the core answers the
    set-messages of those lines, one after the other from the state it is
    in. *)
Theorem read_and_set_co2_returns_when_a_row_reaches_tend
  (tstrt tend : Q) (stream : list string) (w : state) :
  reaches tend stream = true ->
  wide tstrt (consumed tend stream) ->
  answers (flat_map (row_messages tstrt) (consumed tend stream)) (core w) = true ->
  exists rest w', read_and_set_co2 tstrt tend stream w = (Returned, rest, w').
Proof.
  revert w. induction stream as [|line stream IH]; intros w Hr Hw Ha; [discriminate|].
  cbn [read_and_set_co2]. cbv zeta. cbn [consumed reaches existsb] in Hw, Hr, Ha.
  assert (Hk : forall w1,
            answers (flat_map (row_messages tstrt)
                       (if Qlt_bool (year line) tend then consumed tend stream else []))
                    (core w1) = true ->
            exists rest w',
              (if Qlt_bool (year line) tend
               then read_and_set_co2 tstrt tend stream w1
               else (Returned, stream, w1)) = (Returned, rest, w')).
  { intros w1 Ha1. destruct (Qlt_bool (year line) tend); [|eauto].
    apply IH; [exact Hr | | exact Ha1]. apply Forall_cons in Hw as [_ Hw]. exact Hw. }
  assert (Hrows : flat_map (row_messages tstrt)
                    (if Qlt_bool (year line) tend then line :: consumed tend stream
                     else [line])
                  = row_messages tstrt line
                    ++ flat_map (row_messages tstrt)
                         (if Qlt_bool (year line) tend then consumed tend stream else [])).
  { destruct (Qlt_bool (year line) tend); reflexivity. }
  rewrite Hrows in Ha.
  destruct (in_range tstrt (year line)) eqn:Hin.
  - assert (Hwide : (34 <= length (split line))%nat).
    { destruct (Qlt_bool (year line) tend); apply Forall_cons in Hw as [Hl _];
        apply Hl, Hin. }
    destruct (row_answered tstrt line _ w Hin Hwide Ha) as (r & w1 & -> & -> & Hp & Hmore).
    apply Hk. rewrite Hp. exact Hmore.
  - rewrite (row_skipped_messages _ _ Hin) in Ha. apply Hk, Ha.
Qed.

(** X17. A line in range with fewer than 34 fields makes [read_and_set_co2]
    read [splitvec] past its end.  When the lines before it have years before
    [tend], have their 34 fields where their year is in range, and the core
    answers their set-messages, the call gets to that line and ends there: the
    stream holds the lines after it, and none of the messages of that line
    has been sent, since the eight reads come before the first send. *)
Theorem read_and_set_co2_short_row_is_read_out_of_range
  (tstrt tend : Q) (pre post : list string) (line : string) (w : state) :
  Forall (fun l => year l < tend) pre ->
  wide tstrt pre ->
  answers (flat_map (row_messages tstrt) pre) (core w) = true ->
  in_range tstrt (year line) = true ->
  (length (split line) < 34)%nat ->
  exists w',
    read_and_set_co2 tstrt tend (pre ++ line :: post) w = (OutOfRange, post, w') /\
    sent w' = sent w ++ flat_map (row_messages tstrt) pre.
Proof.
  intros Hlt Hw Ha Hin Hshort. revert w Ha.
  induction pre as [|l pre IH]; intros w Ha.
  - exists w. cbn [app read_and_set_co2]. cbv zeta.
    rewrite Hin, (read_row_short _ Hshort). simpl. rewrite app_nil_r. auto.
  - apply Forall_cons in Hw as [Hl Hw]. apply Forall_cons in Hlt as [Hl' Hlt].
    specialize (IH Hlt Hw).
    cbn [app read_and_set_co2]. cbv zeta. rewrite (Qlt_bool_true _ _ Hl').
    cbn [flat_map] in Ha.
    destruct (in_range tstrt (year l)) eqn:Hin'.
    + destruct (row_answered tstrt l _ w Hin' (Hl eq_refl) Ha)
        as (r & w1 & -> & -> & Hp & Hmore).
      rewrite Hp.
      match goal with |- context [read_and_set_co2 _ _ _ ?w0] =>
        destruct (IH w0 Hmore) as (w' & -> & Hsent)
      end.
      exists w'. split; [reflexivity|].
      rewrite Hsent. cbn [sent flat_map]. rewrite <- app_assoc. reflexivity.
    + rewrite (row_skipped_messages _ _ Hin') in Ha.
      destruct (IH w Ha) as (w' & -> & Hsent). exists w'.
      split; [reflexivity|].
      rewrite Hsent. cbn [flat_map]. rewrite (row_skipped_messages _ _ Hin'). reflexivity.
Qed.

(** A set-message dated with the year of a line of the stream, a year that
    is at least [tstrt] and after 2010. *)
Definition of_row_in_range (tstrt : Q) (stream : list string)
  (m : string * string * message_data) : Prop :=
  fst (fst m) = Hector.M_SETDATA /\
  tstrt <= md_date (snd m) /\ 2010 < md_date (snd m) /\
  exists line, In line stream /\ md_date (snd m) = year line.

Lemma messages_dates (t : Q) (r : emissions) :
  Forall (fun m => md_date (snd m) = t) (messages t r).
Proof. unfold messages. repeat constructor. Qed.

(** X18. However a call of [read_and_set_co2] ends, every message it has
    sent is a set-message dated with the year of a line of the stream, and
    that year is at least [tstrt] and after 2010; what had been sent before
    the call is still there, in front. *)
Theorem read_and_set_co2_sends_only_years_in_range
  (tstrt tend : Q) (stream : list string) (w : state) :
  exists new,
    sent (snd (read_and_set_co2 tstrt tend stream w)) = sent w ++ new /\
    Forall (of_row_in_range tstrt stream) new.
Proof.
  revert w. induction stream as [|line stream IH]; intros w.
  - exists []. split; [|constructor]. rewrite app_nil_r. simpl.
    destruct (in_range tstrt (year EmptyString)); [reflexivity|].
    destruct (Qlt_bool (year EmptyString) tend); reflexivity.
  - assert (Hweak : forall new,
              Forall (of_row_in_range tstrt stream) new ->
              Forall (of_row_in_range tstrt (line :: stream))
                     new).
    { intros new Hn. eapply Forall_impl; [exact Hn|].
      intros m (H1 & H2 & H3 & l & Hl & Hd).
      split; [exact H1|]. split; [exact H2|]. split; [exact H3|].
      exists l. split; [right; exact Hl | exact Hd]. }
    cbn [read_and_set_co2]. cbv zeta.
    destruct (in_range tstrt (year line)) eqn:Hin.
    + destruct (in_range_inv _ _ Hin) as [Hge Hgt].
      destruct (read_row (split line)) as [r|].
      2:{ exists []. split; [rewrite app_nil_r; reflexivity | constructor]. }
      destruct (send_all_sent (messages (year line) r) w) as (k & Hk & _).
      assert (Hrow : Forall (of_row_in_range tstrt (line :: stream))
                            (map tag (take k (messages (year line) r)))).
      { apply Forall_map, Forall_take.
        eapply Forall_impl; [apply messages_dates|].
        intros m Hm. unfold of_row_in_range. simpl. rewrite Hm.
        split; [reflexivity|]. split; [exact Hge|]. split; [exact Hgt|].
        exists line. split; [left; reflexivity | reflexivity]. }
      destruct (send_all (messages (year line) r) w) as [[e|] w1]; cbn [snd] in Hk.
      * exists (map tag (take k (messages (year line) r))). split; [exact Hk | exact Hrow].
      * destruct (Qlt_bool (year line) tend).
        -- destruct (IH (print (year line) r w1)) as (new & Hnew & Hall).
           exists (map tag (take k (messages (year line) r)) ++ new).
           split.
           ++ rewrite Hnew. cbn [print sent]. rewrite Hk, <- app_assoc. reflexivity.
           ++ apply Forall_app. split; [exact Hrow | apply Hweak, Hall].
        -- exists (map tag (take k (messages (year line) r))).
           split; [exact Hk | exact Hrow].
    + destruct (Qlt_bool (year line) tend).
      * destruct (IH w) as (new & Hnew & Hall). exists new.
        split; [exact Hnew | apply Hweak, Hall].
      * exists []. split; [rewrite app_nil_r; reflexivity | constructor].
Qed.

(** ** The loop round by round, on any stream *)

(** The text stream as [std::getline] sees it: the lines still to be read
    that end with a newline; what follows the last newline, when the file
    does not end with one; and whether the stream is good, that is neither at
    its end nor failed. *)
Record istream : Type := mk_istream {
  lines : list string;
  last_line : option string;
  good : bool
}.

(** [std::getline(sim_gcam_emiss, line)].  On a stream that is not good
    nothing is extracted and [line] keeps what it holds.  Otherwise the line
    is emptied and filled up to the next newline; when the end of the file
    comes first the stream is at its end from then on, with what was left
    before it in the line. *)
Definition getline (sim_gcam_emiss : istream) (line : string) : istream * string :=
  if good sim_gcam_emiss then
    match lines sim_gcam_emiss with
    | l :: rest => (mk_istream rest (last_line sim_gcam_emiss) true, l)
    | [] => (mk_istream [] None false, default EmptyString (last_line sim_gcam_emiss))
    end
  else (sim_gcam_emiss, line).

(** The body of the loop for the line at hand, and its test: [inl] when the
    call ends there, [inr] when the loop goes round again. *)
Definition round (tstrt tend : Q) (line : string) (w : state) : (ending + unit) * state :=
  let splitvec := split line in
  let t := year line in
  if in_range tstrt t then
    match read_row splitvec with
    | None => (inl OutOfRange, w)
    | Some r =>
        match send_all (messages t r) w with
        | (Some e, w') => (inl (Threw e), w')
        | (None, w') => (if Qlt_bool t tend then inr tt else inl Returned, print t r w')
        end
    end
  else (if Qlt_bool t tend then inr tt else inl Returned, w).

(** The [do ... while] of [read_and_set_co2], for at most [fuel] rounds:
    [None] when the loop is still going after them. *)
Fixpoint rounds (fuel : nat) (tstrt tend : Q) (sim_gcam_emiss : istream) (line : string)
  (w : state) : option ending * istream * state :=
  match fuel with
  | O => (None, sim_gcam_emiss, w)
  | S n =>
      let (stream', line') := getline sim_gcam_emiss line in
      match round tstrt tend line' w with
      | (inl e, w') => (Some e, stream', w')
      | (inr _, w') => rounds n tstrt tend stream' line' w'
      end
  end.

(** The line that round [i] of the loop finds, counting from 0: the lines of
    the stream in order, then the rest of a file that does not end with a
    newline, and from then on what the line holds at that time, since
    [getline] no longer touches it. *)
Definition line_found (sim_gcam_emiss : istream) (line : string) (i : nat) : string :=
  if good sim_gcam_emiss
  then nth i (lines sim_gcam_emiss) (default EmptyString (last_line sim_gcam_emiss))
  else line.

(** All the lines of a stream. *)
Definition all_lines (sim_gcam_emiss : istream) : list string :=
  if good sim_gcam_emiss
  then lines sim_gcam_emiss ++ option_list (last_line sim_gcam_emiss)
  else [].

Lemma line_found_getline (strm : istream) (line : string) :
  line_found strm line 0 = snd (getline strm line) /\
  forall i, line_found strm line (S i)
            = line_found (fst (getline strm line)) (snd (getline strm line)) i.
Proof.
  unfold line_found, getline. destruct strm as [ls last [|]]; cbn [good lines last_line].
  - destruct ls as [|l rest]; cbn [fst snd good lines last_line nth].
    + split; [reflexivity|]. intros i. destruct i; reflexivity.
    + split; reflexivity.
  - split; reflexivity.
Qed.

Lemma line_found_in (strm : istream) (i : nat) :
  In (line_found strm EmptyString i) (EmptyString :: all_lines strm).
Proof.
  unfold line_found, all_lines. destruct (good strm); [|left; reflexivity].
  destruct (Nat.lt_ge_cases i (length (lines strm))) as [Hi|Hi].
  - right. apply in_or_app. left. apply nth_In, Hi.
  - rewrite nth_overflow by exact Hi.
    destruct (last_line strm); [|left; reflexivity].
    right. apply in_or_app. right. left. reflexivity.
Qed.

Lemma round_goes_on (tstrt tend : Q) (line : string)
  (more : list (string * string * message_data)) (w : state) :
  year line < tend ->
  (in_range tstrt (year line) = true -> (34 <= length (split line))%nat) ->
  answers (row_messages tstrt line ++ more) (core w) = true ->
  round tstrt tend line w
  = (inr tt, {| core := delivered (row_messages tstrt line) (core w);
                sent := sent w ++ row_messages tstrt line;
                cout := cout w ++ row_printed tstrt line |}) /\
  answers more (delivered (row_messages tstrt line) (core w)) = true.
Proof.
  intros Hlt Hwide Ha. unfold round. cbv zeta. rewrite (Qlt_bool_true _ _ Hlt).
  destruct (in_range tstrt (year line)) eqn:Hin.
  - destruct (row_answered tstrt line more w Hin (Hwide eq_refl) Ha)
      as (r & w1 & -> & -> & Hp & Hmore).
    rewrite Hp. auto.
  - split.
    + f_equal. apply row_skipped, Hin.
    + rewrite (row_skipped_messages _ _ Hin) in Ha |- *. exact Ha.
Qed.

Lemma round_not_returned (tstrt tend : Q) (line : string) (w : state) :
  year line < tend -> fst (round tstrt tend line w) <> inl Returned.
Proof.
  intros Hlt. unfold round. cbv zeta. rewrite (Qlt_bool_true _ _ Hlt).
  destruct (in_range tstrt (year line)); [|discriminate].
  destruct (read_row (split line)) as [r|]; [|discriminate].
  destruct (send_all (messages (year line) r) w) as [[ex|] w']; discriminate.
Qed.

Lemma rounds_not_returned (fuel : nat) (tstrt tend : Q) (strm : istream) (line : string)
  (w : state) :
  (forall i, year (line_found strm line i) < tend) ->
  fst (fst (rounds fuel tstrt tend strm line w)) <> Some Returned.
Proof.
  revert strm line w. induction fuel as [|n IH]; intros strm line w Hf; [discriminate|].
  cbn [rounds].
  destruct (line_found_getline strm line) as [H0 HS].
  destruct (getline strm line) as [strm' line']. cbn [fst snd] in H0, HS.
  pose proof (round_not_returned tstrt tend line' w) as Hr.
  destruct (round tstrt tend line' w) as [[e|[]] w'].
  - cbn [fst]. intros H. injection H as ->. apply Hr; [|reflexivity].
    rewrite <- H0. apply Hf.
  - apply IH. intros i. rewrite <- HS. apply Hf.
Qed.

Lemma rounds_go_on (fuel : nat) (tstrt tend : Q) (strm : istream) (line : string)
  (w : state) :
  let found := map (line_found strm line) (seq 0 fuel) in
  Forall (fun l => year l < tend) found ->
  wide tstrt found ->
  answers (flat_map (row_messages tstrt) found) (core w) = true ->
  exists strm' w',
    rounds fuel tstrt tend strm line w = (None, strm', w') /\
    sent w' = sent w ++ flat_map (row_messages tstrt) found /\
    cout w' = cout w ++ flat_map (row_printed tstrt) found.
Proof.
  revert strm line w. induction fuel as [|n IH]; intros strm line w found Hlt Hw Ha.
  - exists strm, w. simpl. rewrite !app_nil_r. auto.
  - subst found. cbn [seq map] in Hlt, Hw, Ha |- *.
    rewrite <- seq_shift, map_map in Hlt, Hw, Ha |- *.
    destruct (line_found_getline strm line) as [H0 HS].
    rewrite (map_ext _ _ HS) in Hlt, Hw, Ha |- *. rewrite H0 in Hlt, Hw, Ha |- *.
    cbn [rounds].
    destruct (getline strm line) as [strm' line']. cbn [fst snd] in *.
    apply Forall_cons in Hlt as [Hl Hlt]. apply Forall_cons in Hw as [Hwl Hw].
    cbn [flat_map] in Ha.
    destruct (round_goes_on tstrt tend line' _ w Hl Hwl Ha) as [-> Hmore].
    match goal with |- context [rounds n _ _ _ _ ?w0] =>
      destruct (IH strm' line' w0 Hlt Hw Hmore) as (strm'' & w' & -> & Hs & Hc)
    end.
    exists strm'', w'. split; [reflexivity|].
    rewrite Hs, Hc. cbn [sent cout flat_map]. rewrite <- !app_assoc. auto.
Qed.

(** X16. On a stream none of whose lines has a year that is not before
    [tend], with [atof] reading the empty line as 0 and a positive [tend], a
    call of [read_and_set_co2] never returns, whether the stream ends with a
    newline or not: after any number of rounds of its loop it has not
    returned.  As long as the lines it finds have their 34 fields where their
    year is in range and the core answers their set-messages, it is still
    going after [n] rounds and has sent and printed what the [n] lines it
    found ask for: these are the lines of the stream, once each, and then,
    round after round, the empty line when the stream ended with a newline,
    for which nothing is sent, and the last line again when it did not. *)
Theorem read_and_set_co2_loops_at_end_of_stream
  (tstrt tend : Q) (sim_gcam_emiss : istream) (w : state) (n : nat) :
  atof EmptyString = 0 ->
  0 < tend ->
  reaches tend (all_lines sim_gcam_emiss) = false ->
  let found := map (line_found sim_gcam_emiss EmptyString) (seq 0 n) in
  fst (fst (rounds n tstrt tend sim_gcam_emiss EmptyString w)) <> Some Returned /\
  (wide tstrt found ->
   answers (flat_map (row_messages tstrt) found) (core w) = true ->
   exists stream' w',
     rounds n tstrt tend sim_gcam_emiss EmptyString w = (None, stream', w') /\
     sent w' = sent w ++ flat_map (row_messages tstrt) found /\
     cout w' = cout w ++ flat_map (row_printed tstrt) found).
Proof.
  intros H0 Ht Hr found.
  assert (Hy : year EmptyString = 0) by exact H0.
  assert (Hlt : forall i, year (line_found sim_gcam_emiss EmptyString i) < tend).
  { intros i. destruct (line_found_in sim_gcam_emiss i) as [<-|Hin].
    - rewrite Hy. exact Ht.
    - unfold reaches in Hr.
      destruct (Qlt_bool (year (line_found sim_gcam_emiss EmptyString i)) tend) eqn:Hb;
        [apply Qlt_bool_inv_true, Hb|].
      assert (He : existsb (fun line => negb (Qlt_bool (year line) tend))
                           (all_lines sim_gcam_emiss) = true).
      { apply List.existsb_exists. eexists. split; [exact Hin|]. rewrite Hb. reflexivity. }
      congruence. }
  split.
  - apply rounds_not_returned, Hlt.
  - intros Hw Ha. apply rounds_go_on; [|exact Hw | exact Ha].
    apply List.Forall_forall. intros l Hl. apply List.in_map_iff in Hl as (i & <- & _).
    apply Hlt.
Qed.

(** ** The two descriptions of the loop agree *)

Lemma rounds_spin (n : nat) (tstrt tend : Q) (strm : istream) (line : string) (w : state) :
  good strm = false ->
  in_range tstrt (year line) = false ->
  Qlt_bool (year line) tend = true ->
  rounds n tstrt tend strm line w = (None, strm, w).
Proof.
  intros Hg Hin Hlt. induction n as [|n IH]; [reflexivity|].
  cbn [rounds]. unfold getline. rewrite Hg. unfold round. cbv zeta.
  rewrite Hin, Hlt. exact IH.
Qed.

(** On a stream that ends with a newline, the loop run for more rounds than
    the stream has lines does what [read_and_set_co2] says: it ends the same
    way, with the same lines left and in the same state, and where
    [read_and_set_co2] says that the loop goes on for ever it is still going
    after any number of rounds. *)
Lemma rounds_read_and_set_co2 (tstrt tend : Q) (stream : list string) (fuel : nat)
  (line : string) (w : state) :
  (length stream < fuel)%nat ->
  let r := read_and_set_co2 tstrt tend stream w in
  let q := rounds fuel tstrt tend (mk_istream stream None true) line w in
  fst (fst q) = match fst (fst r) with Diverges => None | e => Some e end /\
  lines (snd (fst q)) = snd (fst r) /\
  snd q = snd r.
Proof.
  revert fuel line w. induction stream as [|l stream IH]; intros fuel line w Hf;
    (destruct fuel as [|n]; [simpl in Hf; lia|]); cbv zeta.
  - cbn [rounds read_and_set_co2]. unfold getline. cbn [good lines last_line default].
    unfold round. cbv zeta.
    destruct (in_range tstrt (year EmptyString)) eqn:Hin; [repeat split|].
    destruct (Qlt_bool (year EmptyString) tend) eqn:Hlt; [|repeat split].
    rewrite (rounds_spin n tstrt tend (mk_istream [] None false) EmptyString w
               eq_refl Hin Hlt).
    repeat split.
  - cbn [rounds read_and_set_co2]. unfold getline. cbn [good lines last_line].
    unfold round. cbv zeta.
    assert (Hn : (length stream < n)%nat) by (simpl in Hf; lia).
    destruct (in_range tstrt (year l)).
    + destruct (read_row (split l)) as [r|]; [|repeat split].
      destruct (send_all (messages (year l) r) w) as [[e|] w1]; [repeat split|].
      destruct (Qlt_bool (year l) tend); [apply (IH n l _ Hn) | repeat split].
    + destruct (Qlt_bool (year l) tend); [apply (IH n l _ Hn) | repeat split].
Qed.

End Driver.

End MainApi.

(* ===================================================================== *)
(** * The properties above at concrete inputs *)
(* ===================================================================== *)

Module Checks.

(** A stand-in for the core: a clock, the set-messages it has taken and its
    biomes.  It refuses a message with a negative value. *)
Record ledger : Type := mk_ledger {
  clock : Q;
  inbox : list (string * message_data);
  biome_list : list string
}.

Definition set_clock (c : ledger) (d : Q) : ledger :=
  {| clock := d; inbox := inbox c; biome_list := biome_list c |}.

Definition set_biomes (c : ledger) (b : list string) : ledger :=
  {| clock := clock c; inbox := inbox c; biome_list := b |}.

#[local] Instance ledger_ops : Hector.CoreOps ledger := {|
  Hector.M_SETDATA := "setData";
  Hector.undefinedIndex := - (1);
  Hector.parseUnitsName :=
    fun u => if String.eqb u "Pg C/yr" then Return U_PGC_YR else Throw UnknownUnit;
  Hector.unitsName :=
    fun u => match u with U_PGC_YR => "Pg C/yr" | _ => "(undefined)" end;
  Hector.getStartDate := fun _ => 2000;
  Hector.getEndDate := fun _ => 2100;
  Hector.getTrackingDate := fun _ => 2000;
  Hector.getCurrentDate := clock;
  Hector.reset := fun d c => (Return tt, set_clock c (if Qlt_bool d 2000 then 2000 else d));
  Hector.run := fun d c => (Return tt, if Qlt_bool 0 d then set_clock c d else set_clock c 2100);
  Hector.sendMessage :=
    fun m cap info c =>
      if Qlt_bool (uv_magnitude (md_value info)) 0 then (Throw NegativePool, c)
      else (Return (md_value info),
            {| clock := clock c; inbox := inbox c ++ [(cap, info)];
               biome_list := biome_list c |});
  Hector.getTrackingData := fun _ => [];
  Hector.getBiomeList := biome_list;
  Hector.createBiome := fun b c => (Return tt, set_biomes c (biome_list c ++ [b]));
  Hector.deleteBiome :=
    fun b c => (Return tt,
                set_biomes c (List.filter (fun x => negb (String.eqb x b)) (biome_list c)));
  Hector.renameBiome :=
    fun a b c => (Return tt,
                  set_biomes c (map (fun x => if String.eqb x a then b else x) (biome_list c)))
|}.

Definition ledger2020 : ledger := mk_ledger 2020 [] ["global"].

(** A clean handle on a core that stands at 2020. *)
Definition clean2020 : Rcpp.session ledger :=
  Rcpp.mk_session (Rcpp.mk_Environment 1 2000 2100 2000 "hector.ini" "check" true 0)
                  {[ 1%Z := ledger2020 ]} [] [].

(** The same core behind a handle that owes a reset to 2005. *)
Definition owing2005 : Rcpp.session ledger :=
  Rcpp.mk_session (Rcpp.mk_Environment 1 2000 2100 2000 "hector.ini" "check" false 2005)
                  {[ 1%Z := ledger2020 ]} [] [].

Lemma reset_to_later_date_leaves_reset_owed_witness :
  Rcpp.clean (Rcpp.handle (snd (Rcpp.reset 2010 owing2005))) = false /\
  ([] ++ [Rcpp.CallReset 2010; Rcpp.CallReset 2005])
    `prefix_of` Rcpp.calls (snd (Rcpp.run 2030 (snd (Rcpp.reset 2010 owing2005)))).
Proof.
  assert (E : Rcpp.live owing2005 ledger2020) by (vm_compute; reflexivity).
  destruct (Bindings.reset_to_later_date_leaves_reset_owed owing2005 ledger2020 2010 2030 E)
    as [H1 H2].
  split.
  - rewrite H1. vm_compute. reflexivity.
  - apply H2; [reflexivity | vm_compute; reflexivity | reflexivity].
Defined.

Lemma run_date_check_boundary_witness :
  Rcpp.run 2010 clean2020 = (Rcpp.Stop (Rcpp.RunDatePrior 2010 2020), clean2020) /\
  fst (Rcpp.run 2020 clean2020) = Rcpp.Ok tt /\
  fst (Rcpp.run (- (1)) clean2020) = Rcpp.Ok tt.
Proof.
  assert (E : Rcpp.live clean2020 ledger2020) by (vm_compute; reflexivity).
  split; [|split].
  - refine (proj1 (Bindings.run_date_check_boundary clean2020 ledger2020 2010 E eq_refl) _).
    split; vm_compute; reflexivity.
  - rewrite (proj2 (Bindings.run_date_check_boundary clean2020 ledger2020 2020 E eq_refl));
      [reflexivity | right; vm_compute; discriminate].
  - rewrite (proj2 (Bindings.run_date_check_boundary clean2020 ledger2020 (- (1)) E eq_refl));
      [reflexivity | left; vm_compute; discriminate].
Defined.

(** Three yearly values, the second of them negative. *)
Definition dates3 : Rcpp.NumericVector := [Some 2021; Some 2022; Some 2023].
Definition values3 : Rcpp.NumericVector := [Some 1; Some (- (2)); Some 3].

Lemma sendmessage_rows_answer_messages_in_order_witness :
  let r := Rcpp.sendmessage "setData" "ffi_emissions" dates3 [Some 5] "Pg C/yr" clean2020 in
  exists df,
    fst r = Rcpp.Ok df /\
    Rcpp.df_year df = dates3 /\
    Rcpp.df_value df = [5; 5; 5] /\
    Rcpp.df_units df = ["Pg C/yr"; "Pg C/yr"; "Pg C/yr"] /\
    Rcpp.live (snd r)
      (Bindings.applied "setData" "ffi_emissions"
         (Rcpp.envelopes U_PGC_YR [Some 5] 0 dates3) ledger2020).
Proof.
  cbv zeta.
  assert (E : Rcpp.live clean2020 ledger2020) by (vm_compute; reflexivity).
  eexists. split; [vm_compute; reflexivity|].
  match goal with |- Rcpp.df_year ?d = _ /\ _ =>
    destruct (Bindings.sendmessage_rows_answer_messages_in_order
                clean2020 ledger2020 "setData" "ffi_emissions" dates3 [Some 5] "Pg C/yr"
                d E) as (Hy & _ & _ & _ & _ & Hl)
  end.
  - vm_compute. reflexivity.
  - split; [exact Hy|]. split; [reflexivity|]. split; [reflexivity|]. exact Hl.
Defined.

Lemma sendmessage_failure_keeps_earlier_messages_witness :
  let r := Rcpp.sendmessage "setData" "ffi_emissions" dates3 values3 "Pg C/yr" clean2020 in
  let envs := Rcpp.envelopes U_PGC_YR values3 0 dates3 in
  fst r = Rcpp.Stop (Rcpp.SendmessageError NegativePool) /\
  exists k info,
    envs !! k = Some info /\
    Rcpp.calls (snd r)
    = [] ++ map (Rcpp.CallSendMessage "setData" "ffi_emissions") (take (S k) envs) /\
    Rcpp.live (snd r) (Bindings.applied "setData" "ffi_emissions" (take (S k) envs) ledger2020).
Proof.
  cbv zeta.
  assert (E : Rcpp.live clean2020 ledger2020) by (vm_compute; reflexivity).
  split; [vm_compute; reflexivity|].
  destruct (Bindings.sendmessage_failure_keeps_earlier_messages
              clean2020 ledger2020 "setData" "ffi_emissions" dates3 values3 "Pg C/yr"
              NegativePool E)
    as (k & info & Hk & _ & _ & Hc & Hl).
  - vm_compute. reflexivity.
  - exists k, info. split; [exact Hk|]. split; [exact Hc | exact Hl].
Defined.

Lemma sendmessage_reads_value_in_range_witness :
  exists x,
    [Some 5] !! (if (length [Some 5] =? 1)%nat then 0%nat else 1%nat) = Some x /\
    Rcpp.envelopes U_PGC_YR [Some 5] 0 [Some 2021; None] !! 1%nat
    = Some (mk_message_data (default Hector.undefinedIndex None)
                            (mk_unitval (default 0 x) U_PGC_YR)).
Proof.
  apply (Bindings.sendmessage_reads_value_in_range U_PGC_YR [Some 2021; None] [Some 5] 1 None).
  - right. reflexivity.
  - reflexivity.
Defined.

Lemma sendmessage_without_dates_witness :
  Rcpp.sendmessage "getData" "global_tas" [] [] "no unit" clean2020
  = (Rcpp.Stop Rcpp.DifferingRows, clean2020) /\
  Rcpp.sendmessage "setData" "ffi_emissions" [] [Some 1] "no unit" clean2020
  = (Rcpp.Stop (Rcpp.InvalidUnitType "no unit" "ffi_emissions"), clean2020).
Proof.
  assert (E : Rcpp.live clean2020 ledger2020) by (vm_compute; reflexivity).
  split.
  - rewrite (Bindings.sendmessage_without_dates clean2020 ledger2020
               "getData" "global_tas" [] "no unit" E). reflexivity.
  - rewrite (Bindings.sendmessage_without_dates clean2020 ledger2020
               "setData" "ffi_emissions" [Some 1] "no unit" E). reflexivity.
Defined.

(** ** The unit of a message *)

Lemma unit_failure_fatal_only_for_SETDATA_witness :
  Rcpp.sendmessage "setData" "ffi_emissions" dates3 [Some 5] "bogus" clean2020
  = (Rcpp.Stop (Rcpp.InvalidUnitType "bogus" "ffi_emissions"), clean2020) /\
  (let envs := Rcpp.envelopes U_UNDEFINED [None] 0 dates3 in
   let r := Rcpp.sendmessage "getData" "global_tas" dates3 [None] "bogus" clean2020 in
   Forall (fun m => uv_units (md_value m) = U_UNDEFINED) envs /\
   (exists more,
      Rcpp.calls (snd r)
      = [] ++ Rcpp.CallSendMessage "getData" "global_tas"
                (Rcpp.envelope U_UNDEFINED [None] 0 (Some 2021)) :: more) /\
   Rcpp.calls (snd r) = [] ++ map (Rcpp.CallSendMessage "getData" "global_tas") envs /\
   Rcpp.live (snd r) (Bindings.applied "getData" "global_tas" envs ledger2020)).
Proof.
  assert (E : Rcpp.live clean2020 ledger2020) by (vm_compute; reflexivity).
  assert (Hp : Hector.parseUnitsName "bogus" = Throw UnknownUnit) by reflexivity.
  assert (Hne : "getData" <> Hector.M_SETDATA) by discriminate.
  split.
  - refine (proj2 (proj1 (Bindings.unit_failure_fatal_only_for_SETDATA clean2020
                            "setData" "ffi_emissions" dates3 [Some 5] "bogus"
                            UnknownUnit Hp) eq_refl) ledger2020 E _).
    right. reflexivity.
  - cbv zeta.
    destruct (proj2 (Bindings.unit_failure_fatal_only_for_SETDATA clean2020
                       "getData" "global_tas" dates3 [None] "bogus" UnknownUnit Hp)
                    Hne ledger2020 E (or_intror eq_refl))
      as (Hu & _ & Hfirst & Hok & _).
    split; [exact Hu|]. split; [apply (Hfirst (Some 2021) [Some 2022; Some 2023] eq_refl)|].
    apply (Hok (Rcpp.mk_DataFrame dates3 "global_tas" [0; 0; 0]
                  ["(undefined)"; "(undefined)"; "(undefined)"])).
    vm_compute. reflexivity.
Defined.

(** ** [newcore_impl] *)

(** Setting up a ledger: the new core gets the next free index; parsing
    ["bad.ini"] throws; ["missing.ini"] is the one file that does not open. *)
#[local] Instance ledger_setup : Setup.SetupOps ledger := {|
  Setup.mkcore := fun _ _ _ reg => (Z.of_nat (size reg), mk_ledger 0 [] []);
  Setup.init := fun c => (Return tt, set_biomes c ["global"]);
  Setup.parse :=
    fun fn c => if String.eqb fn "bad.ini" then (Throw UnknownCapability, c)
                else (Return tt, set_clock c 2000);
  Setup.prepareToRun := fun c => (Return tt, c)
|}.

Definition ifstream (fn : string) : bool := negb (String.eqb fn "missing.ini").

(** A registry that holds one core already, under index 0. *)
Definition registry1 : gmap Z ledger := {[ 0%Z := ledger2020 ]}.

Lemma newcore_failure_leaves_core_registered_witness :
  let r := Setup.newcore_impl ifstream "bad.ini" 0 false "check" registry1 in
  fst r = inl (Setup.ParseError "bad.ini" UnknownCapability) /\
  is_Some (snd r !! 1%Z) /\
  snd r !! 0%Z = Some ledger2020 /\
  Setup.newcore_impl ifstream "missing.ini" 0 false "check" registry1
  = (inl (Setup.InputFileMissing "missing.ini"), registry1).
Proof.
  cbv zeta.
  destruct (Setup.newcore_failure_leaves_core_registered ifstream
              "bad.ini" 0 false "check" registry1
              (snd (Setup.newcore_impl ifstream "bad.ini" 0 false "check" registry1))
              (Setup.ParseError "bad.ini" UnknownCapability))
    as [(Hf & _)|(_ & _ & Hs & Ho)].
  - vm_compute. reflexivity.
  - discriminate Hf.
  - split; [vm_compute; reflexivity|]. split; [exact Hs|].
    split; [rewrite (Ho 0%Z); [reflexivity | vm_compute; discriminate] | reflexivity].
Defined.

Lemma newcore_handle_is_live_and_clean_witness :
  let r := Setup.newcore_impl ifstream "hector.ini" 0 false "check" registry1 in
  let env := Rcpp.mk_Environment 1 2000 2100 2000 "hector.ini" "check" true 0 in
  fst r = inr env /\
  Rcpp.live (Setup.session_of env (snd r)) (mk_ledger 2000 [] ["global"]) /\
  snd r !! 0%Z = Some ledger2020 /\
  Rcpp.calls (snd (Rcpp.run 2010 (Setup.session_of env (snd r)))) = [Rcpp.CallRun 2010].
Proof.
  cbv zeta.
  destruct (Setup.newcore_handle_is_live_and_clean ifstream
              "hector.ini" 0 false "check" registry1
              (snd (Setup.newcore_impl ifstream "hector.ini" 0 false "check" registry1))
              (Rcpp.mk_Environment 1 2000 2100 2000 "hector.ini" "check" true 0))
    as (_ & Hl & Ho & _).
  - vm_compute. reflexivity.
  - split; [vm_compute; reflexivity|]. split; [exact Hl|].
    split; [rewrite (Ho 0%Z); [reflexivity | vm_compute; discriminate] | reflexivity].
Defined.

(** ** The tracking report *)

Definition every_component : Visitor.core_view := Visitor.mk_core_view "check" (fun _ => true).

(** A tracked pool held in Pg C with two sources, and one held in Tg. *)
Definition two_sources : Pool.fluxpool :=
  Pool.mk_fluxpool "atmos_c" 100 U_PGC true {[ "atmos_c" := 1 # 2; "earth_c" := 1 # 2 ]}.

Definition in_Tg : Pool.fluxpool := Pool.create "earth_c" 7 U_TG true.

Lemma report_rows_are_ragged_witness :
  exists line,
    Visitor.print_pool (Visitor.new [] true) two_sources
    = Return (Visitor.set_csvFile (Visitor.new [] true)
                (Visitor.csvFile (Visitor.new [] true) ++ line ++ [Visitor.endl])) /\
    Report.columns line = 8%nat /\
    Report.columns Visitor.header = 6%nat.
Proof.
  destruct (Report.report_rows_are_ragged (Visitor.new [] true) two_sources eq_refl eq_refl)
    as (line & Hp & _ & Hc & Hh & _).
  exists line. split; [exact Hp|]. split; [rewrite Hc; vm_compute; reflexivity | exact Hh].
Defined.

Lemma visit_throws_on_pool_not_in_PgC_witness :
  Visitor.visit_SimpleNbox
    (Visitor.visit_Core (Visitor.new [] true) every_component)
    (Visitor.mk_SimpleNbox "simpleNbox" two_sources in_Tg)
  = Some (Throw UnitMismatch).
Proof.
  refine (proj1 (proj2 (Report.visit_throws_on_pool_not_in_PgC
                          (Visitor.visit_Core (Visitor.new [] true) every_component)
                          every_component
                          (Visitor.mk_SimpleNbox "simpleNbox" two_sources in_Tg)
                          eq_refl eq_refl)) _ _ _).
  - reflexivity.
  - reflexivity.
  - discriminate.
Defined.

(** ** The example driver *)

(** A core that answers every message and counts them. *)
#[local] Instance tally_ops : Hector.CoreOps nat := {|
  Hector.M_SETDATA := "setData";
  Hector.undefinedIndex := - (1);
  Hector.parseUnitsName := fun _ => Throw UnknownUnit;
  Hector.unitsName := fun _ => "(undefined)";
  Hector.getStartDate := fun _ => 2000;
  Hector.getEndDate := fun _ => 2100;
  Hector.getTrackingDate := fun _ => 2000;
  Hector.getCurrentDate := fun _ => 2000;
  Hector.reset := fun _ n => (Return tt, n);
  Hector.run := fun _ n => (Return tt, n);
  Hector.sendMessage := fun _ _ info n => (Return (md_value info), S n);
  Hector.getTrackingData := fun _ => [];
  Hector.getBiomeList := fun _ => [];
  Hector.createBiome := fun _ n => (Return tt, n);
  Hector.deleteBiome := fun _ n => (Return tt, n);
  Hector.renameBiome := fun _ _ n => (Return tt, n)
|}.

(** The value of the decimal digits that a string begins with. *)
Fixpoint digits (acc : Z) (s : string) : Z :=
  match s with
  | EmptyString => acc
  | String ch rest =>
      let n := Z.of_nat (nat_of_ascii ch) in
      if ((48 <=? n) && (n <=? 57))%Z then digits (10 * acc + (n - 48)) rest else acc
  end.

Definition atof (s : string) : Q := inject_Z (digits 0 s).

(** A line of 34 fields for a year, and one of three. *)
Definition row (y : string) : string :=
  String.append y ",1,2,3,4,5,6,7,8,9,10,11,12,13,14,15,16,17,18,19,20,21,22,23,24,25,26,27,28,29,30,31,32,33".

Definition short_row (y : string) : string := String.append y ",1,2".

Definition read (tstrt tend : Q) (stream : list string) (w : MainApi.state)
  : MainApi.ending * list string * MainApi.state :=
  MainApi.read_and_set_co2 atof "ffi_emissions" "daccs_uptake" "luc_emissions" "luc_uptake"
    "SO2_emissions" "BC_emissions" "OC_emissions" "CF4_emissions" "HFC22_emissions"
    tstrt tend stream w.

Definition start : MainApi.state (Core := nat) := MainApi.mk_state 0%nat [] [].

Definition yearly : list string := [short_row "2009"; row "2015"; row "2020"; row "2025"].

Lemma read_and_set_co2_reads_through_tend_witness :
  let r := read 2015 2020 yearly start in
  fst r = (MainApi.Returned, [row "2025"]) /\
  yearly = MainApi.consumed atof 2020 yearly ++ [row "2025"] /\
  length (MainApi.sent (snd r)) = 18%nat /\
  MainApi.core (snd r) = 18%nat /\
  map fst (MainApi.cout (snd r)) = [2015; 2020].
Proof.
  cbv zeta.
  destruct (MainApi.read_and_set_co2_reads_through_tend atof
              "ffi_emissions" "daccs_uptake" "luc_emissions" "luc_uptake"
              "SO2_emissions" "BC_emissions" "OC_emissions" "CF4_emissions" "HFC22_emissions"
              2015 2020 yearly [row "2025"] start (snd (read 2015 2020 yearly start)))
    as (Hs & _ & Hl & _ & _ & _).
  - vm_compute. reflexivity.
  - split; [vm_compute; reflexivity|]. split; [exact Hs|].
    split; [rewrite Hl; vm_compute; reflexivity|]. split; vm_compute; reflexivity.
Defined.

(** The same stream read into the ledger, a core that refuses a negative
    value: it answers the messages of these lines. *)
Definition read_ledger (tstrt tend : Q) (stream : list string)
  (w : MainApi.state (Core := ledger))
  : MainApi.ending * list string * MainApi.state (Core := ledger) :=
  MainApi.read_and_set_co2 (HC := ledger_ops) atof
    "ffi_emissions" "daccs_uptake" "luc_emissions" "luc_uptake"
    "SO2_emissions" "BC_emissions" "OC_emissions" "CF4_emissions" "HFC22_emissions"
    tstrt tend stream w.

Definition start_ledger : MainApi.state (Core := ledger) :=
  MainApi.mk_state ledger2020 [] [].

Lemma read_and_set_co2_returns_when_a_row_reaches_tend_witness :
  exists rest w', read_ledger 2015 2020 yearly start_ledger = (MainApi.Returned, rest, w').
Proof.
  apply (MainApi.read_and_set_co2_returns_when_a_row_reaches_tend (HC := ledger_ops) atof
           "ffi_emissions" "daccs_uptake" "luc_emissions" "luc_uptake"
           "SO2_emissions" "BC_emissions" "OC_emissions" "CF4_emissions" "HFC22_emissions"
           2015 2020 yearly start_ledger).
  - vm_compute. reflexivity.
  - repeat constructor; vm_compute; intros; try discriminate; lia.
  - vm_compute. reflexivity.
Defined.

Lemma read_and_set_co2_short_row_is_read_out_of_range_witness :
  exists w',
    read_ledger 2015 2030 ([row "2015"] ++ short_row "2016" :: [row "2017"]) start_ledger
    = (MainApi.OutOfRange, [row "2017"], w') /\
    length (MainApi.sent w') = 9%nat.
Proof.
  destruct (MainApi.read_and_set_co2_short_row_is_read_out_of_range (HC := ledger_ops) atof
              "ffi_emissions" "daccs_uptake" "luc_emissions" "luc_uptake"
              "SO2_emissions" "BC_emissions" "OC_emissions" "CF4_emissions" "HFC22_emissions"
              2015 2030 [row "2015"] [row "2017"] (short_row "2016") start_ledger)
    as (w' & Hr & Hs).
  - repeat constructor.
  - repeat constructor; vm_compute; intros; lia.
  - vm_compute. reflexivity.
  - vm_compute. reflexivity.
  - vm_compute. lia.
  - exists w'. split; [exact Hr|]. rewrite Hs. vm_compute. reflexivity.
Defined.

(** The loop round by round, on a stream whose last line, of the year 2020,
    has no newline after it. *)
Definition loop (n : nat) (tstrt tend : Q) (stream : MainApi.istream)
  (w : MainApi.state (Core := ledger))
  : option MainApi.ending * MainApi.istream * MainApi.state (Core := ledger) :=
  MainApi.rounds (HC := ledger_ops) atof
    "ffi_emissions" "daccs_uptake" "luc_emissions" "luc_uptake"
    "SO2_emissions" "BC_emissions" "OC_emissions" "CF4_emissions" "HFC22_emissions"
    n tstrt tend stream EmptyString w.

Definition no_final_newline : MainApi.istream :=
  MainApi.mk_istream [row "2015"] (Some (row "2020")) true.

Lemma read_and_set_co2_loops_at_end_of_stream_witness :
  MainApi.line_found no_final_newline EmptyString 3 = row "2020" /\
  fst (fst (loop 4 2015 2030 no_final_newline start_ledger)) <> Some MainApi.Returned /\
  exists stream' w',
    loop 4 2015 2030 no_final_newline start_ledger = (None, stream', w') /\
    length (MainApi.sent w') = 36%nat /\
    map fst (MainApi.cout w') = [2015; 2020; 2020; 2020].
Proof.
  destruct (MainApi.read_and_set_co2_loops_at_end_of_stream (HC := ledger_ops) atof
              "ffi_emissions" "daccs_uptake" "luc_emissions" "luc_uptake"
              "SO2_emissions" "BC_emissions" "OC_emissions" "CF4_emissions" "HFC22_emissions"
              2015 2030 no_final_newline start_ledger 4)
    as [Hn Hd].
  - reflexivity.
  - vm_compute. reflexivity.
  - vm_compute. reflexivity.
  - split; [reflexivity|]. split; [exact Hn|].
    destruct Hd as (stream' & w' & Hr & Hs & Hc).
    + repeat constructor; vm_compute; intros; lia.
    + vm_compute. reflexivity.
    + exists stream', w'. split; [exact Hr|].
      split; [rewrite Hs | rewrite Hc]; vm_compute; reflexivity.
Defined.

End Checks.
